(** * Cheesecake: the scoring engine of [cheesecake_index.py]

    A shallow embedding of the index tree ([Index] and its subclasses),
    of the file-rule matcher ([FilesIndex], [OneOf], [WithOptionalExt])
    and of the two report computations ([Index._print_info_many],
    [Cheesecake.compute_cheesecake_index]), with the properties of the
    specification stated and proved (or refuted) against them.

    Python objects are mutated in place; here every operation returns the
    object it has mutated.  A raised exception is a [Raise] result. *)

From Stdlib Require Import ZArith Ascii String List Bool Lia.
From Stdlib Require Import Floats.SpecFloat.
From stdpp Require Import base option list gmap strings pretty.

Open Scope string_scope.
Open Scope list_scope.
Open Scope Z_scope.

(** ** Python strings

    Python 2 [str] values are byte strings; the methods used by the
    source ([lower], [upper], [capitalize], [rfind], slicing) act on
    ASCII letters only. *)
Module PyStr.

Definition is_upper (c : ascii) : bool :=
  let n := N_of_ascii c in (65 <=? n)%N && (n <=? 90)%N.

Definition is_lower (c : ascii) : bool :=
  let n := N_of_ascii c in (97 <=? n)%N && (n <=? 122)%N.

Definition lower_char (c : ascii) : ascii :=
  if is_upper c then ascii_of_N (N_of_ascii c + 32) else c.

Definition upper_char (c : ascii) : ascii :=
  if is_lower c then ascii_of_N (N_of_ascii c - 32) else c.

(** [s.lower()] *)
Fixpoint lower (s : string) : string :=
  match s with
  | EmptyString => EmptyString
  | String c s' => String (lower_char c) (lower s')
  end.

(** [s.upper()] *)
Fixpoint upper (s : string) : string :=
  match s with
  | EmptyString => EmptyString
  | String c s' => String (upper_char c) (upper s')
  end.

(** [s.capitalize()]: first character upper-cased, the rest lower-cased. *)
Definition capitalize (s : string) : string :=
  match s with
  | EmptyString => EmptyString
  | String c s' => String (upper_char c) (lower s')
  end.

(** [s.rfind(c)] for a one-character [c]: the highest index holding [c],
    or [-1].  [i] is the index of the head of [s], [last] the best index
    seen so far. *)
Fixpoint rfind_from (c : ascii) (s : string) (i last : Z) : Z :=
  match s with
  | EmptyString => last
  | String a s' => rfind_from c s' (i + 1) (if Ascii.eqb a c then i else last)
  end.

Definition rfind (c : ascii) (s : string) : Z := rfind_from c s 0 (-1).

(** [s[:i]] and [s[i:]] for [0 <= i]. *)
Definition slice_to (s : string) (i : Z) : string :=
  String.substring 0 (Z.to_nat i) s.

Definition slice_from (s : string) (i : Z) : string :=
  String.substring (Z.to_nat i) (String.length s - Z.to_nat i) s.

(** [s[i:j]] for [0 <= i]. *)
Definition slice (s : string) (i j : Z) : string :=
  String.substring (Z.to_nat i) (Z.to_nat (j - i)) s.

(** Does [s] hold a character other than [c]?  The scan of the [while]
    loop of [genericpath._splitext]. *)
Fixpoint has_other_than (c : ascii) (s : string) : bool :=
  match s with
  | EmptyString => false
  | String a s' => if Ascii.eqb a c then has_other_than c s' else true
  end.

(** [os.path.splitext] ([posixpath], separator ["/"], no alternative
    separator): the extension starts at the last dot of the last path
    component, unless only dots precede it there. *)
Definition splitext (p : string) : string * string :=
  let sepIndex := rfind "/" p in
  let dotIndex := rfind "." p in
  if (sepIndex <? dotIndex)%Z
     && has_other_than "." (slice p (sepIndex + 1) dotIndex)
  then (slice_to p dotIndex, slice_from p dotIndex)
  else (p, "").

(** [os.path.basename] *)
Definition basename (p : string) : string :=
  slice_from p (rfind "/" p + 1).

Definition startswith_sep (b : string) : bool :=
  match b with
  | String c _ => Ascii.eqb c "/"
  | EmptyString => false
  end.

Fixpoint endswith_sep (a : string) : bool :=
  match a with
  | EmptyString => false
  | String c EmptyString => Ascii.eqb c "/"
  | String _ a' => endswith_sep a'
  end.

(** [os.path.join(a, b)] *)
Definition join (a b : string) : string :=
  if startswith_sep b then b
  else if String.eqb a "" || endswith_sep a then a +:+ b
  else a +:+ "/" +:+ b.

(** [x in L] for a list of strings. *)
Definition str_in (x : string) (L : list string) : bool :=
  existsb (String.eqb x) L.

End PyStr.

(** ** File rules ([OneOf], [WithOptionalExt], [FilesIndex])

    A rule is a string or a [OneOf] object.  Python compares strings by
    value and [OneOf] objects (which define no [__eq__]) by identity, so
    a [OneOf] carries the identity [oid] of its object. *)
Module Rules.

#[warnings="-register-all"]
Inductive Rule : Type :=
| RStr (s : string)
| ROneOf (oid : nat) (possibilities : list Rule).

(** [a == b] on rules. *)
Definition rule_eqb (a b : Rule) : bool :=
  match a, b with
  | RStr s, RStr t => String.eqb s t
  | ROneOf i _, ROneOf j _ => Nat.eqb i j
  | _, _ => false
  end.

(** [rule in self._used_rules] *)
Definition rule_in (rule : Rule) (used : list Rule) : bool :=
  existsb (fun u => rule_eqb u rule) used.

(** The constructor of [OneOf]; [oid] is the identity of the new object. *)
Definition OneOf (oid : nat) (possibilities : list Rule) : Rule :=
  ROneOf oid possibilities.

(** [WithOptionalExt(name, extensions)] *)
Definition WithOptionalExt (oid : nat) (name : string)
    (extensions : list string) : Rule :=
  let possibilities :=
    RStr name :: map (fun x => RStr (name +:+ "." +:+ x)) extensions in
  OneOf oid possibilities.

(** [Doc(name)] *)
Definition Doc (oid : nat) (name : string) : Rule :=
  WithOptionalExt oid name ["html"; "txt"; "rst"].

(** The local function [equal] of [match_filename]. *)
Definition equal (x y : string) : bool :=
  let '(x_root, x_ext) := PyStr.splitext x in
  let '(y_root, y_ext) := PyStr.splitext (PyStr.lower y) in
  PyStr.str_in x_root
    [PyStr.lower y_root; PyStr.upper y_root; PyStr.capitalize y_root]
  && PyStr.str_in x_ext [PyStr.lower y_ext; PyStr.upper y_ext].

(** [FilesIndex.match_filename(name, rule)], threading [self._used_rules]:
    the result is the returned boolean and the list after the call. *)
Fixpoint match_filename (name : string) (rule : Rule) (used : list Rule)
    {struct rule} : bool * list Rule :=
  if rule_in rule used then (false, used)
  else
    match rule with
    | RStr s =>
        if equal name s then (true, used ++ [rule]) else (false, used)
    | ROneOf _ possibilities =>
        (fix try_each (ps : list Rule) (used : list Rule) {struct ps}
             : bool * list Rule :=
           match ps with
           | [] => (false, used)
           | poss :: ps' =>
               let '(matched, used') := match_filename name poss used in
               if matched then (true, used' ++ [rule])
               else try_each ps' used'
           end) possibilities used
    end.

(** The loop over [rule.possibilities], as a function of its own. *)
Fixpoint try_each (name : string) (rule : Rule) (ps : list Rule)
    (used : list Rule) : bool * list Rule :=
  match ps with
  | [] => (false, used)
  | poss :: ps' =>
      let '(matched, used') := match_filename name poss used in
      if matched then (true, used' ++ [rule])
      else try_each name rule ps' used'
  end.

(** [FilesIndex.get_score(name, specs)]; [specs] is the rule dictionary
    in its iteration order. *)
Fixpoint get_score (name : string) (specs : list (Rule * Z))
    (used : list Rule) : Z * list Rule :=
  match specs with
  | [] => (0, used)
  | (entry, value) :: specs' =>
      let '(matched, used') := match_filename name entry used in
      if matched then (value, used') else get_score name specs' used'
  end.

(** [FilesIndex.get_not_used(files_rules)] *)
Definition get_not_used (used : list Rule) (files_rules : list Rule)
    : list Rule :=
  List.filter (fun rule => negb (rule_in rule used)) files_rules.

(** The file system, as far as [is_empty] looks at it: a regular file
    with its size, or a directory with its listing. *)
Inductive FsNode : Type :=
| FsFile (size : Z)
| FsDir (listing : list string).

(** [is_empty(path)] *)
Definition is_empty (fs : gmap string FsNode) (path : string) : bool :=
  match fs !! path with
  | Some (FsFile size) => size =? 0
  | Some (FsDir listing) => match listing with [] => true | _ => false end
  | None => false
  end.

(** The state of the loop of [_compute_from_rules]. *)
Record RunState : Type := mkRun {
  run_used : list Rule;
  files_count : Z;
  run_value : Z
}.

Definition run_step (fs : gmap string FsNode) (package_dir : string)
    (files_rules : list (Rule * Z)) (st : RunState) (filename : string)
    : RunState :=
  if negb (is_empty fs (PyStr.join package_dir filename)) then
    let '(score, used') :=
      get_score (PyStr.basename filename) files_rules (run_used st) in
    if negb (score =? 0)
    then mkRun used' (files_count st + 1) (run_value st + score)
    else mkRun used' (files_count st) (run_value st)
  else st.

(** [FilesIndex._compute_from_rules(files_list, package_dir, files_rules)]:
    the final state holds the returned pair and [self._used_rules]. *)
Definition _compute_from_rules (fs : gmap string FsNode)
    (files_list : list string) (package_dir : string)
    (files_rules : list (Rule * Z)) : RunState :=
  fold_left (run_step fs package_dir files_rules) files_list (mkRun [] 0 0).

(** *** Attribution of candidates to rules

    [get_score] returns the weight of the first entry that matches;
    [find_entry] names that entry, and [winning_leaf] names the string
    through which a rule matched.  They run the same code and only
    report more. *)
Fixpoint find_entry (name : string) (specs : list (Rule * Z))
    (used : list Rule) : option (Rule * Z) :=
  match specs with
  | [] => None
  | (entry, value) :: specs' =>
      let '(matched, used') := match_filename name entry used in
      if matched then Some (entry, value) else find_entry name specs' used'
  end.

Fixpoint winning_leaf (name : string) (rule : Rule) (used : list Rule)
    {struct rule} : option string :=
  if rule_in rule used then None
  else
    match rule with
    | RStr s => if equal name s then Some s else None
    | ROneOf _ possibilities =>
        (fix first_leaf (ps : list Rule) (used : list Rule) {struct ps}
             : option string :=
           match ps with
           | [] => None
           | poss :: ps' =>
               if fst (match_filename name poss used)
               then winning_leaf name poss used
               else first_leaf ps' (snd (match_filename name poss used))
           end) possibilities used
    end.

(** The loop of [winning_leaf] on its own. *)
Fixpoint first_leaf (name : string) (ps : list Rule) (used : list Rule)
    : option string :=
  match ps with
  | [] => None
  | poss :: ps' =>
      if fst (match_filename name poss used)
      then winning_leaf name poss used
      else first_leaf name ps' (snd (match_filename name poss used))
  end.

(** One entry of the trace of a run: the candidate, [self._used_rules]
    before it is looked at, and the entry it is attributed to, if any
    ([None] for an empty file and for a name no rule matches). *)
Record Attribution : Type := mkAttr {
  cand : string;
  used_before : list Rule;
  hit : option (Rule * Z)
}.

Fixpoint attributions (fs : gmap string FsNode) (package_dir : string)
    (files_rules : list (Rule * Z)) (files_list : list string)
    (st : RunState) : list Attribution :=
  match files_list with
  | [] => []
  | filename :: rest =>
      let h :=
        if negb (is_empty fs (PyStr.join package_dir filename))
        then find_entry (PyStr.basename filename) files_rules (run_used st)
        else None in
      mkAttr filename (run_used st) h
      :: attributions fs package_dir files_rules rest
           (run_step fs package_dir files_rules st filename)
  end.

(** The trace of [_compute_from_rules(files_list, package_dir,
    files_rules)]. *)
Definition run_trace (fs : gmap string FsNode) (files_list : list string)
    (package_dir : string) (files_rules : list (Rule * Z))
    : list Attribution :=
  attributions fs package_dir files_rules files_list (mkRun [] 0 0).

(** Is the attribution to (an entry equal to) [R]? *)
Definition attributed_to (R : Rule) (a : Attribution) : bool :=
  match hit a with
  | Some (entry, _) => rule_eqb entry R
  | None => false
  end.

(** How many candidates the run attributed to [R]. *)
Definition times_matched (R : Rule) (tr : list Attribution) : nat :=
  length (List.filter (attributed_to R) tr).

(** What the candidates attributed to [R] added to the score. *)
Fixpoint contribution (R : Rule) (tr : list Attribution) : Z :=
  match tr with
  | [] => 0
  | a :: tr' =>
      (match hit a with
       | Some (entry, value) => if rule_eqb entry R then value else 0
       | None => 0
       end) + contribution R tr'
  end.

(** The weight an attribution carries. *)
Definition hit_weight (a : Attribution) : Z :=
  match hit a with
  | Some (_, v) => v
  | None => 0
  end.

(** The keys of a dictionary are pairwise different under [==]. *)
Fixpoint keys_distinct (specs : list (Rule * Z)) : bool :=
  match specs with
  | [] => true
  | (entry, _) :: specs' =>
      negb (existsb (fun kv => rule_eqb (fst kv) entry) specs')
      && keys_distinct specs'
  end.

End Rules.

(** ** Python values, exceptions and floats *)
Module Py.

(** The values the attributes of a [Cheesecake] object hold. *)
Inductive PyVal : Type :=
| PyNone
| PyBool (b : bool)
| PyInt (z : Z)
| PyStr (s : string)
| PyList (l : list string).

(** Truth value of an object ([if v:], [not v]). *)
Definition truthy (v : PyVal) : bool :=
  match v with
  | PyNone => false
  | PyBool b => b
  | PyInt z => negb (z =? 0)
  | PyStr s => negb (String.eqb s "")
  | PyList l => match l with [] => false | _ => true end
  end.

Inductive PyExc : Type :=
| AttributeError
| KeyError
| ValueError
| TypeError
| ZeroDivisionError
| OverflowError
| OSError
| Exception.

(** The outcome of a call: a returned value or a raised exception. *)
Inductive result (A : Type) : Type :=
| Ok (a : A)
| Raise (e : PyExc).
Arguments Ok {A} a.
Arguments Raise {A} e.

(** Sequencing: an exception ends the computation. *)
#[global] Instance result_bind : MBind result := λ A B k r,
  match r with
  | Ok a => k a
  | Raise e => Raise e
  end.

Definition is_ok {A : Type} (r : result A) : bool :=
  match r with Ok _ => true | Raise _ => false end.

(** [sum(L)] on integers: starts from 0 and adds from the left. *)
Definition sum (L : list Z) : Z := fold_left Z.add L 0.

(** ["%d" % z] *)
Definition fmt_d (z : Z) : string := pretty z.

(** [c * n] for a one-character string [c]; empty when [n <= 0]. *)
Definition repeat_char (c : ascii) (n : Z) : string :=
  string_of_list_ascii (repeat c (Z.to_nat n)).

Definition len (s : string) : Z := Z.of_nat (String.length s).

(** Iteration over a value ([for x in v], [filter(f, v)]): the items of
    a list, the characters of a string, [TypeError] otherwise. *)
Definition iterate (v : PyVal) : result (list string) :=
  match v with
  | PyList l => Ok l
  | PyStr s => Ok (map (fun c => String c EmptyString) (list_ascii_of_string s))
  | _ => Raise TypeError
  end.

(** *** Floats: IEEE 754 binary64, rounding to nearest even *)

Definition prec : Z := 53.
Definition emax : Z := 1024.

(** [float(z)] for an integer [z]: the nearest double, and
    [OverflowError] when that is no finite number. *)
Definition float_of_int (z : Z) : result spec_float :=
  match binary_normalize prec emax z 0 false with
  | S754_infinity _ => Raise OverflowError
  | x => Ok x
  end.

Definition is_zero (x : spec_float) : bool :=
  match x with S754_zero _ => true | _ => false end.

(** [x / y] *)
Definition fdiv (x y : spec_float) : result spec_float :=
  if is_zero y then Raise ZeroDivisionError else Ok (SFdiv prec emax x y).

(** [x * y] *)
Definition fmul (x y : spec_float) : spec_float := SFmul prec emax x y.

(** [int(ceil(x))] *)
Definition int_ceil (x : spec_float) : result Z :=
  match x with
  | S754_zero _ => Ok 0
  | S754_finite neg m e =>
      if 0 <=? e then
        Ok ((if neg then -1 else 1) * (Z.pos m * 2 ^ e))
      else if neg then Ok (- (Z.pos m / 2 ^ (- e)))
      else Ok (- ((- Z.pos m) / 2 ^ (- e)))
  | S754_infinity _ => Raise OverflowError
  | S754_nan => Raise ValueError
  end.

End Py.

(** ** Padding helpers of [util.py] *)
Module Util.

Definition PAD_TEXT : Z := 40.
Definition PAD_VALUE : Z := 4.

(** [pad_left_spaces(value, length)] for an integer [value]. *)
Definition pad_left_spaces (value : Z) (length : Z) : string :=
  let value := Py.fmt_d value in
  let diff := length - Py.len value in
  Py.repeat_char " " diff +:+ value.

(** [pad_msg(msg, value)] with the default lengths. *)
Definition pad_msg (msg : string) (value : Z) : string :=
  msg +:+ " " +:+ Py.repeat_char "." (PAD_TEXT - Py.len msg - 1)
      +:+ pad_left_spaces value PAD_VALUE.

(** [pad_line(char)] with the default length. *)
Definition pad_line (char : ascii) : string :=
  Py.repeat_char char (PAD_TEXT + PAD_VALUE + 1).

End Util.

(** ** The index tree ([class Index]) *)
Module Tree.
Import Py.

(** The [cheesecake] object handed to [compute_with] and [decide]: a
    [Cheesecake] instance.  [__init__] always sets [quiet] and [verbose]
    (and [log], a sink that is not modelled); the other attributes are
    assigned by [__init__] and by the steps that ran, and are looked up
    by name. *)
Record Cheesecake : Type := mkCheesecake {
  quiet : bool;
  verbose : bool;
  attrs : gmap string PyVal
}.

(** [cheesecake.<name>]: [AttributeError] when the attribute is not set. *)
Definition getattr (cheesecake : Cheesecake) (name : string) : result PyVal :=
  match attrs cheesecake !! name with
  | Some v => Ok v
  | None => Raise AttributeError
  end.

(** [hasattr(obj, name)] *)
Definition hasattr (obj : Cheesecake) (name : string) : bool :=
  String.eqb name "quiet" || String.eqb name "verbose"
  || bool_decide (is_Some (attrs obj !! name)).

(** [getattr(obj, name, None)] *)
Definition getattr_default (obj : Cheesecake) (name : string) : PyVal :=
  if String.eqb name "quiet" then PyBool (quiet obj)
  else if String.eqb name "verbose" then PyBool (verbose obj)
  else default PyNone (attrs obj !! name).

(** [get_attributes(obj, names)] *)
Definition get_attributes (obj : Cheesecake) (names : list string)
    : gmap string PyVal :=
  fold_left (fun attrs name => <[name := getattr_default obj name]> attrs)
    names ∅.

(** The instance attributes a [compute] method assigns.  ([info], the
    text shown with [--verbose], is not modelled.) *)
Record Attrs : Type := mkAttrs {
  value : Z;
  details : string
}.

(** The class defaults: [value = -1], [details = ""]. *)
Definition fresh : Attrs := mkAttrs (-1) "".

Definition set_value (v : Z) (st : Attrs) : Attrs := mkAttrs v (details st).

(** What a subclass of [Index] declares.  A field that is [None] is
    inherited from [Index].  A [compute] method receives the keyword
    arguments prepared by [get_attributes], assigns [self.value] (and
    [self.details]) and ends with [return self.value], or raises. *)
Record IndexClass : Type := mkClass {
  name : string;
  cls_max_value : option Z;
  _compute_arguments : list string;
  cls_compute : option (gmap string PyVal -> Attrs -> result Attrs);
  cls_decide_before_download : option (Cheesecake -> result bool);
  cls_decide_after_download : option (Cheesecake -> result bool)
}.

(** An index object: its class, its attributes and [self.subindices].
    Children are owned by their parent; with the names of siblings
    pairwise different (as in every tree built from class lists),
    [self._indices_dict] maps each child's name to that child. *)
#[warnings="-register-all"]
Inductive Index : Type :=
| Node (cls : IndexClass) (st : Attrs) (subindices : list Index).

Definition cls_of (self : Index) : IndexClass :=
  match self with Node cls _ _ => cls end.

Definition st_of (self : Index) : Attrs :=
  match self with Node _ st _ => st end.

Definition subindices (self : Index) : list Index :=
  match self with Node _ _ subs => subs end.

Definition index_name (self : Index) : string := name (cls_of self).

Definition index_value (self : Index) : Z := value (st_of self).

(** [Index._get_max_value], behind the property [max_value] that a
    class attribute of the same name overrides. *)
Fixpoint max_value (self : Index) : Z :=
  match self with
  | Node cls _ subs =>
      match cls_max_value cls with
      | Some m => m
      | None =>
          match subs with
          | [] => 0
          | _ => sum (map max_value subs)
          end
      end
  end.

(** [Index._get_requirements] *)
Fixpoint requirements (self : Index) : list string :=
  match self with
  | Node cls _ subs =>
      match subs with
      | [] => _compute_arguments cls
      | _ =>
          _compute_arguments cls
            ++ fold_left (fun x y => x ++ requirements y) subs []
      end
  end.

(** [Index.add_subindex], as far as the list [self.subindices] goes;
    the dictionary [self._indices_dict] is modelled in [Registry]. *)
Definition add_subindex (index : Index) (self : Index) : Index :=
  match self with
  | Node cls st subs => Node cls st (subs ++ [index])
  end.

(** The percentage of [_print_info_many]:
    [int(ceil(float(self.value) / float(max_value) * 100))]. *)
Definition percentage (value max_value : Z) : result Z :=
  x ← float_of_int value;
  y ← float_of_int max_value;
  q ← fdiv x y;
  hundred ← float_of_int 100;
  int_ceil (fmul q hundred).

(** [Index._print_info_many]: the lines written to standard output. *)
Definition _print_info_many (self : Index) : result (list string) :=
  let max_value := max_value self in
  if max_value =? 0 then Ok []
  else
    percentage ← percentage (index_value self) max_value;
    let msg :=
      Util.pad_msg (index_name self +:+ " INDEX (RELATIVE)") percentage
      +:+ "  (" +:+ fmt_d (index_value self) +:+ " out of a maximum of "
      +:+ fmt_d max_value +:+ " points is " +:+ fmt_d percentage +:+ "%)" in
    Ok [ Util.pad_line "-";
         Util.pad_msg (index_name self +:+ " INDEX (ABSOLUTE)")
           (index_value self);
         msg;
         "" ].

(** [Index.print_info], as far as it can fail: an index without
    subindices writes one line ([_print_info_one], whose text is not
    modelled), one with subindices the lines of [_print_info_many]. *)
Definition print_info (self : Index) : result unit :=
  match subindices self with
  | [] => Ok tt
  | _ => _ ← _print_info_many self; Ok tt
  end.

(** Does the statement [if not self.cheesecake.quiet: index.print_info()]
    of [_iter_indices] complete? *)
Definition printed (cheesecake : Cheesecake) (index : Index) : bool :=
  quiet cheesecake || is_ok (print_info index).

(** [Index.compute_with(cheesecake)] together with [Index.compute] and
    the generator [Index._iter_indices]: the index after the call and
    the returned value.  The generator walks a copy of
    [self.subindices]; a child whose [compute_with] raises, or whose
    [print_info] raises after its value has been yielded, is removed
    from [self.subindices].  When an overriding [compute] raises, the
    attributes it had assigned before are not modelled. *)
Fixpoint compute_with (cheesecake : Cheesecake) (self : Index)
    {struct self} : Index * result Z :=
  match self with
  | Node cls st subs =>
      match cls_compute cls with
      | Some compute =>
          match compute (get_attributes cheesecake (_compute_arguments cls)) st
          with
          | Ok st' => (Node cls st' subs, Ok (value st'))
          | Raise e => (self, Raise e)
          end
      | None =>
          let '(subs', yielded) :=
            (fix _iter_indices (copy : list Index) {struct copy}
                 : list Index * list Z :=
               match copy with
               | [] => ([], [])
               | index :: rest =>
                   match compute_with cheesecake index with
                   | (index', Ok v) =>
                       let '(rest', ys) := _iter_indices rest in
                       if printed cheesecake index'
                       then (index' :: rest', v :: ys)
                       else (rest', v :: ys)
                   | (_, Raise _) => _iter_indices rest
                   end
               end) subs in
          let total := sum yielded in
          (Node cls (set_value total st) subs', Ok total)
      end
  end.

(** [Index._iter_indices] on its own: the subindices left and the
    values yielded. *)
Fixpoint _iter_indices (cheesecake : Cheesecake) (copy : list Index)
    : list Index * list Z :=
  match copy with
  | [] => ([], [])
  | index :: rest =>
      match compute_with cheesecake index with
      | (index', Ok v) =>
          let '(rest', ys) := _iter_indices cheesecake rest in
          if printed cheesecake index'
          then (index' :: rest', v :: ys)
          else (rest', v :: ys)
      | (_, Raise _) => _iter_indices cheesecake rest
      end
  end.

Inductive Phase : Type := before_download | after_download.

(** [getattr(index, 'decide_' + when)], when the class overrides it. *)
Definition cls_decide (when : Phase) (cls : IndexClass)
    : option (Cheesecake -> result bool) :=
  match when with
  | before_download => cls_decide_before_download cls
  | after_download => cls_decide_after_download cls
  end.

(** [Index.decide_before_download] / [Index.decide_after_download]:
    the index after the call and the truth value of what is returned.
    [Index.decide] walks a copy of [self.subindices] and calls
    [remove_subindex(index.name)] for every child whose decision is
    false; it returns [self.subindices], true when not empty.
    [remove_subindex] goes through the dictionary [_indices_dict]
    ([Registry]): when the names of the subindices are pairwise
    different, as in the trees a run builds, it removes that very
    child, and that is what this definition does.  With two subindices
    of one name the code removes the one added last, or raises; this
    definition does not follow it there. *)
Fixpoint decide (when : Phase) (cheesecake : Cheesecake) (self : Index)
    {struct self} : result (Index * bool) :=
  match self with
  | Node cls st subs =>
      match cls_decide when cls with
      | Some decision => b ← decision cheesecake; Ok (self, b)
      | None =>
          match subs with
          | [] => Ok (self, true)
          | _ =>
              subs' ←
                (fix decide_each (copy : list Index) {struct copy}
                     : result (list Index) :=
                   match copy with
                   | [] => Ok []
                   | index :: rest =>
                       match decide when cheesecake index with
                       | Ok (index', keep) =>
                           rest' ← decide_each rest;
                           Ok (if keep then index' :: rest' else rest')
                       | Raise e => Raise e
                       end
                   end) subs;
              Ok (Node cls st subs',
                  match subs' with [] => false | _ => true end)
          end
      end
  end.

(** The loop of [Index.decide] on its own. *)
Fixpoint decide_each (when : Phase) (cheesecake : Cheesecake)
    (copy : list Index) : result (list Index) :=
  match copy with
  | [] => Ok []
  | index :: rest =>
      match decide when cheesecake index with
      | Ok (index', keep) =>
          rest' ← decide_each when cheesecake rest;
          Ok (if keep then index' :: rest' else rest')
      | Raise e => Raise e
      end
  end.

(** [Cheesecake.compute_cheesecake_index]: the index after the call and
    either the printed summary with the returned value, or the
    exception.  The two lines written to the log are not modelled, nor
    is the read of [self.package] for the second one, an attribute that
    [Cheesecake.__init__] always sets. *)
Definition compute_cheesecake_index (self : Cheesecake) (index : Index)
    : Index * result (list string * Z) :=
  let '(index', r) := compute_with self index in
  (index',
   cheesecake_index ← r;
   let max_cheesecake_index := max_value index' in
   if max_cheesecake_index =? 0 then Raise ZeroDivisionError
   else
     let percentage := (cheesecake_index * 100) / max_cheesecake_index in
     let tail :=
       "(" +:+ fmt_d cheesecake_index +:+ " out of a maximum of "
       +:+ fmt_d max_cheesecake_index +:+ " points is "
       +:+ fmt_d percentage +:+ "%)" in
     if quiet self then
       Ok (["Cheesecake index: " +:+ fmt_d percentage +:+ " ("
            +:+ fmt_d cheesecake_index +:+ " / "
            +:+ fmt_d max_cheesecake_index +:+ ")"],
           cheesecake_index)
     else
       Ok ([ "";
             Util.pad_line "=";
             Util.pad_msg "OVERALL CHEESECAKE INDEX (ABSOLUTE)"
               cheesecake_index;
             Util.pad_msg "OVERALL CHEESECAKE INDEX (RELATIVE)" percentage
             +:+ "  " +:+ tail ],
           cheesecake_index)).

(** All the indices of a tree, parents before children. *)
Fixpoint nodes (self : Index) : list Index :=
  match self with
  | Node _ _ subs => self :: flat_map nodes subs
  end.

(** [t'] has no index of a class that [t] has not. *)
Definition shrinks (t' t : Index) : Prop :=
  forall n', In n' (nodes t') -> exists n, In n (nodes t) /\ cls_of n' = cls_of n.

(** The indices that [decide] removes from a tree: a child for which
    the decision is false goes with everything below it, and a child
    that stays may lose indices of its own. *)
Inductive rejected (when : Phase) (cheesecake : Cheesecake)
    : Index -> Index -> Prop :=
| rejected_here cls st subs index index' n :
    cls_decide when cls = None ->
    In index subs ->
    decide when cheesecake index = Ok (index', false) ->
    In n (nodes index) ->
    rejected when cheesecake (Node cls st subs) n
| rejected_below cls st subs index index' n :
    cls_decide when cls = None ->
    In index subs ->
    decide when cheesecake index = Ok (index', true) ->
    rejected when cheesecake index n ->
    rejected when cheesecake (Node cls st subs) n.

(** What the run does to the main index: the two decisions and the
    computation. *)
Inductive Op : Type :=
| DecideOp (when : Phase) (cheesecake : Cheesecake)
| ComputeOp (cheesecake : Cheesecake).

Definition apply_op (op : Op) (index : Index) : result Index :=
  match op with
  | DecideOp when cheesecake =>
      '(index', _) ← decide when cheesecake index; Ok index'
  | ComputeOp cheesecake =>
      match compute_with cheesecake index with
      | (index', Ok _) => Ok index'
      | (_, Raise e) => Raise e
      end
  end.

Fixpoint run_ops (ops : list Op) (index : Index) : result Index :=
  match ops with
  | [] => Ok index
  | op :: ops' => index' ← apply_op op index; run_ops ops' index'
  end.

(** The percentage as the specification words it: the least integer
    not below [value / max_value * 100], for [max_value > 0]. *)
Definition spec_percentage (value max_value : Z) : Z :=
  - ((- (value * 100)) / max_value).

(** Is the percentage of the code the exact ceiling or one more? *)
Definition percentage_near (v m : nat) : bool :=
  match percentage (Z.of_nat v) (Z.of_nat m) with
  | Ok p =>
      (spec_percentage (Z.of_nat v) (Z.of_nat m) <=? p)
      && (p <=? spec_percentage (Z.of_nat v) (Z.of_nat m) + 1)
  | Raise _ => false
  end.

End Tree.

(** ** The indices of Cheesecake

    The classes below [CheesecakeIndex].  What a [compute] method gets
    from the file system is the parameter [fs]; the methods that parse
    source files or run an external tool are parameters as well. *)
Module Schema.
Import Py Tree.

(** A keyword argument of [compute]. *)
Definition arg (kw : gmap string PyVal) (name : string) : PyVal :=
  default PyNone (kw !! name).

(** [str(v)], as [%s] formats it (strings inside a list are quoted
    without escapes). *)
Definition py_str (v : PyVal) : string :=
  match v with
  | PyNone => "None"
  | PyBool b => if b then "True" else "False"
  | PyInt z => fmt_d z
  | PyStr s => s
  | PyList l =>
      "[" +:+ String.concat ", " (map (fun x => "'" +:+ x +:+ "'") l) +:+ "]"
  end.

(** [prefix + v]: [TypeError] unless [v] is a string. *)
Definition concat_str (prefix : string) (v : PyVal) : result string :=
  match v with
  | PyStr s => Ok (prefix +:+ s)
  | _ => Raise TypeError
  end.

(** [cheesecake.<name>] as a truth value. *)
Definition attr_true (name : string) (cheesecake : Cheesecake)
    : result bool :=
  v ← getattr cheesecake name; Ok (truthy v).

Definition attr_false (name : string) (cheesecake : Cheesecake)
    : result bool :=
  v ← getattr cheesecake name; Ok (negb (truthy v)).

(** [cheesecake.package_type != 'egg'] *)
Definition not_egg (cheesecake : Cheesecake) : result bool :=
  v ← getattr cheesecake "package_type";
  Ok (match v with PyStr s => negb (String.eqb s "egg") | _ => true end).

Definition compute_IndexUrlDownload (kw : gmap string PyVal) (st : Attrs)
    : result Attrs :=
  if truthy (arg kw "downloaded_from_url") then
    Ok (mkAttrs 25
          ("downloaded package " +:+ py_str (arg kw "package")
           +:+ " from URL " +:+ py_str (arg kw "url")))
  else Ok (mkAttrs 0 (details st)).

Definition IndexUrlDownload : IndexClass :=
  mkClass "IndexUrlDownload" (Some 25)
    ["downloaded_from_url"; "package"; "url"]
    (Some compute_IndexUrlDownload) (Some (attr_true "url")) None.

Definition compute_IndexUnpack (kw : gmap string PyVal) (st : Attrs)
    : result Attrs :=
  if truthy (arg kw "unpacked")
  then Ok (mkAttrs 25 "package unpacked successfully")
  else Ok (mkAttrs 0 "package couldn't be unpacked").

Definition IndexUnpack : IndexClass :=
  mkClass "IndexUnpack" (Some 25) ["unpacked"]
    (Some compute_IndexUnpack) None None.

Definition compute_IndexUnpackDir (kw : gmap string PyVal) (st : Attrs)
    : result Attrs :=
  d ← concat_str "unpack directory is " (arg kw "unpack_dir");
  if truthy (arg kw "original_package_name") then
    d' ← concat_str (d +:+ " instead of the expected ")
           (arg kw "original_package_name");
    Ok (mkAttrs 0 d')
  else Ok (mkAttrs 15 (d +:+ " as expected")).

Definition IndexUnpackDir : IndexClass :=
  mkClass "IndexUnpackDir" (Some 15) ["unpack_dir"; "original_package_name"]
    (Some compute_IndexUnpackDir) None (Some not_egg).

Definition compute_IndexInstall (kw : gmap string PyVal) (st : Attrs)
    : result Attrs :=
  if truthy (arg kw "installed") then
    Ok (mkAttrs 50
          ("package installed in " +:+ py_str (arg kw "sandbox_install_dir")))
  else
    Ok (mkAttrs 0
          ("could not install package in "
           +:+ py_str (arg kw "sandbox_install_dir"))).

Definition IndexInstall : IndexClass :=
  mkClass "IndexInstall" (Some 50) ["installed"; "sandbox_install_dir"]
    (Some compute_IndexInstall) (Some (attr_false "static_only")) None.

Section External.

(** The file system under the package directory. *)
Variable fs : gmap string Rules.FsNode.

(** [command_successful("pylint --version")] *)
Variable pylint_installed : bool.

(** The [compute] methods that are not modelled. *)
Variable compute_IndexPyPIDownload : gmap string PyVal -> Attrs -> result Attrs.
Variable compute_IndexGeneratedFiles : gmap string PyVal -> Attrs -> result Attrs.
Variable compute_IndexDocstrings : gmap string PyVal -> Attrs -> result Attrs.
Variable compute_IndexFormattedDocstrings : gmap string PyVal -> Attrs -> result Attrs.
Variable compute_IndexUnitTested : gmap string PyVal -> Attrs -> result Attrs.
Variable compute_IndexPyLint : gmap string PyVal -> Attrs -> result Attrs.
Variable compute_IndexPEP8 : gmap string PyVal -> Attrs -> result Attrs.

(** [self._compute_from_rules(files_list, package_dir, rules)] on
    keyword arguments: the loop goes over the items of a list or the
    characters of a string, iterating over another value raises
    [TypeError], and [os.path.join] needs a string [package_dir] unless
    every file name is absolute. *)
Definition compute_from_rules (files_list package_dir : PyVal)
    (rules : list (Rules.Rule * Z)) : result (Z * Z) :=
  files ← iterate files_list;
  match package_dir with
  | PyStr dir =>
      let st := Rules._compute_from_rules fs files dir rules in
      Ok (Rules.files_count st, Rules.run_value st)
  | _ =>
      if forallb PyStr.startswith_sep files then
        let st := Rules._compute_from_rules fs files "" rules in
        Ok (Rules.files_count st, Rules.run_value st)
      else Raise AttributeError
  end.

(** [IndexSetupPy.files_rules] *)
Definition files_rules : list (Rules.Rule * Z) := [(Rules.RStr "setup.py", 25)].

Definition compute_IndexSetupPy (kw : gmap string PyVal) (st : Attrs)
    : result Attrs :=
  '(setup_py_found, value) ←
    compute_from_rules (arg kw "files_list") (arg kw "package_dir") files_rules;
  Ok (mkAttrs value
        (if negb (setup_py_found =? 0) then "setup.py found"
         else "setup.py not found")).

Definition IndexSetupPy : IndexClass :=
  mkClass "setup.py" (Some 25) ["files_list"; "package_dir"]
    (Some compute_IndexSetupPy) None (Some not_egg).

Definition IndexPyPIDownload : IndexClass :=
  mkClass "IndexPyPIDownload" (Some 50)
    ["package"; "found_on_cheeseshop"; "found_locally";
     "distance_from_pypi"; "download_url"]
    (Some compute_IndexPyPIDownload) (Some (attr_true "name")) None.

Definition IndexGeneratedFiles : IndexClass :=
  mkClass "IndexGeneratedFiles" (Some 0) ["files_list"]
    (Some compute_IndexGeneratedFiles) None (Some not_egg).

Definition IndexInstallability : Index :=
  Node (mkClass "INSTALLABILITY" None [] None None None) fresh
    [ Node IndexPyPIDownload fresh [];
      Node IndexUrlDownload fresh [];
      Node IndexUnpack fresh [];
      Node IndexUnpackDir fresh [];
      Node IndexSetupPy fresh [];
      Node IndexInstall fresh [];
      Node IndexGeneratedFiles fresh [] ].

(** [IndexRequiredFiles.cheese_files], in the order of the class body
    (the iteration order of the dictionary is up to the interpreter). *)
Definition cheese_files : list (Rules.Rule * Z) :=
  [ (Rules.Doc 1 "readme", 30);
    (Rules.OneOf 4 [Rules.Doc 2 "license"; Rules.Doc 3 "copying"], 30);
    (Rules.OneOf 8 [Rules.Doc 5 "announce"; Rules.Doc 6 "changelog";
                    Rules.Doc 7 "changes"], 20);
    (Rules.Doc 9 "install", 20);
    (Rules.Doc 10 "authors", 10);
    (Rules.Doc 11 "faq", 10);
    (Rules.Doc 12 "news", 10);
    (Rules.Doc 13 "thanks", 10);
    (Rules.Doc 14 "todo", 10) ].

(** [IndexRequiredFiles.cheese_dirs] *)
Definition cheese_dirs : list (Rules.Rule * Z) :=
  [ (Rules.OneOf 15 [Rules.RStr "doc"; Rules.RStr "docs"], 30);
    (Rules.OneOf 16 [Rules.RStr "test"; Rules.RStr "tests"], 30);
    (Rules.OneOf 17 [Rules.RStr "demo"; Rules.RStr "example";
                     Rules.RStr "examples"], 10) ].

Definition compute_IndexRequiredFiles (kw : gmap string PyVal) (st : Attrs)
    : result Attrs :=
  '(files_count, files_value) ←
    compute_from_rules (arg kw "files_list") (arg kw "package_dir") cheese_files;
  '(dirs_count, dirs_value) ←
    compute_from_rules (arg kw "dirs_list") (arg kw "package_dir") cheese_dirs;
  Ok (mkAttrs (files_value + dirs_value)
        (fmt_d files_count +:+ " files and " +:+ fmt_d dirs_count
         +:+ " required directories found")).

(** [max_value = sum(cheese_files.values() + cheese_dirs.values())] *)
Definition IndexRequiredFiles : IndexClass :=
  mkClass "IndexRequiredFiles"
    (Some (sum (map snd cheese_files ++ map snd cheese_dirs)))
    ["files_list"; "dirs_list"; "package_dir"]
    (Some compute_IndexRequiredFiles) None None.

Definition IndexDocstrings : IndexClass :=
  mkClass "IndexDocstrings" (Some 100) ["object_cnt"; "docstring_cnt"]
    (Some compute_IndexDocstrings) None None.

Definition IndexFormattedDocstrings : IndexClass :=
  mkClass "IndexFormattedDocstrings" (Some 30) ["object_cnt"; "docformat_cnt"]
    (Some compute_IndexFormattedDocstrings) None None.

Definition IndexDocumentation : Index :=
  Node (mkClass "DOCUMENTATION" None [] None None None) fresh
    [ Node IndexRequiredFiles fresh [];
      Node IndexDocstrings fresh [];
      Node IndexFormattedDocstrings fresh [] ].

Definition IndexUnitTested : IndexClass :=
  mkClass "IndexUnitTested" (Some 30)
    ["doctests_count"; "unittests_count"; "files_list"; "classes"; "methods"]
    (Some compute_IndexUnitTested) None None.

(** [IndexPyLint.decide_before_download] *)
Definition decide_IndexPyLint (cheesecake : Cheesecake) : result bool :=
  if negb pylint_installed then Ok false
  else attr_false "lite" cheesecake.

Definition IndexPyLint : IndexClass :=
  mkClass "pylint" (Some 50)
    ["files_list"; "package_dir"; "pylint_max_execution_time"]
    (Some compute_IndexPyLint) (Some decide_IndexPyLint) None.

Definition IndexPEP8 : IndexClass :=
  mkClass "pep8" (Some 34) ["files_list"; "package_dir"]
    (Some compute_IndexPEP8) (Some (attr_true "with_pep8")) None.

Definition IndexCodeKwalitee : Index :=
  Node (mkClass "CODE KWALITEE" None [] None None None) fresh
    [ Node IndexUnitTested fresh [];
      Node IndexPyLint fresh [];
      Node IndexPEP8 fresh [] ].

Definition CheesecakeIndex : Index :=
  Node (mkClass "Cheesecake" None [] None None None) fresh
    [ IndexInstallability; IndexDocumentation; IndexCodeKwalitee ].

End External.

End Schema.

(** ** Sample inputs *)
Module Sample.

(** A package directory with two readme files, documentation and tests. *)
Definition fs : gmap string Rules.FsNode :=
  {[ "pkg/Readme" := Rules.FsFile 9;
     "pkg/README.txt" := Rules.FsFile 120;
     "pkg/setup.py" := Rules.FsFile 300;
     "pkg/doc" := Rules.FsDir ["index.txt"];
     "pkg/docs" := Rules.FsDir ["api.txt"];
     "pkg/tests" := Rules.FsDir ["test_all.py"];
     "pkg/demo" := Rules.FsDir [] ]}.

(** [OneOf('doc', 'docs')], the first key of [cheese_dirs]. *)
Definition doc_or_docs : Rules.Rule :=
  Rules.OneOf 15 [Rules.RStr "doc"; Rules.RStr "docs"].

(** [WithOptionalExt("readme", ["html", "txt", "rst"])] *)
Definition readme : Rules.Rule :=
  Rules.WithOptionalExt 1 "readme" ["html"; "txt"; "rst"].

(** A table in which the string ["doc"] is a key of its own as well as
    a possibility of a [OneOf]. *)
Definition overlapping : list (Rules.Rule * Z) :=
  [ (doc_or_docs, 30); (Rules.RStr "doc", 5) ].

(** A [Cheesecake] in quiet mode, after a run in which the package was
    unpacked and installed; no step has set [unpack_dir]. *)
Definition cheesecake : Tree.Cheesecake :=
  Tree.mkCheesecake true false
    {[ "unpacked" := Py.PyBool true;
       "installed" := Py.PyBool true;
       "sandbox_install_dir" := Py.PyStr "/tmp/sandbox/tmp_install_pkg" ]}.

(** A [Cheesecake] on which no step has set anything. *)
Definition bare : Tree.Cheesecake := Tree.mkCheesecake true false ∅.

(** [BadIndex] of the unit tests: [max_value = 10], and [compute]
    raises. *)
Definition BadIndex : Tree.IndexClass :=
  Tree.mkClass "BadIndex" (Some 10) []
    (Some (fun _ _ => Py.Raise Py.Exception)) None None.

(** The class [Index] itself, used as a container; its [name] is
    ["unnamed"]. *)
Definition PlainIndex : Tree.IndexClass :=
  Tree.mkClass "unnamed" None [] None None None.

(** Stand-ins for the [compute] methods that are parameters of the
    schema: a tool that timed out, and an analysis that found nothing. *)
Definition timed_out (kw : gmap string Py.PyVal) (st : Tree.Attrs)
    : Py.result Tree.Attrs :=
  Py.Raise Py.OSError.

Definition nothing_found (kw : gmap string Py.PyVal) (st : Tree.Attrs)
    : Py.result Tree.Attrs :=
  Py.Ok (Tree.mkAttrs 0 "nothing found").

(** A fresh [CheesecakeIndex()], with [pylint] installed. *)
Definition index : Tree.Index :=
  Schema.CheesecakeIndex fs true nothing_found nothing_found nothing_found
    nothing_found nothing_found timed_out nothing_found.

(** The [Cheesecake] of a run on a local archive: no name, no URL. *)
Definition local_run : Tree.Cheesecake :=
  Tree.mkCheesecake true false
    {[ "name" := Py.PyStr "";
       "url" := Py.PyStr "";
       "static_only" := Py.PyBool false;
       "lite" := Py.PyBool false;
       "with_pep8" := Py.PyBool false;
       "package_type" := Py.PyStr "tar.gz";
       "package_dir" := Py.PyStr "pkg";
       "files_list" := Py.PyList ["Readme"; "README.txt"; "setup.py"];
       "dirs_list" := Py.PyList ["doc"; "docs"; "tests"; "demo"];
       "unpacked" := Py.PyBool true;
       "unpack_dir" := Py.PyStr "pkg";
       "installed" := Py.PyBool true;
       "sandbox_install_dir" := Py.PyStr "/tmp/sandbox/tmp_install_pkg" ]}.

(** The run of [Cheesecake.__init__] and [compute_cheesecake_index] on
    the main index, after the decision before the download. *)
Definition rest_of_run : list Tree.Op :=
  [ Tree.DecideOp Tree.after_download local_run;
    Tree.ComputeOp local_run ].

Definition whole_run : list Tree.Op :=
  Tree.DecideOp Tree.before_download local_run :: rest_of_run.

(** [IndexDocstrings.compute] on a package with 97 documented objects
    out of 200: [ceil(0.485 * 100)] points. *)
Definition docstrings_97_of_200 (kw : gmap string Py.PyVal) (st : Tree.Attrs)
    : Py.result Tree.Attrs :=
  Py.Ok (Tree.mkAttrs 49 "found 97/200=48.50% objects with docstrings").

(** A fresh [IndexDocumentation()] for that package. *)
Definition documentation : Tree.Index :=
  Schema.IndexDocumentation fs docstrings_97_of_200 nothing_found.

(** The [Cheesecake] of a package without files of its own to find. *)
Definition sparse_run : Tree.Cheesecake :=
  Tree.mkCheesecake true false
    {[ "package_dir" := Py.PyStr "pkg";
       "files_list" := Py.PyList ["module.py"];
       "dirs_list" := Py.PyList [];
       "object_cnt" := Py.PyInt 200;
       "docstring_cnt" := Py.PyInt 97;
       "docformat_cnt" := Py.PyInt 0 ]}.

End Sample.

(** ** The steps of a run ([Step], [StepByVariable]) *)
Module Steps.
Import Py Tree.

(** A step: the variables it provides and, for a [StepByVariable], the
    name of the variable that forces it. *)
Record Step : Type := mkStep {
  variable_name : option string;
  provides : list string
}.

(** [Step.decide(cheesecake)], with [cheesecake.index] as [index]. *)
Definition Step_decide (provides : list string) (index : Index) : bool :=
  existsb (fun provide => PyStr.str_in provide (requirements index)) provides.

(** [step.decide(cheesecake)] for either class of step. *)
Definition step_decide (step : Step) (cheesecake : Cheesecake)
    (index : Index) : bool :=
  match variable_name step with
  | Some name =>
      if truthy (getattr_default cheesecake name) then true
      else Step_decide (provides step) index
  | None => Step_decide (provides step) index
  end.

(** [Cheesecake.steps] *)
Definition steps : list (string * Step) :=
  [ ("get_pkg_from_pypi",
     mkStep (Some "name")
       ["download_url"; "distance_from_pypi"; "found_on_cheeseshop";
        "found_locally"; "sandbox_pkg_file"]);
    ("download_pkg",
     mkStep (Some "url") ["sandbox_pkg_file"; "downloaded_from_url"]);
    ("copy_pkg", mkStep (Some "package_path") ["sandbox_pkg_file"]);
    ("unpack_pkg",
     mkStep None
       ["original_package_name"; "sandbox_pkg_dir"; "unpacked"; "unpack_dir"]);
    ("walk_pkg",
     mkStep None
       ["dirs_list"; "docstring_cnt"; "docformat_cnt"; "doctests_count";
        "unittests_count"; "files_list"; "functions"; "classes"; "methods";
        "object_cnt"; "package_dir"]);
    ("install_pkg", mkStep None ["installed"]) ].

(** [Cheesecake.run_step(step_name)], as far as the decision goes:
    is the method of the step called?  [KeyError] for a name that is
    not a step. *)
Definition run_step (step_name : string) (cheesecake : Cheesecake)
    (index : Index) : result bool :=
  match List.find (fun kv => String.eqb (fst kv) step_name) steps with
  | Some (_, step) => Ok (step_decide step cheesecake index)
  | None => Raise KeyError
  end.

End Steps.

(** ** File names ([has_extension], [discover_file_type]) *)
Module Files.

(** [s.split(c)] for a one-character separator: never empty. *)
Fixpoint split_on (c : ascii) (s : string) : list string :=
  match s with
  | EmptyString => [EmptyString]
  | String a s' =>
      if Ascii.eqb a c then EmptyString :: split_on c s'
      else
        match split_on c s' with
        | head :: tail => String a head :: tail
        | [] => [String a EmptyString]
        end
  end.

(** [s.startswith(p)] *)
Definition startswith (s p : string) : bool := String.prefix p s.

(** [s.endswith(p)] *)
Definition endswith (s p : string) : bool :=
  (String.length p <=? String.length s)%nat
  && String.eqb
       (String.substring (String.length s - String.length p)
          (String.length p) s) p.

(** [has_extension(filename, ext)] *)
Definition has_extension (filename ext : string) : bool :=
  String.eqb (snd (PyStr.splitext (PyStr.lower filename))) (PyStr.lower ext).

(** The file types [discover_file_type] tells apart. *)
Inductive FileType : Type :=
| special | pyc | pyo | module | demo | test.

Definition FileType_eqb (a b : FileType) : bool :=
  match a, b with
  | special, special | pyc, pyc | pyo, pyo
  | module, module | demo, demo | test, test => true
  | _, _ => false
  end.

(** The loop over the directories of [discover_file_type]: the first
    directory that says test or demo decides. *)
Fixpoint type_of_dirs (dirs : list string) : option FileType :=
  match dirs with
  | [] => None
  | dir :: dirs' =>
      if PyStr.str_in dir ["test"; "tests"] then Some test
      else if PyStr.str_in dir ["doc"; "docs"; "demo"; "example"; "examples"]
      then Some demo
      else type_of_dirs dirs'
  end.

(** [discover_file_type(filename)]; [None] for a file of no type. *)
Definition discover_file_type (filename : string) : option FileType :=
  let parts := split_on "/" filename in
  let dirs := removelast parts in
  let filename := List.last parts EmptyString in
  if PyStr.str_in filename ["setup.py"; "ez_setup.py"; "__pkginfo__.py"]
  then Some special
  else if has_extension filename ".pyc" then Some pyc
  else if has_extension filename ".pyo" then Some pyo
  else if has_extension filename ".py" then
    match type_of_dirs dirs with
    | Some t => Some t
    | None =>
        if startswith (PyStr.lower filename) "test_"
           || endswith (PyStr.lower (fst (PyStr.splitext filename))) "_test"
        then Some test
        else Some module
    end
  else None.

(** [get_files_of_type(file_list, file_type)] *)
Definition get_files_of_type (file_list : list string) (file_type : FileType)
    : list string :=
  List.filter
    (fun x => match discover_file_type x with
              | Some t => FileType_eqb t file_type
              | None => false
              end) file_list.

End Files.

(** ** More [compute] methods *)
Module Leaves.
Import Py Tree.

(** [IndexGeneratedFiles.compute(files_list)] *)
Definition compute_IndexGeneratedFiles (kw : gmap string PyVal) (st : Attrs)
    : result Attrs :=
  files ← iterate (Schema.arg kw "files_list");
  let pyc_files := Z.of_nat (length (Files.get_files_of_type files Files.pyc)) in
  let pyo_files := Z.of_nat (length (Files.get_files_of_type files Files.pyo)) in
  let value := if (0 <? pyc_files) || (0 <? pyo_files) then 0 + -20 else 0 in
  Ok (mkAttrs value
        (fmt_d pyc_files +:+ " .pyc and " +:+ fmt_d pyo_files
         +:+ " .pyo files found")).

(** [v > 0] and [v > 1] as Python 2 orders values: [None] is below
    every number, a string or a list above. *)
Definition greater_than (v : PyVal) (n : Z) : bool :=
  match v with
  | PyNone => false
  | PyBool b => n <? (if b then 1 else 0)
  | PyInt z => n <? z
  | PyStr _ | PyList _ => true
  end.

(** The value of [v] in arithmetic; [TypeError] for what is no
    number. *)
Definition as_number (v : PyVal) : result Z :=
  match v with
  | PyBool b => Ok (if b then 1 else 0)
  | PyInt z => Ok z
  | _ => Raise TypeError
  end.

(** [IndexPyPIDownload.compute(package, found_on_cheeseshop,
    found_locally, distance_from_pypi, download_url)] *)
Definition compute_IndexPyPIDownload (kw : gmap string PyVal) (st : Attrs)
    : result Attrs :=
  let distance_from_pypi := Schema.arg kw "distance_from_pypi" in
  if truthy (Schema.arg kw "download_url") then
    d ← Schema.concat_str "downloaded package " (Schema.arg kw "package");
    if negb (truthy (Schema.arg kw "found_on_cheeseshop")) then
      if greater_than distance_from_pypi 0 then
        n ← as_number distance_from_pypi;
        let value := 50 + (n - 1) * -5 in
        let d := d +:+ " following " +:+ fmt_d n +:+ " link" in
        if greater_than distance_from_pypi 1 then
          Ok (mkAttrs value (d +:+ "s" +:+ " from PyPI"))
        else
          d' ← Schema.concat_str (d +:+ " from ") (Schema.arg kw "download_url");
          Ok (mkAttrs value d')
      else Ok (mkAttrs 50 d)
    else Ok (mkAttrs 50 (d +:+ " directly from the Cheese Shop"))
  else
    Ok (mkAttrs 0
          (if truthy (Schema.arg kw "found_locally")
           then "found on local filesystem" else details st)).

(** [IndexUnitTested._is_test_method(method)] *)
Definition _is_test_method (method : string) : bool :=
  existsb (Files.endswith method)
    [ "setup"; "setup_package"; "setup_module"; "setUp";
      "setUpPackage"; "setUpModule";
      "teardown"; "teardown_package"; "teardown_module";
      "tearDown"; "tearDownModule"; "tearDownPackage" ].

(** [IndexUnitTested.compute(doctests_count, unittests_count,
    files_list, classes, methods)]; the lines of [add_info] are not
    modelled. *)
Definition compute_IndexUnitTested (kw : gmap string PyVal) (st : Attrs)
    : result Attrs :=
  let unit_tested := false in
  let unit_tested :=
    if greater_than (Schema.arg kw "doctests_count") 0 then true
    else unit_tested in
  let unit_tested :=
    if greater_than (Schema.arg kw "unittests_count") 0 then true
    else unit_tested in
  files ← iterate (Schema.arg kw "files_list");
  let unit_tested :=
    match Files.get_files_of_type files Files.test with
    | [] => unit_tested
    | _ => true
    end in
  methods ← iterate (Schema.arg kw "methods");
  let unit_tested :=
    if existsb _is_test_method methods then true else unit_tested in
  if unit_tested then Ok (mkAttrs 30 "has unit tests")
  else Ok (mkAttrs 0 "doesn't have unit tests").

(** A class keeps to its maximum: one that overrides [compute] declares
    a [max_value] that no value it computes exceeds; one that inherits
    [compute] inherits [max_value] too. *)
Definition bounded_class (cls : IndexClass) : Prop :=
  match cls_compute cls, cls_max_value cls with
  | Some compute, Some m =>
      forall kw st st', compute kw st = Ok st' -> value st' <= m
  | None, None => True
  | _, _ => False
  end.

End Leaves.

(** ** Helper functions of the module *)
Module Helpers.
Import Py.

(** [length(L)]: overall length of all strings in the list. *)
Definition length (L : list string) : Z := sum (map len L).

(** The [while] loop of [generate_arguments]: [L] is the chunk under
    construction and [rest] is [arguments[i:]].  The result is the list
    of the chunks yielded and the exception that ended the generator,
    if one did. *)
Fixpoint generate_arguments_from (max_length : Z) (L rest : list string)
    : list (list string) * option PyExc :=
  match rest with
  | [] => ([], None)
  | argument :: rest' =>
      if match L with [] => true | _ => false end
         && (max_length <? len argument)
      then ([], Some ValueError)
      else
        let L := L ++ [argument] in
        match rest' with
        | [] => ([L], None)
        | next :: _ =>
            if max_length <? length L + len next
            then
              let '(chunks, e) := generate_arguments_from max_length [] rest' in
              (L :: chunks, e)
            else generate_arguments_from max_length L rest'
        end
  end.

(** [generate_arguments(arguments, max_length)] *)
Definition generate_arguments (arguments : list string) (max_length : Z)
    : list (list string) * option PyExc :=
  generate_arguments_from max_length [] arguments.

(** [s.rfind(sub)]: the highest index at which [sub] starts in [s], or
    [-1]; the search goes down from [i]. *)
Fixpoint rfind_down (sub s : string) (i : nat) : Z :=
  if String.eqb (String.substring i (String.length sub) s) sub
  then Z.of_nat i
  else
    match i with
    | O => -1
    | S i' => rfind_down sub s i'
    end.

Definition rfind (s sub : string) : Z :=
  if (String.length sub <=? String.length s)%nat
  then rfind_down sub s (String.length s - String.length sub)
  else -1.

(** [get_package_name_and_type(package, known_extensions)]: [None] when
    the loop ends without a [return].  The slice [package[:k]] is taken
    at the index of a found occurrence, which is not negative. *)
Fixpoint get_package_name_and_type (package : string)
    (known_extensions : list string) : option (string * string) :=
  match known_extensions with
  | [] => None
  | package_type :: rest =>
      if Files.endswith package ("." +:+ package_type)
      then Some (PyStr.slice_to package (rfind package ("." +:+ package_type)),
                 package_type)
      else get_package_name_and_type package rest
  end.

(** [s.replace(old, '', 1)]: the first occurrence of [old] is taken
    out. *)
Fixpoint remove_first (old s : string) : string :=
  if String.prefix old s
  then String.substring (String.length old)
         (String.length s - String.length old) s
  else
    match s with
    | EmptyString => EmptyString
    | String c s' => String c (remove_first old s')
    end.

(** [strip_dir_part(path, root)] *)
Definition strip_dir_part (path root : string) : string :=
  let path := remove_first root path in
  if Files.startswith path "/" then PyStr.slice_from path 1 else path.

(** [pad_with_dots(msg, length)]: one dot for each [i] of
    [range(msg_length+1, length)]. *)
Definition pad_with_dots (msg : string) (length : Z) : string :=
  let msg_length := len msg in
  if length <=? msg_length then msg
  else msg +:+ " " +:+ repeat_char "." (length - (msg_length + 1)).

(** [pad_right_spaces(value, length)] for a string [value]. *)
Definition pad_right_spaces (value : string) (length : Z) : string :=
  let diff := length - len value in
  value +:+ repeat_char " " diff.

(** [re.sub(r'([A-Z]+)', repl, name)]: every maximal run of capital
    letters is replaced by [repl] of the run; [run] holds the capitals
    read since the last other character. *)
Fixpoint sub_capital_runs (repl : string -> string) (name run : string)
    : string :=
  let flush :=
    match run with
    | EmptyString => EmptyString
    | _ => repl run
    end in
  match name with
  | EmptyString => flush
  | String c rest =>
      if PyStr.is_upper c
      then sub_capital_runs repl rest (run +:+ String c EmptyString)
      else flush +:+ String c (sub_capital_runs repl rest EmptyString)
  end.

(** [re.sub(r'([A-Z])', repl, name)] *)
Fixpoint sub_capitals (repl : ascii -> string) (name : string) : string :=
  match name with
  | EmptyString => EmptyString
  | String c rest =>
      if PyStr.is_upper c then repl c +:+ sub_capitals repl rest
      else String c (sub_capitals repl rest)
  end.

(** [s[:-1] + s[-1].upper()] *)
Fixpoint upper_last (s : string) : string :=
  match s with
  | EmptyString => EmptyString
  | String c EmptyString => String (PyStr.upper_char c) EmptyString
  | String c rest => String c (upper_last rest)
  end.

(** [camel2underscore(name)]; the test [name[0].upper] of the source is
    a bound method and so always true. *)
Definition camel2underscore (name : string) : string :=
  let name :=
    match name with
    | EmptyString => name
    | String c rest => String (PyStr.lower_char c) rest
    end in
  let capitalize (run : string) :=
    upper_last (PyStr.capitalize (PyStr.lower run)) in
  let underscore (c : ascii) :=
    String "_" (String (PyStr.lower_char c) EmptyString) in
  sub_capitals underscore (sub_capital_runs capitalize name EmptyString).

(** [index_class_to_name(clsname)] *)
Definition index_class_to_name (clsname : string) : string :=
  camel2underscore (remove_first "Index" clsname).

(** No capital letter of ASCII is in [s]. *)
Fixpoint no_capital (s : string) : bool :=
  match s with
  | EmptyString => true
  | String c rest => negb (PyStr.is_upper c) && no_capital rest
  end.

End Helpers.

(** ** The subindices of an index and their dictionary

    [Index] keeps its subindices twice: in the list [self.subindices]
    and in the dictionary [self._indices_dict], from names to index
    objects.  [add_subindex] and [remove_subindex] change both;
    [_iter_indices] takes a subindex that raised out of the list only.
    Index objects define no [__eq__], so [list.remove] compares them by
    identity: an object is modelled with its identity. *)
Module Registry.
Import Py Tree.

(** An index object: its identity and the index. *)
Definition Obj : Type := nat * Index.

Definition obj_name (index : Obj) : string := index_name (snd index).

(** [a is b] *)
Definition same (a b : Obj) : bool := Nat.eqb (fst a) (fst b).

Record Container : Type := mkContainer {
  subindices : list Obj;
  _indices_dict : gmap string Obj
}.

(** [L.remove(index)]: the first element that is [index] is taken out;
    [None] stands for the [ValueError] raised when there is none. *)
Fixpoint list_remove (index : Obj) (L : list Obj) : option (list Obj) :=
  match L with
  | [] => None
  | x :: rest =>
      if same x index then Some rest
      else option_map (cons x) (list_remove index rest)
  end.

(** [Index.add_subindex(index)] for an [Index] instance. *)
Definition add_subindex (index : Obj) (self : Container) : Container :=
  mkContainer (subindices self ++ [index])
    (<[obj_name index := index]> (_indices_dict self)).

(** [Index.__init__] with the subindices given: they are added one by
    one to an empty list and an empty dictionary.  (Without arguments
    the subindices come from the class and [make_indices_dict] enters
    them in the same order.) *)
Definition init (indices : list Obj) : Container :=
  fold_left (fun self index => add_subindex index self) indices
    (mkContainer [] ∅).

(** [Index.remove_subindex(index_name)]: [KeyError] from the lookup in
    the dictionary, [ValueError] from [list.remove]; neither is changed
    when an exception is raised. *)
Definition remove_subindex (index_name : string) (self : Container)
    : result Container :=
  match _indices_dict self !! index_name with
  | None => Raise KeyError
  | Some index =>
      match list_remove index (subindices self) with
      | None => Raise ValueError
      | Some subindices' =>
          Ok (mkContainer subindices' (delete index_name (_indices_dict self)))
      end
  end.

(** The handler of [_iter_indices] for a subindex that raised:
    [self.subindices.remove(index)]. *)
Definition drop (index : Obj) (self : Container) : result Container :=
  match list_remove index (subindices self) with
  | None => Raise ValueError
  | Some subindices' => Ok (mkContainer subindices' (_indices_dict self))
  end.

(** [Index.__getitem__(name)] *)
Definition getitem (name : string) (self : Container) : result Obj :=
  match _indices_dict self !! name with
  | None => Raise KeyError
  | Some index => Ok index
  end.

End Registry.

(** ** Rules in another letter case *)
Module RulesAux.
Import Rules.

(** The rule [rule] with every string of it rewritten by [f]; a
    [OneOf] stays the same object. *)
Fixpoint recase (f : string -> string) (rule : Rule) : Rule :=
  match rule with
  | RStr s => RStr (f s)
  | ROneOf oid possibilities => ROneOf oid (map (recase f) possibilities)
  end.

(** Neither [rule] nor a possibility inside it is in [used]. *)
Fixpoint untouched (used : list Rule) (rule : Rule) : bool :=
  negb (rule_in rule used)
  && match rule with
     | RStr _ => true
     | ROneOf _ possibilities => forallb (untouched used) possibilities
     end.

End RulesAux.

(** * Python string helpers on concrete names *)
Module PyStrFacts.

Example splitext_txt : PyStr.splitext "README.txt" = ("README", ".txt").
Proof. reflexivity. Qed.

Example splitext_none : PyStr.splitext "Readme" = ("Readme", "").
Proof. reflexivity. Qed.

Example splitext_two : PyStr.splitext "foo.bar.py" = ("foo.bar", ".py").
Proof. reflexivity. Qed.

Example splitext_hidden : PyStr.splitext "dir.d/.bashrc" = ("dir.d/.bashrc", "").
Proof. reflexivity. Qed.

Example capitalize_readme : PyStr.capitalize "readME" = "Readme".
Proof. reflexivity. Qed.

Example join_plain : PyStr.join "/tmp/pkg" "README" = "/tmp/pkg/README".
Proof. reflexivity. Qed.

Example basename_nested : PyStr.basename "docs/api/index.html" = "index.html".
Proof. reflexivity. Qed.

End PyStrFacts.

(** * Properties of [sum] *)
Module PyFacts.

Lemma fold_add_acc (l : list Z) (a : Z) :
  fold_left Z.add l a = a + fold_left Z.add l 0.
Proof.
  revert a. induction l as [| x l IH]; intros a; cbn [fold_left]; [lia |].
  rewrite (IH (a + x)), (IH (0 + x)). lia.
Qed.

Lemma sum_nil : Py.sum [] = 0.
Proof. reflexivity. Qed.

Lemma sum_cons (x : Z) (l : list Z) : Py.sum (x :: l) = x + Py.sum l.
Proof. unfold Py.sum. cbn [fold_left]. rewrite fold_add_acc. lia. Qed.

Lemma sum_map_add {A : Type} (f g : A -> Z) (l : list A) :
  Py.sum (map (fun x => f x + g x) l) = Py.sum (map f l) + Py.sum (map g l).
Proof.
  induction l as [| x l IH]; [reflexivity |].
  cbn [map]. rewrite !sum_cons, IH. lia.
Qed.

Lemma sum_map_zero {A : Type} (f : A -> Z) (l : list A) :
  (forall x, In x l -> f x = 0) -> Py.sum (map f l) = 0.
Proof.
  induction l as [| x l IH]; intros H; [reflexivity |].
  cbn [map]. rewrite sum_cons, IH, (H x); [lia | left; reflexivity |].
  intros y Hy. apply H. right. exact Hy.
Qed.

End PyFacts.

(** * Properties of the rule matcher *)
Module RulesFacts.
Import Rules.

(** Induction on rules, with the hypothesis for every possibility of a
    [OneOf]. *)
Lemma Rule_nested_ind (P : Rule -> Prop) :
  (forall s, P (RStr s)) ->
  (forall oid ps, Forall P ps -> P (ROneOf oid ps)) ->
  forall r, P r.
Proof.
  intros Hstr Hone.
  fix IH 1.
  intros [s | oid ps].
  - apply Hstr.
  - apply Hone.
    induction ps as [| p ps IHps]; constructor.
    + apply IH.
    + exact IHps.
Qed.

(** The equation of [match_filename], with the loop named. *)
Lemma match_filename_eq name rule used :
  match_filename name rule used =
  if rule_in rule used then (false, used)
  else
    match rule with
    | RStr s => if equal name s then (true, used ++ [rule]) else (false, used)
    | ROneOf _ ps => try_each name rule ps used
    end.
Proof.
  destruct rule as [s | oid ps]; [reflexivity |].
  cbn [match_filename].
  destruct (rule_in (ROneOf oid ps) used); [reflexivity |].
  generalize (ROneOf oid ps) as R.
  intros R. revert used.
  induction ps as [| p ps IHps]; intros used; [reflexivity |].
  cbn [try_each].
  destruct (match_filename name p used) as [[|] used']; [reflexivity |].
  apply IHps.
Qed.

Lemma rule_eqb_refl r : rule_eqb r r = true.
Proof.
  destruct r; simpl; [apply String.eqb_refl | apply Nat.eqb_refl].
Qed.

Lemma rule_eqb_sym a b : rule_eqb a b = rule_eqb b a.
Proof.
  destruct a, b; simpl; try reflexivity;
    [apply String.eqb_sym | apply Nat.eqb_sym].
Qed.

Lemma rule_eqb_trans a b c :
  rule_eqb a b = true -> rule_eqb b c = true -> rule_eqb a c = true.
Proof.
  destruct a, b, c; simpl; try discriminate.
  - rewrite !String.eqb_eq. congruence.
  - rewrite !Nat.eqb_eq. congruence.
Qed.

Lemma rule_in_app r u1 u2 :
  rule_in r (u1 ++ u2) = rule_in r u1 || rule_in r u2.
Proof. unfold rule_in. apply existsb_app. Qed.

Lemma rule_in_last r u : rule_in r (u ++ [r]) = true.
Proof.
  rewrite rule_in_app. simpl. rewrite rule_eqb_refl.
  rewrite orb_true_r. reflexivity.
Qed.

(** Membership in [_used_rules] does not tell equal rules apart. *)
Lemma rule_in_eqb a b u :
  rule_eqb a b = true -> rule_in a u = rule_in b u.
Proof.
  intros Hab. unfold rule_in.
  induction u as [| x u IHu]; [reflexivity |].
  simpl. rewrite IHu. f_equal.
  destruct (rule_eqb x a) eqn:Hxa, (rule_eqb x b) eqn:Hxb; try reflexivity.
  - rewrite (rule_eqb_trans _ _ _ Hxa Hab) in Hxb. discriminate.
  - rewrite rule_eqb_sym in Hab.
    rewrite (rule_eqb_trans _ _ _ Hxb Hab) in Hxa. discriminate.
Qed.

(** What one call of [match_filename] does to [_used_rules]: nothing
    when it returns [False]; when it returns [True] the list is
    extended, the rule was not in it before and is in it now. *)
Lemma match_filename_spec name rule :
  forall used b used',
    match_filename name rule used = (b, used') ->
    (b = false -> used' = used) /\
    (b = true ->
       rule_in rule used = false /\
       rule_in rule used' = true /\
       exists ext, used' = used ++ ext).
Proof.
  induction rule as [s | oid ps IHps] using Rule_nested_ind;
    intros used b used'; rewrite match_filename_eq.
  - destruct (rule_in (RStr s) used) eqn:Hin.
    + intros [= <- <-]. split; [reflexivity | discriminate].
    + destruct (equal name s); intros [= <- <-].
      * split; [discriminate |]. intros _.
        split; [reflexivity |]. split; [apply rule_in_last | eauto].
      * split; [reflexivity | discriminate].
  - destruct (rule_in (ROneOf oid ps) used) eqn:Hin.
    + intros [= <- <-]. split; [reflexivity | discriminate].
    + assert (Hloop : forall R u b1 u1,
                try_each name R ps u = (b1, u1) ->
                (b1 = false -> u1 = u) /\
                (b1 = true -> rule_in R u1 = true /\ exists ext, u1 = u ++ ext)).
      { clear Hin used b used'. intros R.
        induction IHps as [| p ps Hp _ IHloop]; intros u b1 u1; cbn [try_each].
        - intros [= <- <-]. split; [reflexivity | discriminate].
        - destruct (match_filename name p u) as [bp up] eqn:Hm.
          destruct (Hp _ _ _ Hm) as [Hf Ht].
          destruct bp.
          + intros [= <- <-]. split; [discriminate |]. intros _.
            split; [apply rule_in_last |].
            destruct (Ht eq_refl) as (_ & _ & ext & ->).
            exists (ext ++ [R]). rewrite app_assoc. reflexivity.
          + rewrite (Hf eq_refl). apply IHloop. }
      intros Hrun. destruct (Hloop _ _ _ _ Hrun) as [Hf Ht].
      split; [exact Hf |]. intros ->.
      destruct (Ht eq_refl) as [H1 H2].
      split; [reflexivity |]. split; assumption.
Qed.

Lemma rule_in_mono r u ext :
  rule_in r u = true -> rule_in r (u ++ ext) = true.
Proof. intros H. rewrite rule_in_app, H. reflexivity. Qed.

(** The equation of [winning_leaf], with the loop named. *)
Lemma winning_leaf_eq name rule used :
  winning_leaf name rule used =
  if rule_in rule used then None
  else
    match rule with
    | RStr s => if equal name s then Some s else None
    | ROneOf _ ps => first_leaf name ps used
    end.
Proof.
  destruct rule as [s | oid ps]; [reflexivity |].
  cbn [winning_leaf].
  destruct (rule_in (ROneOf oid ps) used); [reflexivity |].
  revert used.
  induction ps as [| p ps IHps]; intros used; [reflexivity |].
  cbn [first_leaf].
  destruct (fst (match_filename name p used)); [reflexivity |].
  apply IHps.
Qed.

(** A rule that matches does so through a string, and that string is
    in [_used_rules] afterwards. *)
Lemma winning_leaf_used name rule :
  forall used used',
    match_filename name rule used = (true, used') ->
    exists p, winning_leaf name rule used = Some p
              /\ rule_in (RStr p) used' = true.
Proof.
  induction rule as [s | oid ps IHps] using Rule_nested_ind;
    intros used used'; rewrite match_filename_eq, winning_leaf_eq.
  - destruct (rule_in (RStr s) used); [discriminate |].
    destruct (equal name s); [| discriminate].
    intros [= <-]. exists s. split; [reflexivity | apply rule_in_last].
  - destruct (rule_in (ROneOf oid ps) used); [discriminate |].
    generalize (ROneOf oid ps) as R. intros R. revert used.
    induction IHps as [| p ps Hp _ IHloop]; intros used;
      cbn [try_each first_leaf]; [discriminate |].
    destruct (match_filename name p used) as [bp up] eqn:Hm.
    cbn [fst snd]. destruct bp.
    + intros [= <-]. destruct (Hp _ _ Hm) as (q & Hq & Hin).
      exists q. split; [exact Hq | apply rule_in_mono, Hin].
    + apply IHloop.
Qed.

(** [get_score] against [find_entry]: the score is the weight of the
    entry found, which matched on the list as it was before the call,
    was not in it and is in it afterwards; without an entry the score
    is 0 and the list is the same. *)
Lemma get_score_spec name specs :
  forall used,
    match find_entry name specs used with
    | Some (entry, v) =>
        fst (get_score name specs used) = v /\
        In (entry, v) specs /\
        match_filename name entry used
          = (true, snd (get_score name specs used)) /\
        rule_in entry used = false /\
        rule_in entry (snd (get_score name specs used)) = true
    | None =>
        get_score name specs used = (0, used)
    end.
Proof.
  induction specs as [| [entry value] specs IH]; intros used;
    cbn [find_entry get_score]; [reflexivity |].
  destruct (match_filename name entry used) as [b u] eqn:Hm.
  destruct (match_filename_spec _ _ _ _ _ Hm) as [Hf Ht].
  destruct b.
  - destruct (Ht eq_refl) as (Hnot & Hin & _). cbn [fst snd].
    split; [reflexivity |]. split; [left; reflexivity |].
    split; [exact Hm |]. split; assumption.
  - rewrite (Hf eq_refl). specialize (IH used).
    destruct (find_entry name specs used) as [[e v] |]; [| exact IH].
    destruct IH as (H1 & H2 & H3 & H4 & H5).
    split; [exact H1 |]. split; [right; exact H2 |].
    split; [exact H3 |]. split; assumption.
Qed.

Lemma get_score_extends name specs used :
  exists ext, snd (get_score name specs used) = used ++ ext.
Proof.
  pose proof (get_score_spec name specs used) as H.
  destruct (find_entry name specs used) as [[e v] |].
  - destruct H as (_ & _ & Hm & _).
    destruct (match_filename_spec _ _ _ _ _ Hm) as [_ Ht].
    destruct (Ht eq_refl) as (_ & _ & Hext). exact Hext.
  - rewrite H. exists []. cbn [snd]. rewrite app_nil_r. reflexivity.
Qed.

(** [run_step] leaves [_used_rules] as [get_score] left it. *)
Lemma run_step_used fs pkg rules st f :
  run_used (run_step fs pkg rules st f) =
  if negb (is_empty fs (PyStr.join pkg f))
  then snd (get_score (PyStr.basename f) rules (run_used st))
  else run_used st.
Proof.
  unfold run_step.
  destruct (negb (is_empty fs (PyStr.join pkg f))); [| reflexivity].
  destruct (get_score (PyStr.basename f) rules (run_used st)) as [score u].
  destruct (negb (score =? 0)); reflexivity.
Qed.

Lemma run_step_extends fs pkg rules st f :
  exists ext, run_used (run_step fs pkg rules st f) = run_used st ++ ext.
Proof.
  rewrite run_step_used.
  destruct (negb (is_empty fs (PyStr.join pkg f))).
  - apply get_score_extends.
  - exists []. rewrite app_nil_r. reflexivity.
Qed.

Lemma run_step_value fs pkg rules st f :
  run_value (run_step fs pkg rules st f) =
  run_value st
  + hit_weight
      (mkAttr f (run_used st)
         (if negb (is_empty fs (PyStr.join pkg f))
          then find_entry (PyStr.basename f) rules (run_used st)
          else None)).
Proof.
  unfold run_step, hit_weight. cbn [hit].
  destruct (negb (is_empty fs (PyStr.join pkg f))); [| cbn; lia].
  pose proof (get_score_spec (PyStr.basename f) rules (run_used st)) as H.
  destruct (get_score (PyStr.basename f) rules (run_used st)) as [score u].
  destruct (find_entry (PyStr.basename f) rules (run_used st)) as [[e v] |].
  - destruct H as (Hv & _). cbn [fst] in Hv. subst v.
    destruct (Z.eqb_spec score 0) as [-> |]; cbn; lia.
  - injection H as -> ->. cbn. lia.
Qed.

(** The score of a run is the sum of the weights of its attributions. *)
Lemma run_value_trace fs pkg rules files :
  forall st,
    run_value (fold_left (run_step fs pkg rules) files st) =
    run_value st
    + Py.sum (map hit_weight (attributions fs pkg rules files st)).
Proof.
  induction files as [| f files IH]; intros st;
    cbn [fold_left attributions map]; [rewrite PyFacts.sum_nil; lia |].
  rewrite IH, run_step_value, PyFacts.sum_cons. lia.
Qed.

(** Later candidates see a longer [_used_rules]. *)
Lemma used_before_extends fs pkg rules files :
  forall st a,
    In a (attributions fs pkg rules files st) ->
    exists ext, used_before a = run_used st ++ ext.
Proof.
  induction files as [| f files IH]; intros st a; cbn [attributions];
    [intros [] |].
  intros [<- | Hin].
  - exists []. cbn [used_before]. rewrite app_nil_r. reflexivity.
  - destruct (IH _ _ Hin) as [ext Hext].
    destruct (run_step_extends fs pkg rules st f) as [ext0 Hext0].
    exists (ext0 ++ ext). rewrite Hext, Hext0, app_assoc. reflexivity.
Qed.

(** An attribution is to an entry of the table, which had not been
    used and has matched on [_used_rules] as the candidate found it. *)
Lemma hit_spec fs pkg rules files :
  forall st a entry v,
    In a (attributions fs pkg rules files st) ->
    hit a = Some (entry, v) ->
    In (entry, v) rules /\ rule_in entry (used_before a) = false
    /\ fst (match_filename (PyStr.basename (cand a)) entry (used_before a))
       = true.
Proof.
  induction files as [| f files IH]; intros st a entry v; cbn [attributions];
    [intros [] |].
  intros [<- | Hin]; [| apply (IH _ _ _ _ Hin)].
  cbn [hit used_before cand].
  destruct (negb (is_empty fs (PyStr.join pkg f))); [| discriminate].
  intros Hfind.
  pose proof (get_score_spec (PyStr.basename f) rules (run_used st)) as H.
  rewrite Hfind in H. destruct H as (_ & H2 & H3 & H4 & _).
  rewrite H3. auto.
Qed.

(** Once a rule is in [_used_rules] no candidate is attributed to it. *)
Lemma used_never_attributed fs pkg rules files R :
  forall st a,
    rule_in R (run_used st) = true ->
    In a (attributions fs pkg rules files st) ->
    attributed_to R a = false.
Proof.
  intros st a Hused Hin.
  unfold attributed_to.
  destruct (hit a) as [[entry v] |] eqn:Hhit; [| reflexivity].
  destruct (rule_eqb entry R) eqn:Heq; [| reflexivity].
  destruct (hit_spec _ _ _ _ _ _ _ _ Hin Hhit) as (_ & Hnot & _).
  destruct (used_before_extends _ _ _ _ _ _ Hin) as [ext Hext].
  rewrite (rule_in_eqb _ _ _ Heq), Hext, (rule_in_mono _ _ _ Hused) in Hnot.
  discriminate.
Qed.

(** The rule a candidate is attributed to is in [_used_rules] from the
    next candidate on, together with the string it matched through. *)
Lemma attributed_then_used fs pkg rules st f :
  forall entry v,
    (if negb (is_empty fs (PyStr.join pkg f))
     then find_entry (PyStr.basename f) rules (run_used st)
     else None) = Some (entry, v) ->
    let used' := run_used (run_step fs pkg rules st f) in
    rule_in entry used' = true /\
    exists p,
      winning_leaf (PyStr.basename f) entry (run_used st) = Some p
      /\ rule_in (RStr p) used' = true.
Proof.
  intros entry v Hhit used'. subst used'. rewrite run_step_used.
  destruct (negb (is_empty fs (PyStr.join pkg f))); [| discriminate].
  pose proof (get_score_spec (PyStr.basename f) rules (run_used st)) as H.
  rewrite Hhit in H. destruct H as (_ & _ & Hm & _ & Hin).
  split; [exact Hin |]. apply (winning_leaf_used _ _ _ _ Hm).
Qed.

Lemma not_attributed_zero R tr :
  (forall a, In a tr -> attributed_to R a = false) ->
  times_matched R tr = 0%nat /\ contribution R tr = 0.
Proof.
  unfold times_matched.
  induction tr as [| a tr IH]; intros H; [split; reflexivity |].
  assert (Ha : attributed_to R a = false) by (apply H; left; reflexivity).
  destruct IH as [IH1 IH2]; [intros b Hb; apply H; right; exact Hb |].
  cbn [List.filter contribution]. rewrite Ha, IH2. split; [exact IH1 |].
  unfold attributed_to in Ha.
  destruct (hit a) as [[entry v] |]; [rewrite Ha |]; reflexivity.
Qed.

(** In a dictionary an equal key is the same entry. *)
Lemma keys_distinct_weight specs :
  keys_distinct specs = true ->
  forall e1 v1 e2 v2,
    In (e1, v1) specs -> In (e2, v2) specs ->
    rule_eqb e1 e2 = true -> v1 = v2.
Proof.
  induction specs as [| [e v] specs IH]; intros Hd e1 v1 e2 v2; [intros [] |].
  cbn [keys_distinct] in Hd. apply andb_true_iff in Hd as [Hfresh Hd].
  apply negb_true_iff in Hfresh.
  assert (Hno : forall e' v', In (e', v') specs -> rule_eqb e' e = false).
  { intros e' v' Hin.
    destruct (rule_eqb e' e) eqn:Heq; [exfalso | reflexivity].
    apply not_true_iff_false in Hfresh. apply Hfresh, existsb_exists.
    exists (e', v'). split; [exact Hin | exact Heq]. }
  intros [[= -> ->] | H1] [[= -> ->] | H2] Heq.
  - reflexivity.
  - rewrite rule_eqb_sym, (Hno _ _ H2) in Heq. discriminate.
  - rewrite (Hno _ _ H1) in Heq. discriminate.
  - apply (IH Hd _ _ _ _ H1 H2 Heq).
Qed.

(** The weight of an attribution, split over the entries of the table:
    only its own entry gets it. *)
Lemma hit_weight_split specs entry v :
  keys_distinct specs = true ->
  In (entry, v) specs ->
  Py.sum (map (fun kv : Rule * Z =>
                 if rule_eqb entry (fst kv) then v else 0) specs) = v.
Proof.
  induction specs as [| [e w] specs IH]; intros Hd; [intros [] |].
  cbn [keys_distinct] in Hd. apply andb_true_iff in Hd as [Hfresh Hd].
  apply negb_true_iff in Hfresh.
  cbn [map fst]. rewrite PyFacts.sum_cons.
  intros [[= -> ->] | Hin].
  - rewrite rule_eqb_refl, PyFacts.sum_map_zero; [lia |].
    intros [e' w'] Hin'. cbn [fst].
    destruct (rule_eqb entry e') eqn:Heq; [exfalso | reflexivity].
    apply not_true_iff_false in Hfresh. apply Hfresh, existsb_exists.
    exists (e', w'). split; [exact Hin' |].
    cbn [fst]. rewrite rule_eqb_sym. exact Heq.
  - rewrite (IH Hd Hin).
    destruct (rule_eqb entry e) eqn:Heq; [exfalso | lia].
    apply not_true_iff_false in Hfresh. apply Hfresh, existsb_exists.
    exists (entry, v). split; [exact Hin | exact Heq].
Qed.

(** Two positions of a trace: the earlier one is the head of a run from
    some state, the later one lies in the trace of the rest. *)
Lemma trace_split fs pkg rules files :
  forall st (i j : nat) a b,
    (i < j)%nat ->
    attributions fs pkg rules files st !! i = Some a ->
    attributions fs pkg rules files st !! j = Some b ->
    exists st_i f files',
      a = mkAttr f (run_used st_i)
            (if negb (is_empty fs (PyStr.join pkg f))
             then find_entry (PyStr.basename f) rules (run_used st_i)
             else None)
      /\ In b (attributions fs pkg rules files'
                 (run_step fs pkg rules st_i f)).
Proof.
  induction files as [| f files IH]; intros st i j a b Hlt;
    cbn [attributions]; [intros [=] |].
  destruct j as [| j]; [lia |].
  destruct i as [| i]; cbn [lookup list_lookup].
  - intros [= <-] Hb. exists st, f, files. split; [reflexivity |].
    apply list_elem_of_In, (list_elem_of_lookup_2 _ j), Hb.
  - intros Ha Hb.
    apply (IH (run_step fs pkg rules st f) i j a b); [lia | exact Ha | exact Hb].
Qed.

Lemma contribution_cons R a tr :
  contribution R (a :: tr) =
  (if attributed_to R a then hit_weight a else 0) + contribution R tr.
Proof.
  cbn [contribution]. unfold attributed_to, hit_weight.
  destruct (hit a) as [[entry v] |]; reflexivity.
Qed.

Lemma times_matched_cons R a tr :
  times_matched R (a :: tr) =
  ((if attributed_to R a then 1 else 0) + times_matched R tr)%nat.
Proof.
  unfold times_matched. cbn [List.filter].
  destruct (attributed_to R a); reflexivity.
Qed.

(** From any state on, a rule of the table is matched at most once and
    adds its weight when it is. *)
Lemma once_from_any_state fs pkg rules R w files :
  keys_distinct rules = true ->
  In (R, w) rules ->
  forall st,
    let tr := attributions fs pkg rules files st in
    (times_matched R tr <= 1)%nat /\
    contribution R tr = (if Nat.eqb (times_matched R tr) 1 then w else 0).
Proof.
  intros Hd HR.
  induction files as [| f files IH]; intros st tr; subst tr;
    [split; [cbn; lia | reflexivity] |].
  cbn [attributions].
  rewrite contribution_cons, times_matched_cons.
  set (a := mkAttr f (run_used st) _).
  destruct (attributed_to R a) eqn:Hatt.
  - unfold attributed_to in Hatt.
    destruct (hit a) as [[entry v] |] eqn:Hhit; [| discriminate].
    destruct (attributed_then_used fs pkg rules st f entry v Hhit)
      as [Hused _].
    rewrite (rule_in_eqb _ _ _ Hatt) in Hused.
    destruct (not_attributed_zero R
                (attributions fs pkg rules files
                   (run_step fs pkg rules st f))) as [Hz Hc].
    { intros b Hb. apply (used_never_attributed _ _ _ _ _ _ _ Hused Hb). }
    rewrite Hz, Hc. cbn [Nat.add Nat.eqb]. split; [lia |].
    unfold hit_weight. rewrite Hhit.
    assert (Hin : In (entry, v) rules).
    { apply (hit_spec fs pkg rules (f :: files) st a entry v);
        [left; reflexivity | exact Hhit]. }
    rewrite (keys_distinct_weight _ Hd _ _ _ _ Hin HR Hatt). lia.
  - destruct (IH (run_step fs pkg rules st f)) as [IH1 IH2].
    cbn [Nat.add]. split; [exact IH1 |]. rewrite IH2. lia.
Qed.

(** The weights of the attributions, regrouped by entry of the table. *)
Lemma weights_by_rule specs tr :
  keys_distinct specs = true ->
  (forall a entry v, In a tr -> hit a = Some (entry, v) -> In (entry, v) specs) ->
  Py.sum (map hit_weight tr) =
  Py.sum (map (fun kv : Rule * Z => contribution (fst kv) tr) specs).
Proof.
  intros Hd.
  induction tr as [| a tr IH]; intros Hhits.
  - cbn [map contribution]. rewrite PyFacts.sum_map_zero; reflexivity.
  - cbn [map]. rewrite PyFacts.sum_cons.
    rewrite (List.map_ext _
               (fun kv : Rule * Z =>
                  (if attributed_to (fst kv) a then hit_weight a else 0)
                  + contribution (fst kv) tr));
      [| intros kv; apply contribution_cons].
    rewrite (PyFacts.sum_map_add
               (fun kv : Rule * Z =>
                  if attributed_to (fst kv) a then hit_weight a else 0)
               (fun kv : Rule * Z => contribution (fst kv) tr)).
    rewrite <- IH;
      [| intros b e v Hb; apply Hhits; right; exact Hb].
    f_equal. unfold attributed_to, hit_weight.
    destruct (hit a) as [[entry v] |] eqn:Hhit.
    + symmetry. apply hit_weight_split; [exact Hd |].
      apply (Hhits a); [left; reflexivity | exact Hhit].
    + symmetry. apply PyFacts.sum_map_zero. reflexivity.
Qed.

(** C3. Exactly-once rule consumption: within one run of
    [_compute_from_rules], a rule [R] of the table that has matched a
    candidate matches no later candidate; it is matched at most once;
    what it adds to the score is its weight when it matched and zero
    when it did not; and the score of the run is the sum of what the
    rules of the table added. *)
Theorem rule_consumed_exactly_once fs files pkg rules R w :
  keys_distinct rules = true ->
  In (R, w) rules ->
  let tr := run_trace fs files pkg rules in
  (forall (i j : nat) a b,
      (i < j)%nat -> tr !! i = Some a -> tr !! j = Some b ->
      attributed_to R a = true -> attributed_to R b = false) /\
  (times_matched R tr <= 1)%nat /\
  contribution R tr = (if Nat.eqb (times_matched R tr) 1 then w else 0) /\
  run_value (_compute_from_rules fs files pkg rules) =
    Py.sum (map (fun kv : Rule * Z => contribution (fst kv) tr) rules).
Proof.
  intros Hd HR tr. subst tr. unfold run_trace.
  split; [| split; [| split]].
  - intros i j a b Hlt Ha Hb Hatt.
    destruct (trace_split _ _ _ _ _ _ _ _ _ Hlt Ha Hb)
      as (st_i & f & files' & -> & Hin).
    unfold attributed_to in Hatt. cbn [hit] in Hatt.
    match type of Hatt with
    | match ?h with _ => _ end = true =>
        destruct h as [[entry v] |] eqn:Hhit; [| discriminate]
    end.
    destruct (attributed_then_used fs pkg rules st_i f entry v Hhit)
      as [Hused _].
    rewrite (rule_in_eqb _ _ _ Hatt) in Hused.
    apply (used_never_attributed _ _ _ _ _ _ _ Hused Hin).
  - apply (once_from_any_state fs pkg rules R w files Hd HR).
  - apply (once_from_any_state fs pkg rules R w files Hd HR).
  - unfold _compute_from_rules. rewrite run_value_trace. cbn [run_value].
    rewrite Z.add_0_l. apply weights_by_rule; [exact Hd |].
    intros a entry v Hin Hhit.
    apply (hit_spec _ _ _ _ _ _ _ _ Hin Hhit).
Qed.

Lemma rule_consumed_exactly_once_witness :
  keys_distinct (Schema.cheese_dirs) = true /\
  In (Sample.doc_or_docs, 30) Schema.cheese_dirs /\
  let tr :=
    run_trace Sample.fs ["doc"; "docs"; "tests"] "pkg" Schema.cheese_dirs in
  (forall (i j : nat) a b,
      (i < j)%nat -> tr !! i = Some a -> tr !! j = Some b ->
      attributed_to Sample.doc_or_docs a = true ->
      attributed_to Sample.doc_or_docs b = false) /\
  (times_matched Sample.doc_or_docs tr <= 1)%nat /\
  contribution Sample.doc_or_docs tr
    = (if Nat.eqb (times_matched Sample.doc_or_docs tr) 1 then 30 else 0) /\
  run_value
    (_compute_from_rules Sample.fs ["doc"; "docs"; "tests"] "pkg"
       Schema.cheese_dirs) =
    Py.sum (map (fun kv : Rule * Z => contribution (fst kv) tr)
              Schema.cheese_dirs).
Proof.
  split; [reflexivity |]. split; [left; reflexivity |].
  apply (rule_consumed_exactly_once Sample.fs ["doc"; "docs"; "tests"] "pkg"
           Schema.cheese_dirs Sample.doc_or_docs 30);
    [reflexivity | left; reflexivity].
Defined.

Example double_doc_run :
  let st :=
    _compute_from_rules Sample.fs ["doc"; "docs"; "tests"; "demo"] "pkg"
      Schema.cheese_dirs in
  (files_count st, run_value st) = (2, 60).
Proof. vm_compute. reflexivity. Qed.

(** C7 (as amended). A [OneOf] that matches a candidate does so through
    a string [p]; both [p] and the [OneOf] itself are in [_used_rules]
    afterwards, so the [OneOf] is not among the rules [get_not_used]
    returns and matches no name from then on. *)
Theorem oneof_match_consumes_leaf_and_itself name oid ps used used' :
  match_filename name (ROneOf oid ps) used = (true, used') ->
  exists p,
    winning_leaf name (ROneOf oid ps) used = Some p /\
    rule_in (RStr p) used' = true /\
    rule_in (ROneOf oid ps) used' = true /\
    (forall files_rules, ~ In (ROneOf oid ps) (get_not_used used' files_rules)) /\
    (forall name' ext,
        fst (match_filename name' (ROneOf oid ps) (used' ++ ext)) = false).
Proof.
  intros Hm.
  destruct (winning_leaf_used _ _ _ _ Hm) as (p & Hp & Hin).
  destruct (match_filename_spec _ _ _ _ _ Hm) as [_ Ht].
  destruct (Ht eq_refl) as (_ & Hself & _).
  exists p. repeat split; try assumption.
  - intros files_rules Hnot. unfold get_not_used in Hnot.
    apply filter_In in Hnot as [_ Hnot].
    rewrite Hself in Hnot. discriminate.
  - intros name' ext. rewrite match_filename_eq.
    rewrite (rule_in_mono _ _ ext Hself). reflexivity.
Qed.

Lemma oneof_match_consumes_leaf_and_itself_witness :
  match_filename "doc" (ROneOf 15 [RStr "doc"; RStr "docs"]) []
  = (true, [RStr "doc"; ROneOf 15 [RStr "doc"; RStr "docs"]]) /\
  exists p,
    winning_leaf "doc" (ROneOf 15 [RStr "doc"; RStr "docs"]) [] = Some p /\
    rule_in (RStr p) [RStr "doc"; ROneOf 15 [RStr "doc"; RStr "docs"]] = true /\
    rule_in (ROneOf 15 [RStr "doc"; RStr "docs"])
      [RStr "doc"; ROneOf 15 [RStr "doc"; RStr "docs"]] = true /\
    (forall files_rules,
        ~ In (ROneOf 15 [RStr "doc"; RStr "docs"])
            (get_not_used [RStr "doc"; ROneOf 15 [RStr "doc"; RStr "docs"]]
               files_rules)) /\
    (forall name' ext,
        fst (match_filename name' (ROneOf 15 [RStr "doc"; RStr "docs"])
               ([RStr "doc"; ROneOf 15 [RStr "doc"; RStr "docs"]] ++ ext))
        = false).
Proof.
  split; [reflexivity |].
  apply (oneof_match_consumes_leaf_and_itself "doc" 15
           [RStr "doc"; RStr "docs"] []).
  reflexivity.
Defined.

(** C7, as stated, fails: after [OneOf('doc', 'docs')] has matched
    ["doc"], the [OneOf] itself is in [_used_rules], and the candidate
    ["docs"], whose own string is not, is not matched by it. *)
Lemma oneof_itself_consumed_counterexample :
  match_filename "doc" Sample.doc_or_docs []
  = (true, [RStr "doc"; Sample.doc_or_docs]) /\
  rule_in Sample.doc_or_docs [RStr "doc"; Sample.doc_or_docs] = true /\
  rule_in (RStr "docs") [RStr "doc"; Sample.doc_or_docs] = false /\
  match_filename "docs" Sample.doc_or_docs [RStr "doc"; Sample.doc_or_docs]
  = (false, [RStr "doc"; Sample.doc_or_docs]) /\
  match_filename "docs" Sample.doc_or_docs [RStr "doc"]
  = (true, [RStr "doc"; RStr "docs"; Sample.doc_or_docs]).
Proof. repeat split; vm_compute; reflexivity. Qed.

(** C10. Cross-rule consumption by string equality: when a candidate is
    attributed to a [OneOf] entry that matched through the string [p],
    then for every later candidate [p] is in [_used_rules], the rule
    ["p"] does not match it, and it is not attributed to an entry of the
    table that is the string [p]. *)
Theorem oneof_consumes_equal_literal fs files pkg rules
    (i j : nat) a b oid ps w p :
  let tr := run_trace fs files pkg rules in
  (i < j)%nat ->
  tr !! i = Some a ->
  tr !! j = Some b ->
  hit a = Some (ROneOf oid ps, w) ->
  winning_leaf (PyStr.basename (cand a)) (ROneOf oid ps) (used_before a)
    = Some p ->
  rule_in (RStr p) (used_before b) = true /\
  match_filename (PyStr.basename (cand b)) (RStr p) (used_before b)
    = (false, used_before b) /\
  forall v, hit b <> Some (RStr p, v).
Proof.
  intros tr Hlt Ha Hb Hhit Hleaf. subst tr. unfold run_trace in Ha, Hb.
  destruct (trace_split _ _ _ _ _ _ _ _ _ Hlt Ha Hb)
    as (st_i & f & files' & -> & Hin).
  cbn [hit cand used_before] in Hhit, Hleaf.
  destruct (attributed_then_used fs pkg rules st_i f _ _ Hhit)
    as (_ & q & Hq & Hused).
  rewrite Hleaf in Hq. injection Hq as <-.
  destruct (used_before_extends _ _ _ _ _ _ Hin) as [ext Hext].
  assert (Hp : rule_in (RStr p) (used_before b) = true).
  { rewrite Hext. apply rule_in_mono, Hused. }
  split; [exact Hp |]. split.
  - rewrite match_filename_eq, Hp. reflexivity.
  - intros v Hb'.
    pose proof (used_never_attributed _ _ _ _ _ _ _ Hused Hin) as Hno.
    unfold attributed_to in Hno. rewrite Hb' in Hno.
    rewrite rule_eqb_refl in Hno. discriminate.
Qed.

Lemma oneof_consumes_equal_literal_witness :
  (0 < 1)%nat /\
  run_trace Sample.fs ["doc"; "src/doc"] "pkg" Sample.overlapping !! 0%nat
  = Some (mkAttr "doc" [] (Some (Sample.doc_or_docs, 30))) /\
  run_trace Sample.fs ["doc"; "src/doc"] "pkg" Sample.overlapping !! 1%nat
  = Some (mkAttr "src/doc" [RStr "doc"; Sample.doc_or_docs] None) /\
  winning_leaf "doc" Sample.doc_or_docs [] = Some "doc" /\
  rule_in (RStr "doc") [RStr "doc"; Sample.doc_or_docs] = true /\
  match_filename (PyStr.basename "src/doc") (RStr "doc")
    [RStr "doc"; Sample.doc_or_docs]
  = (false, [RStr "doc"; Sample.doc_or_docs]) /\
  forall v, @None (Rule * Z) <> Some (RStr "doc", v).
Proof.
  split; [lia |]. split; [reflexivity |]. split; [reflexivity |].
  split; [reflexivity |].
  apply (oneof_consumes_equal_literal Sample.fs ["doc"; "src/doc"] "pkg"
           Sample.overlapping 0 1
           (mkAttr "doc" [] (Some (Sample.doc_or_docs, 30)))
           (mkAttr "src/doc" [RStr "doc"; Sample.doc_or_docs] None)
           15 [RStr "doc"; RStr "docs"] 30 "doc");
    [lia | reflexivity | reflexivity | reflexivity | reflexivity].
Defined.

(** The literal ["doc"] of the overlapping table is never matched once
    the [OneOf] has used the string: both candidates below are named
    [doc], one is scored. *)
Example overlapping_literal_starved :
  let st :=
    _compute_from_rules Sample.fs ["doc"; "src/doc"] "pkg" Sample.overlapping in
  (files_count st, run_value st) = (1, 30).
Proof. vm_compute. reflexivity. Qed.

(** C6. Case tolerance of file name matching: each of ["Readme"],
    ["README.txt"] and ["readme.rst"] alone satisfies
    [WithOptionalExt("readme", ["html", "txt", "rst"])]; with ["Readme"]
    and ["README.txt"] as non-empty candidates in that order, only the
    first is attributed to the rule, and the rule adds its weight to
    the total once. *)
Theorem readme_case_tolerance fs pkg oid w :
  is_empty fs (PyStr.join pkg "Readme") = false ->
  is_empty fs (PyStr.join pkg "README.txt") = false ->
  let R := WithOptionalExt oid "readme" ["html"; "txt"; "rst"] in
  fst (match_filename "Readme" R []) = true /\
  fst (match_filename "README.txt" R []) = true /\
  fst (match_filename "readme.rst" R []) = true /\
  map hit (run_trace fs ["Readme"; "README.txt"] pkg [(R, w)])
    = [Some (R, w); None] /\
  run_value (_compute_from_rules fs ["Readme"; "README.txt"] pkg [(R, w)]) = w /\
  get_not_used
    (run_used (_compute_from_rules fs ["Readme"; "README.txt"] pkg [(R, w)]))
    [R] = [].
Proof.
  intros H1 H2 R.
  assert (Hfirst : match_filename "Readme" R []
                   = (true, [RStr "readme"; R])) by reflexivity.
  assert (Hsecond : match_filename "README.txt" R [RStr "readme"; R]
                    = (false, [RStr "readme"; R])).
  { rewrite match_filename_eq.
    replace (rule_in R [RStr "readme"; R]) with true; [reflexivity |].
    symmetry. apply (rule_in_last R [RStr "readme"]). }
  split; [rewrite Hfirst; reflexivity |].
  split; [reflexivity |]. split; [reflexivity |].
  assert (Hb1 : PyStr.basename "Readme" = "Readme") by reflexivity.
  assert (Hb2 : PyStr.basename "README.txt" = "README.txt") by reflexivity.
  assert (Hstep1 :
            run_used (run_step fs pkg [(R, w)] (mkRun [] 0 0) "Readme")
            = [RStr "readme"; R]).
  { rewrite run_step_used, H1, Hb1. cbn [negb get_score run_used].
    rewrite Hfirst. reflexivity. }
  split; [| split].
  - unfold run_trace. cbn [attributions map hit run_used].
    rewrite Hstep1, H1, H2, Hb1, Hb2. cbn [negb find_entry].
    rewrite Hfirst, Hsecond. reflexivity.
  - unfold _compute_from_rules. cbn [fold_left].
    rewrite (run_step_value fs pkg [(R, w)] _ "README.txt"), Hstep1.
    rewrite (run_step_value fs pkg [(R, w)] _ "Readme").
    rewrite H1, H2, Hb1, Hb2. cbn [negb find_entry run_used run_value].
    rewrite Hfirst, Hsecond. cbn. lia.
  - unfold _compute_from_rules. cbn [fold_left].
    rewrite (run_step_used fs pkg [(R, w)] _ "README.txt"), Hstep1.
    rewrite H2, Hb2. cbn [negb get_score]. rewrite Hsecond. cbn [snd].
    unfold get_not_used. cbn [List.filter].
    replace (rule_in R [RStr "readme"; R]) with true; [reflexivity |].
    symmetry. apply (rule_in_last R [RStr "readme"]).
Qed.

Lemma readme_case_tolerance_witness :
  is_empty Sample.fs (PyStr.join "pkg" "Readme") = false /\
  is_empty Sample.fs (PyStr.join "pkg" "README.txt") = false /\
  let R := WithOptionalExt 1 "readme" ["html"; "txt"; "rst"] in
  fst (match_filename "Readme" R []) = true /\
  fst (match_filename "README.txt" R []) = true /\
  fst (match_filename "readme.rst" R []) = true /\
  map hit (run_trace Sample.fs ["Readme"; "README.txt"] "pkg" [(R, 30)])
    = [Some (R, 30); None] /\
  run_value
    (_compute_from_rules Sample.fs ["Readme"; "README.txt"] "pkg" [(R, 30)])
    = 30 /\
  get_not_used
    (run_used
       (_compute_from_rules Sample.fs ["Readme"; "README.txt"] "pkg" [(R, 30)]))
    [R] = [].
Proof.
  split; [reflexivity |]. split; [reflexivity |].
  apply (readme_case_tolerance Sample.fs "pkg" 1 30); reflexivity.
Defined.

(** The names of the unit tests: the bogus ones match no rule of
    [cheese_files], the good ones do, and an empty file is skipped. *)
Example bogus_names_not_matched :
  map (fun name => fst (get_score name Schema.cheese_files []))
    ["ReAdMe"; "install.txt.txt"; "newsXtxt"; "todoGARBAGE"; "setup.py.txt"]
  = [0; 0; 0; 0; 0].
Proof. vm_compute. reflexivity. Qed.

Example good_names_matched :
  map (fun name => fst (get_score name Schema.cheese_files []))
    ["Readme"; "INSTALL.txt"; "news.TXT"]
  = [30; 20; 10].
Proof. vm_compute. reflexivity. Qed.

Example empty_directory_skipped :
  run_trace Sample.fs ["demo"] "pkg" Schema.cheese_dirs
  = [mkAttr "demo" [] None].
Proof. vm_compute. reflexivity. Qed.

End RulesFacts.

(** * Properties of the index tree *)
Module TreeFacts.
Import Py Tree.

(** Induction on index trees, with the hypothesis for every subindex. *)
Lemma Index_nested_ind (P : Index -> Prop) :
  (forall cls st subs, Forall P subs -> P (Node cls st subs)) ->
  forall t, P t.
Proof.
  intros Hnode.
  fix IH 1.
  intros [cls st subs]. apply Hnode.
  induction subs as [| c subs IHsubs]; constructor.
  - apply IH.
  - exact IHsubs.
Qed.

(** The equation of [compute_with], with the generator named. *)
Lemma compute_with_eq c cls st subs :
  compute_with c (Node cls st subs) =
  match cls_compute cls with
  | Some compute =>
      match compute (get_attributes c (_compute_arguments cls)) st with
      | Ok st' => (Node cls st' subs, Ok (value st'))
      | Raise e => (Node cls st subs, Raise e)
      end
  | None =>
      let '(subs', yielded) := _iter_indices c subs in
      (Node cls (set_value (sum yielded) st) subs', Ok (sum yielded))
  end.
Proof.
  cbn [compute_with].
  destruct (cls_compute cls) as [compute |]; [reflexivity |].
  match goal with
  | |- match ?X with _ => _ end = _ =>
      assert (HX : X = _iter_indices c subs)
  end.
  { clear. induction subs as [| a l IH]; [reflexivity |].
    cbn [_iter_indices].
    destruct (compute_with c a) as [a' [v | e]]; [| exact IH].
    rewrite IH. reflexivity. }
  rewrite HX. reflexivity.
Qed.

(** The equation of [decide], with the loop named. *)
Lemma decide_eq when c cls st subs :
  decide when c (Node cls st subs) =
  match cls_decide when cls with
  | Some decision => b ← decision c; Ok (Node cls st subs, b)
  | None =>
      match subs with
      | [] => Ok (Node cls st subs, true)
      | _ =>
          subs' ← decide_each when c subs;
          Ok (Node cls st subs', match subs' with [] => false | _ => true end)
      end
  end.
Proof.
  cbn [decide].
  destruct (cls_decide when cls) as [decision |]; [reflexivity |].
  match goal with
  | |- context [mbind _ (?F subs)] =>
      assert (HX : forall l, F l = decide_each when c l)
  end.
  { clear. induction l as [| a l IH]; [reflexivity |].
    cbn [decide_each].
    destruct (decide when c a) as [[a' keep] | e]; [| reflexivity].
    rewrite IH. reflexivity. }
  rewrite HX. reflexivity.
Qed.

(** A successful [compute_with] returns [self.value]. *)
Lemma compute_with_value c t t' v :
  compute_with c t = (t', Ok v) -> index_value t' = v.
Proof.
  destruct t as [cls st subs]. rewrite compute_with_eq.
  destruct (cls_compute cls) as [compute |].
  - destruct (compute _ st) as [st' | e]; [| discriminate].
    intros [= <- <-]. reflexivity.
  - destruct (_iter_indices c subs) as [subs' ys].
    intros [= <- <-]. reflexivity.
Qed.

Lemma _iter_indices_keep c X X' v l :
  compute_with c X = (X', Ok v) ->
  printed c X' = true ->
  _iter_indices c (X :: l) =
  (X' :: fst (_iter_indices c l), v :: snd (_iter_indices c l)).
Proof.
  intros HX Hp. cbn [_iter_indices]. rewrite HX, Hp.
  destruct (_iter_indices c l); reflexivity.
Qed.

Lemma _iter_indices_drop c X e l :
  snd (compute_with c X) = Raise e ->
  _iter_indices c (X :: l) = _iter_indices c l.
Proof.
  intros HX. cbn [_iter_indices].
  destruct (compute_with c X) as [X' r]. cbn [snd] in HX. rewrite HX.
  reflexivity.
Qed.

(** A leaf is always printed: [_print_info_one] only reads attributes
    that every [Cheesecake] has. *)
Lemma printed_leaf c cls st : printed c (Node cls st []) = true.
Proof. unfold printed. cbn. apply orb_true_r. Qed.

(** C1. Fault isolation: for an index with the default [compute] and
    the subindices [[A; B; C]], where [compute_with] of [B] raises, and
    where [A] and [C] are computed (and printed) without a fault, after
    [compute_with] of the parent its subindices are [A] and [C] as they
    are after their computation, its value is the sum of their values,
    and the call returns that value: no exception escapes. *)
Theorem fault_isolation c cls st A B C A' C' va vc e :
  cls_compute cls = None ->
  compute_with c A = (A', Ok va) -> printed c A' = true ->
  snd (compute_with c B) = Raise e ->
  compute_with c C = (C', Ok vc) -> printed c C' = true ->
  exists P',
    compute_with c (Node cls st [A; B; C]) = (P', Ok (index_value P')) /\
    subindices P' = [A'; C'] /\
    index_value P' = index_value A' + index_value C'.
Proof.
  intros Hcls HA HpA HB HC HpC.
  rewrite compute_with_eq, Hcls.
  rewrite (_iter_indices_keep _ _ _ _ _ HA HpA).
  rewrite (_iter_indices_drop _ _ _ _ HB).
  rewrite (_iter_indices_keep _ _ _ _ _ HC HpC).
  cbn [_iter_indices fst snd].
  exists (Node cls (set_value (sum [va; vc]) st) [A'; C']).
  split; [reflexivity |].
  split; [reflexivity |].
  rewrite (compute_with_value _ _ _ _ HA), (compute_with_value _ _ _ _ HC).
  cbn. lia.
Qed.

Lemma fault_isolation_witness :
  cls_compute Sample.PlainIndex = None /\
  printed Sample.cheesecake
    (Node Schema.IndexUnpack (mkAttrs 25 "package unpacked successfully") [])
  = true /\
  snd (compute_with Sample.cheesecake (Node Sample.BadIndex fresh []))
  = Raise Exception /\
  exists P',
    compute_with Sample.cheesecake
      (Node Sample.PlainIndex fresh
         [ Node Schema.IndexUnpack fresh [];
           Node Sample.BadIndex fresh [];
           Node Schema.IndexInstall fresh [] ])
    = (P', Ok (index_value P')) /\
    subindices P' =
      [ Node Schema.IndexUnpack
          (mkAttrs 25 "package unpacked successfully") [];
        Node Schema.IndexInstall
          (mkAttrs 50 "package installed in /tmp/sandbox/tmp_install_pkg") [] ] /\
    index_value P' =
      index_value
        (Node Schema.IndexUnpack
           (mkAttrs 25 "package unpacked successfully") [])
      + index_value
          (Node Schema.IndexInstall
             (mkAttrs 50 "package installed in /tmp/sandbox/tmp_install_pkg")
             []).
Proof.
  split; [reflexivity |]. split; [reflexivity |]. split; [reflexivity |].
  apply (fault_isolation Sample.cheesecake Sample.PlainIndex fresh
           (Node Schema.IndexUnpack fresh [])
           (Node Sample.BadIndex fresh [])
           (Node Schema.IndexInstall fresh [])
           _ _ 25 50 Exception); reflexivity.
Defined.

(** The unit test of [test_index_class]: an index whose only subindex
    raises computes to 0, loses the subindex and has [max_value] 0. *)
Example bad_index_removed :
  let '(index, r) :=
    compute_with Sample.bare
      (Node Sample.PlainIndex fresh [Node Sample.BadIndex fresh []]) in
  (r, subindices index, max_value index) = (Ok 0, [], 0).
Proof. reflexivity. Qed.

(** [get_attributes] has an entry for every name asked for. *)
Lemma get_attributes_lookup c names name :
  In name names ->
  get_attributes c names !! name = Some (getattr_default c name).
Proof.
  unfold get_attributes. generalize (∅ : gmap string PyVal) as acc.
  assert (Hgen : forall acc : gmap string PyVal,
             acc !! name = Some (getattr_default c name) \/ In name names ->
             fold_left
               (fun attrs n => <[n := getattr_default c n]> attrs) names acc
             !! name = Some (getattr_default c name)).
  { induction names as [| n names IH]; intros acc H; cbn [fold_left].
    - destruct H as [H | []]. exact H.
    - apply IH. destruct (String.string_dec n name) as [-> | Hne].
      + left. apply lookup_insert_eq.
      + rewrite lookup_insert_ne by exact Hne.
        destruct H as [H | [H | H]]; [left; exact H | contradiction | right; exact H]. }
  intros acc Hin. apply Hgen. right. exact Hin.
Qed.

(** An attribute that is not set reads as [None]. *)
Lemma getattr_default_missing c name :
  hasattr c name = false -> getattr_default c name = PyNone.
Proof.
  unfold hasattr, getattr_default. intros H.
  apply orb_false_iff in H as [H Hattr].
  apply orb_false_iff in H as [-> ->].
  apply bool_decide_eq_false in Hattr.
  destruct (attrs c !! name) as [v |] eqn:Hv; [| reflexivity].
  exfalso. apply Hattr. exists v. reflexivity.
Qed.

Lemma _iter_indices_app c l1 l2 :
  _iter_indices c (l1 ++ l2) =
  (fst (_iter_indices c l1) ++ fst (_iter_indices c l2),
   snd (_iter_indices c l1) ++ snd (_iter_indices c l2)).
Proof.
  induction l1 as [| x l1 IH].
  - cbn [app _iter_indices fst snd]. destruct (_iter_indices c l2); reflexivity.
  - cbn [app _iter_indices]. rewrite IH.
    destruct (compute_with c x) as [x' [v | e]]; [| reflexivity].
    destruct (_iter_indices c l1) as [s1 y1]. cbn [fst snd].
    destruct (printed c x'); reflexivity.
Qed.

(** An index with the default [compute] never raises. *)
Lemma default_compute_returns c cls st subs :
  cls_compute cls = None ->
  compute_with c (Node cls st subs) =
  (Node cls (set_value (sum (snd (_iter_indices c subs))) st)
     (fst (_iter_indices c subs)),
   Ok (sum (snd (_iter_indices c subs)))).
Proof.
  intros H. rewrite compute_with_eq, H.
  destruct (_iter_indices c subs); reflexivity.
Qed.

(** C2 (as amended). A requirement name that is not set on the
    [cheesecake] object at compute time reaches [compute] as [None];
    [compute_with] then returns or raises exactly as [compute] does on
    these arguments, with no fault of its own; and an exception raised
    there is absorbed by a parent with the default [compute] like any
    other: the child is removed and the parent returns its value. *)
Theorem missing_input_is_passed_as_None c cls st subs compute name :
  cls_compute cls = Some compute ->
  In name (_compute_arguments cls) ->
  hasattr c name = false ->
  let kw := get_attributes c (_compute_arguments cls) in
  kw !! name = Some PyNone /\
  match compute kw st with
  | Ok st' =>
      compute_with c (Node cls st subs) = (Node cls st' subs, Ok (value st'))
  | Raise e =>
      snd (compute_with c (Node cls st subs)) = Raise e /\
      forall pcls pst before after,
        cls_compute pcls = None ->
        exists P',
          compute_with c (Node pcls pst (before ++ Node cls st subs :: after))
          = (P', Ok (index_value P')) /\
          subindices P' =
            fst (_iter_indices c before) ++ fst (_iter_indices c after)
  end.
Proof.
  intros Hcls Hin Hmiss kw. subst kw.
  split.
  - rewrite (get_attributes_lookup _ _ _ Hin).
    rewrite (getattr_default_missing _ _ Hmiss). reflexivity.
  - pose proof (compute_with_eq c cls st subs) as Heq. rewrite Hcls in Heq.
    destruct (compute (get_attributes c (_compute_arguments cls)) st)
      as [st' | e]; [exact Heq |].
    split; [rewrite Heq; reflexivity |].
    intros pcls pst before after Hp.
    rewrite (default_compute_returns _ _ _ _ Hp).
    match goal with
    | |- exists P', (?X, _) = _ /\ _ => exists X
    end.
    split; [reflexivity |].
    cbn [subindices]. rewrite _iter_indices_app. cbn [fst].
    rewrite (_iter_indices_drop c _ e after); [reflexivity |].
    rewrite Heq. reflexivity.
Qed.

Lemma missing_input_is_passed_as_None_witness :
  cls_compute Schema.IndexUnpackDir = Some Schema.compute_IndexUnpackDir /\
  In "unpack_dir" (_compute_arguments Schema.IndexUnpackDir) /\
  hasattr Sample.cheesecake "unpack_dir" = false /\
  get_attributes Sample.cheesecake (_compute_arguments Schema.IndexUnpackDir)
    !! "unpack_dir" = Some PyNone /\
  snd (compute_with Sample.cheesecake (Node Schema.IndexUnpackDir fresh []))
  = Raise TypeError /\
  forall pcls pst before after,
    cls_compute pcls = None ->
    exists P',
      compute_with Sample.cheesecake
        (Node pcls pst (before ++ Node Schema.IndexUnpackDir fresh [] :: after))
      = (P', Ok (index_value P')) /\
      subindices P' =
        fst (_iter_indices Sample.cheesecake before)
        ++ fst (_iter_indices Sample.cheesecake after).
Proof.
  split; [reflexivity |]. split; [left; reflexivity |].
  split; [reflexivity |].
  apply (missing_input_is_passed_as_None Sample.cheesecake
           Schema.IndexUnpackDir fresh [] Schema.compute_IndexUnpackDir
           "unpack_dir");
    [reflexivity | left; reflexivity | reflexivity].
Defined.

(** C2, as stated, fails: [IndexUnpack] declares the input [unpacked];
    on a [Cheesecake] without that attribute its [compute_with] raises
    nothing and scores 0. *)
Lemma missing_input_counterexample :
  In "unpacked" (requirements (Node Schema.IndexUnpack fresh [])) /\
  hasattr Sample.bare "unpacked" = false /\
  compute_with Sample.bare (Node Schema.IndexUnpack fresh [])
  = (Node Schema.IndexUnpack (mkAttrs 0 "package couldn't be unpacked") [],
     Ok 0).
Proof. split; [left; reflexivity |]. split; reflexivity. Qed.

(** [compute_with] leaves the class of the index as it is. *)
Lemma compute_with_cls c t t' r :
  compute_with c t = (t', r) -> cls_of t' = cls_of t.
Proof.
  destruct t as [cls st subs]. rewrite compute_with_eq.
  destruct (cls_compute cls) as [compute |].
  - destruct (compute _ st) as [st' | e]; intros [= <- _]; reflexivity.
  - destruct (_iter_indices c subs) as [subs' ys].
    intros [= <- _]. reflexivity.
Qed.

(** C9. The overall summary divides without a guard: once the main
    index is computed, the relative index is [value * 100] floor-divided
    by [max_value]; when [max_value] is 0 afterwards (in particular
    when every subindex of a container has been removed)
    [compute_cheesecake_index] raises [ZeroDivisionError] and prints
    nothing. *)
Theorem overall_index_divides_without_guard c index index' v :
  compute_with c index = (index', Ok v) ->
  (max_value index' = 0 ->
   compute_cheesecake_index c index = (index', Raise ZeroDivisionError)) /\
  (cls_max_value (cls_of index) = None -> subindices index' = [] ->
   compute_cheesecake_index c index = (index', Raise ZeroDivisionError)) /\
  (max_value index' <> 0 -> quiet c = true ->
   compute_cheesecake_index c index =
   (index',
    Ok (["Cheesecake index: " +:+ fmt_d (v * 100 / max_value index')
         +:+ " (" +:+ fmt_d v +:+ " / " +:+ fmt_d (max_value index')
         +:+ ")"], v))).
Proof.
  intros Hc.
  assert (Hzero : max_value index' = 0 ->
                  compute_cheesecake_index c index
                  = (index', Raise ZeroDivisionError)).
  { intros H0. unfold compute_cheesecake_index. rewrite Hc.
    cbn [mbind result_bind]. rewrite H0. reflexivity. }
  split; [exact Hzero |]. split.
  - intros Hcls Hsubs. apply Hzero.
    rewrite <- (compute_with_cls _ _ _ _ Hc) in Hcls.
    destruct index' as [cls' st' subs']. cbn in Hcls, Hsubs. subst subs'.
    cbn [max_value]. rewrite Hcls. reflexivity.
  - intros Hne Hq. unfold compute_cheesecake_index. rewrite Hc.
    cbn [mbind result_bind].
    destruct (Z.eqb_spec (max_value index') 0) as [H0 | _]; [contradiction |].
    rewrite Hq. reflexivity.
Qed.

Lemma overall_index_divides_without_guard_witness :
  compute_with Sample.bare
    (Node Sample.PlainIndex fresh [Node Sample.BadIndex fresh []])
  = (Node Sample.PlainIndex (mkAttrs 0 "") [], Ok 0) /\
  max_value (Node Sample.PlainIndex (mkAttrs 0 "") []) = 0 /\
  compute_cheesecake_index Sample.bare
    (Node Sample.PlainIndex fresh [Node Sample.BadIndex fresh []])
  = (Node Sample.PlainIndex (mkAttrs 0 "") [], Raise ZeroDivisionError).
Proof.
  split; [reflexivity |]. split; [reflexivity |].
  apply (overall_index_divides_without_guard Sample.bare
           (Node Sample.PlainIndex fresh [Node Sample.BadIndex fresh []])
           (Node Sample.PlainIndex (mkAttrs 0 "") []) 0);
    reflexivity.
Defined.

(** The overall summary of a run that scored 75 points of 100, the
    index that raised being left out of both. *)
Example overall_summary_quiet :
  snd (compute_cheesecake_index Sample.cheesecake
         (Node Sample.PlainIndex fresh
            [ Node Schema.IndexUnpack fresh [];
              Node Schema.IndexUnpackDir fresh [];
              Node Schema.IndexInstall fresh [];
              Node Schema.IndexUrlDownload fresh [] ]))
  = Ok (["Cheesecake index: 75 (75 / 100)"], 75).
Proof. vm_compute. reflexivity. Qed.

(** ** What the operations of a run do to the set of indices *)

Lemma shrinks_refl t : shrinks t t.
Proof. intros n Hn. exists n. split; [exact Hn | reflexivity]. Qed.

Lemma shrinks_trans t1 t2 t3 : shrinks t1 t2 -> shrinks t2 t3 -> shrinks t1 t3.
Proof.
  intros H12 H23 n1 Hn1.
  destruct (H12 _ Hn1) as (n2 & Hn2 & E12).
  destruct (H23 _ Hn2) as (n3 & Hn3 & E23).
  exists n3. split; [exact Hn3 | congruence].
Qed.

Lemma nodes_self t : In t (nodes t).
Proof. destruct t. left. reflexivity. Qed.

Lemma nodes_child cls st subs x n :
  In x subs -> In n (nodes x) -> In n (nodes (Node cls st subs)).
Proof.
  intros Hx Hn. cbn [nodes]. right. apply in_flat_map. exists x. auto.
Qed.

(** A tree whose subindices come, shrunk, from those of another tree
    of the same class. *)
Lemma shrinks_node cls st st' subs subs' :
  (forall x', In x' subs' -> exists x, In x subs /\ shrinks x' x) ->
  shrinks (Node cls st' subs') (Node cls st subs).
Proof.
  intros H n' [<- | Hn'].
  - exists (Node cls st subs). split; [apply nodes_self | reflexivity].
  - apply in_flat_map in Hn' as (x' & Hx' & Hn').
    destruct (H _ Hx') as (x & Hx & Hsh).
    destruct (Hsh _ Hn') as (n & Hn & E).
    exists n. split; [apply (nodes_child _ _ _ x); assumption | exact E].
Qed.

(** The subindices [_iter_indices] leaves are computed subindices. *)
Lemma _iter_indices_survivors c l x' :
  In x' (fst (_iter_indices c l)) ->
  exists x v, In x l /\ compute_with c x = (x', Ok v).
Proof.
  induction l as [| a l IH]; cbn [_iter_indices fst]; [intros [] |].
  destruct (compute_with c a) as [a' [v | e]] eqn:Ha.
  - destruct (_iter_indices c l) as [s ys]. cbn [fst] in IH.
    assert (Htail : In x' s -> exists x w, In x (a :: l)
                                           /\ compute_with c x = (x', Ok w)).
    { intros H. destruct (IH H) as (x & w & Hx & Hc).
      exists x, w. split; [right; exact Hx | exact Hc]. }
    destruct (printed c a'); cbn [fst]; [| exact Htail].
    intros [<- | H]; [| exact (Htail H)].
    exists a, v. split; [left; reflexivity | exact Ha].
  - intros H. destruct (IH H) as (x & w & Hx & Hc).
    exists x, w. split; [right; exact Hx | exact Hc].
Qed.

(** The subindices [Index.decide] keeps are decided subindices. *)
Lemma decide_each_survivors when c l l' x' :
  decide_each when c l = Ok l' ->
  In x' l' ->
  exists x, In x l /\ decide when c x = Ok (x', true).
Proof.
  revert l'. induction l as [| a l IH]; intros l'; cbn [decide_each].
  - intros [= <-] [].
  - destruct (decide when c a) as [[a' keep] | e] eqn:Ha; [| discriminate].
    destruct (decide_each when c l) as [rest | e]; [| discriminate].
    cbn [mbind result_bind]. intros [= <-] Hin.
    assert (Htail : In x' rest -> exists x, In x (a :: l)
                                            /\ decide when c x = Ok (x', true)).
    { intros H. destruct (IH _ eq_refl H) as (x & Hx & Hd).
      exists x. split; [right; exact Hx | exact Hd]. }
    destruct keep; [| exact (Htail Hin)].
    destruct Hin as [<- | H]; [| exact (Htail H)].
    exists a. split; [left; reflexivity | exact Ha].
Qed.

Lemma compute_with_shrinks c t :
  forall t' r, compute_with c t = (t', r) -> shrinks t' t.
Proof.
  induction t as [cls st subs IH] using Index_nested_ind.
  intros t' r. rewrite compute_with_eq.
  destruct (cls_compute cls) as [compute |].
  - destruct (compute _ st) as [st' | e]; intros [= <- _].
    + apply shrinks_node. intros x Hx. exists x. split; [exact Hx |].
      apply shrinks_refl.
    + apply shrinks_refl.
  - destruct (_iter_indices c subs) as [subs' ys] eqn:Hit.
    intros [= <- _]. apply shrinks_node. intros x' Hx'.
    assert (Hx'' : In x' (fst (_iter_indices c subs)))
      by (rewrite Hit; exact Hx').
    destruct (_iter_indices_survivors _ _ _ Hx'') as (x & v & Hx & Hc).
    exists x. split; [exact Hx |].
    rewrite List.Forall_forall in IH. apply (IH x Hx _ _ Hc).
Qed.

Lemma decide_shrinks when c t :
  forall t' b, decide when c t = Ok (t', b) -> shrinks t' t.
Proof.
  induction t as [cls st subs IH] using Index_nested_ind.
  intros t' b. rewrite decide_eq.
  destruct (cls_decide when cls) as [decision |].
  - destruct (decision c) as [b0 | e]; [| discriminate].
    cbn [mbind result_bind]. intros [= <- _]. apply shrinks_refl.
  - destruct subs as [| s0 subs0]; [intros [= <- _]; apply shrinks_refl |].
    destruct (decide_each when c (s0 :: subs0)) as [subs' | e] eqn:Hd;
      [| discriminate].
    cbn [mbind result_bind]. intros [= <- _].
    apply shrinks_node. intros x' Hx'.
    destruct (decide_each_survivors _ _ _ _ _ Hd Hx') as (x & Hx & Hdx).
    exists x. split; [exact Hx |].
    rewrite List.Forall_forall in IH. apply (IH x Hx _ _ Hdx).
Qed.

(** No operation of a run adds an index. *)
Lemma run_ops_shrinks ops :
  forall t t', run_ops ops t = Ok t' -> shrinks t' t.
Proof.
  induction ops as [| op ops IH]; intros t t'; cbn [run_ops].
  - intros [= <-]. apply shrinks_refl.
  - destruct (apply_op op t) as [t1 | e] eqn:Hop; [| discriminate].
    cbn [mbind result_bind]. intros Hrun.
    apply (shrinks_trans _ t1); [apply (IH _ _ Hrun) |].
    destruct op as [when c | c]; cbn [apply_op] in Hop.
    + destruct (decide when c t) as [[t0 b] | e] eqn:Hd; [| discriminate].
      cbn [mbind result_bind] in Hop. injection Hop as <-.
      apply (decide_shrinks _ _ _ _ _ Hd).
    + destruct (compute_with c t) as [t0 [v | e]] eqn:Hc; [| discriminate].
      injection Hop as <-. apply (compute_with_shrinks _ _ _ _ Hc).
Qed.

Lemma nodes_trans t n x : In n (nodes t) -> In x (nodes n) -> In x (nodes t).
Proof.
  induction t as [cls st subs IH] using Index_nested_ind.
  intros [<- | Hn] Hx; [exact Hx |].
  apply in_flat_map in Hn as (s & Hs & Hn).
  rewrite List.Forall_forall in IH.
  apply (nodes_child _ _ _ s); [exact Hs | apply (IH s Hs Hn Hx)].
Qed.

(** The property [max_value] of a class that does not override it is
    the sum over the subindices. *)
Lemma max_value_default t :
  cls_max_value (cls_of t) = None ->
  max_value t = sum (map max_value (subindices t)).
Proof.
  destruct t as [cls st subs]. cbn [cls_of subindices max_value].
  intros ->. destruct subs; reflexivity.
Qed.

Lemma sum_nonneg l : (forall x, In x l -> 0 <= x) -> 0 <= sum l.
Proof.
  induction l as [| x l IH]; intros H; [cbn; lia |].
  rewrite PyFacts.sum_cons.
  assert (0 <= x) by (apply H; left; reflexivity).
  assert (0 <= sum l) by (apply IH; intros y Hy; apply H; right; exact Hy).
  lia.
Qed.

Lemma max_value_nonneg t :
  (forall n m, In n (nodes t) -> cls_max_value (cls_of n) = Some m -> 0 <= m) ->
  0 <= max_value t.
Proof.
  induction t as [cls st subs IH] using Index_nested_ind.
  intros H. cbn [max_value].
  destruct (cls_max_value cls) as [m |] eqn:Hm.
  - apply (H (Node cls st subs) m); [apply nodes_self | exact Hm].
  - destruct subs as [| s0 subs0]; [lia |].
    apply sum_nonneg. intros x Hx.
    apply in_map_iff in Hx as (s & <- & Hs).
    rewrite List.Forall_forall in IH. apply (IH s Hs).
    intros n m Hn. apply H. apply (nodes_child _ _ _ s); assumption.
Qed.

(** C5. The [max_value] invariant: in a tree whose classes declare no
    negative [max_value] (as those of Cheesecake do), after any sequence
    of decisions and computations, every index of a class that inherits
    the property has as [max_value] the sum of the [max_value] of its
    present subindices, every index of a class that declares
    [max_value] has that constant, a constant of the tree the run
    started from, and no [max_value] is negative. *)
Theorem max_value_invariant t ops t' :
  (forall n m, In n (nodes t) -> cls_max_value (cls_of n) = Some m -> 0 <= m) ->
  run_ops ops t = Ok t' ->
  forall n, In n (nodes t') ->
    match cls_max_value (cls_of n) with
    | None => max_value n = sum (map max_value (subindices n))
    | Some m =>
        max_value n = m /\
        exists n0, In n0 (nodes t) /\ cls_max_value (cls_of n0) = Some m
    end /\
    0 <= max_value n.
Proof.
  intros Hpos Hrun n Hn.
  pose proof (run_ops_shrinks _ _ _ Hrun) as Hsh.
  split.
  - destruct (cls_max_value (cls_of n)) as [m |] eqn:Hm.
    + split.
      * destruct n as [cls st subs]. cbn [cls_of] in Hm. cbn [max_value].
        rewrite Hm. reflexivity.
      * destruct (Hsh _ Hn) as (n0 & Hn0 & E).
        exists n0. split; [exact Hn0 | rewrite <- E; exact Hm].
    + apply max_value_default, Hm.
  - apply max_value_nonneg. intros x m Hx Hm.
    destruct (Hsh x (nodes_trans _ _ _ Hn Hx)) as (n0 & Hn0 & E).
    apply (Hpos n0 m Hn0). rewrite <- E. exact Hm.
Qed.

(** The classes of Cheesecake declare no negative [max_value]. *)
Lemma schema_max_values_nonneg :
  forall n m, In n (nodes Sample.index) ->
              cls_max_value (cls_of n) = Some m -> 0 <= m.
Proof.
  intros n m Hn.
  cbv [Sample.index Schema.CheesecakeIndex Schema.IndexInstallability
       Schema.IndexDocumentation Schema.IndexCodeKwalitee nodes flat_map app]
    in Hn.
  repeat (destruct Hn as [<- | Hn]; [cbn; intros [= <-]; try discriminate; lia |]);
    try (cbn; discriminate).
  destruct Hn.
Qed.

Lemma max_value_invariant_witness :
  (forall n m, In n (nodes Sample.index) ->
               cls_max_value (cls_of n) = Some m -> 0 <= m) /\
  match run_ops Sample.whole_run Sample.index with
  | Ok t' =>
      forall n, In n (nodes t') ->
        match cls_max_value (cls_of n) with
        | None => max_value n = sum (map max_value (subindices n))
        | Some m =>
            max_value n = m /\
            exists n0, In n0 (nodes Sample.index)
                       /\ cls_max_value (cls_of n0) = Some m
        end /\
        0 <= max_value n
  | Raise _ => False
  end.
Proof.
  split; [exact schema_max_values_nonneg |].
  destruct (run_ops Sample.whole_run Sample.index) as [t' | e] eqn:Hrun.
  - apply (max_value_invariant Sample.index Sample.whole_run t'
             schema_max_values_nonneg Hrun).
  - assert (Hok : is_ok (run_ops Sample.whole_run Sample.index) = true)
      by (vm_compute; reflexivity).
    rewrite Hrun in Hok. discriminate Hok.
Defined.

(** C5, as stated, fails: what decides is the class, not whether the
    index has subindices.  [IndexUnpack(IndexInstall())] is an interior
    node of a class that declares [max_value = 25]; its [max_value] is
    25, before and after [compute_with], and not the 50 of its
    subindex. *)
Lemma max_value_declared_interior_counterexample :
  let t := Node Schema.IndexUnpack fresh [Node Schema.IndexInstall fresh []] in
  subindices t <> [] /\
  max_value t = 25 /\
  sum (map max_value (subindices t)) = 50 /\
  max_value t <> sum (map max_value (subindices t)) /\
  (let '(t', r) := compute_with Sample.cheesecake t in
   (r, map index_name (subindices t'), max_value t',
    sum (map max_value (subindices t'))))
  = (Ok 25, ["IndexInstall"], 25, 50).
Proof.
  cbv zeta. split; [discriminate |]. split; [reflexivity |].
  split; [reflexivity |]. split; [discriminate |]. reflexivity.
Qed.

(** The sample run: the decisions remove the two download indices (no
    name, no URL) and the PEP 8 index; the computation removes pylint,
    which timed out. *)
Example sample_run_names :
  (fun r => match r with
            | Ok t => map index_name (nodes t)
            | Raise _ => []
            end) (run_ops Sample.whole_run Sample.index)
  = [ "Cheesecake"; "INSTALLABILITY"; "IndexUnpack"; "IndexUnpackDir";
      "setup.py"; "IndexInstall"; "IndexGeneratedFiles"; "DOCUMENTATION";
      "IndexRequiredFiles"; "IndexDocstrings"; "IndexFormattedDocstrings";
      "CODE KWALITEE"; "IndexUnitTested" ].
Proof. vm_compute. reflexivity. Qed.

Example sample_run_score :
  (fun r => match r with
            | Ok t => (index_value t, max_value t)
            | Raise _ => (0, 0)
            end) (run_ops Sample.whole_run Sample.index)
  = (205, 495).
Proof. vm_compute. reflexivity. Qed.

(** [reduce(lambda x, y: x + y.requirements, subindices, [])] *)
Lemma reduce_requirements (l : list Index) (acc : list string) :
  fold_left (fun x y => x ++ requirements y) l acc
  = acc ++ flat_map requirements l.
Proof.
  revert acc. induction l as [| a l IH]; intros acc; cbn [fold_left flat_map].
  - rewrite app_nil_r. reflexivity.
  - rewrite IH, app_assoc. reflexivity.
Qed.

Lemma requirements_eq cls st subs :
  requirements (Node cls st subs)
  = _compute_arguments cls ++ flat_map requirements subs.
Proof.
  destruct subs as [| s0 subs0].
  - cbn. rewrite app_nil_r. reflexivity.
  - cbn [requirements].
    rewrite (reduce_requirements (s0 :: subs0) []). reflexivity.
Qed.

(** Every required name is an argument of [compute] of some index of
    the tree, and conversely. *)
Lemma requirements_nodes t r :
  In r (requirements t) <->
  exists n, In n (nodes t) /\ In r (_compute_arguments (cls_of n)).
Proof.
  induction t as [cls st subs IH] using Index_nested_ind.
  rewrite List.Forall_forall in IH.
  rewrite requirements_eq, in_app_iff, in_flat_map. split.
  - intros [Hr | (s & Hs & Hr)].
    + exists (Node cls st subs). split; [apply nodes_self | exact Hr].
    + apply (IH s Hs) in Hr as (n & Hn & Hr).
      exists n. split; [apply (nodes_child _ _ _ s); assumption | exact Hr].
  - intros (n & [<- | Hn] & Hr); [left; exact Hr |].
    apply in_flat_map in Hn as (s & Hs & Hn).
    right. exists s. split; [exact Hs |].
    apply (IH s Hs). exists n. split; assumption.
Qed.

(** Names that differ inside one child list. *)
Lemma NoDup_flat_map_inj {A B C : Type} (f : B -> C) (g : A -> list B)
    (l : list A) a b u v :
  NoDup (map f (flat_map g l)) ->
  In a l -> In b l -> In u (g a) -> In v (g b) -> f u = f v -> a = b.
Proof.
  induction l as [| h l IH]; [intros _ [] |].
  cbn [flat_map]. rewrite map_app. intros Hnd.
  apply NoDup_app in Hnd as (_ & Hdisj & Hnd').
  assert (Hcross : forall x y, In x (g h) -> In y (flat_map g l) ->
                               f x <> f y).
  { intros x y Hx Hy E.
    apply (Hdisj (f x)); [apply list_elem_of_In, in_map, Hx |].
    rewrite E. apply list_elem_of_In, in_map, Hy. }
  intros [<- | Ha] [<- | Hb] Hu Hv E.
  - reflexivity.
  - exfalso. apply (Hcross u v Hu); [| exact E].
    apply in_flat_map. exists b. auto.
  - exfalso. apply (Hcross v u Hv); [| symmetry; exact E].
    apply in_flat_map. exists a. auto.
  - apply (IH Hnd' Ha Hb Hu Hv E).
Qed.

Lemma NoDup_flat_map_part {A B C : Type} (f : B -> C) (g : A -> list B)
    (l : list A) a :
  NoDup (map f (flat_map g l)) -> In a l -> NoDup (map f (g a)).
Proof.
  induction l as [| h l IH]; [intros _ [] |].
  cbn [flat_map]. rewrite map_app. intros Hnd.
  apply NoDup_app in Hnd as (Hh & _ & Hnd').
  intros [<- | Ha]; [exact Hh | apply (IH Hnd' Ha)].
Qed.

Lemma rejected_in_nodes when c t n :
  rejected when c t n ->
  exists x, In x (subindices t) /\ In n (nodes x).
Proof.
  induction 1 as [cls st subs x x' n _ Hx _ Hn
                 | cls st subs x x' n _ Hx _ _ IH].
  - exists x. split; assumption.
  - exists x. split; [exact Hx |].
    destruct IH as (y & Hy & Hn). destruct x as [xc xs xsubs].
    apply (nodes_child _ _ _ y); assumption.
Qed.

(** With the names of a tree pairwise different, no index [decide]
    removes has its name in the tree afterwards. *)
Lemma rejected_gone when c t n :
  rejected when c t n ->
  forall t1 b,
    NoDup (map index_name (nodes t)) ->
    decide when c t = Ok (t1, b) ->
    ~ In (index_name n) (map index_name (nodes t1)).
Proof.
  induction 1 as [cls st subs x x' n Hcls Hx Hdx Hn
                 | cls st subs x x' n Hcls Hx Hdx Hrej IH];
    intros t1 b Hnd Hd.
  all: rewrite decide_eq, Hcls in Hd.
  all: destruct subs as [| s0 subs0]; [destruct Hx |].
  all: destruct (decide_each when c (s0 :: subs0)) as [subs' | e] eqn:Heach;
    [| discriminate].
  all: cbn [mbind result_bind] in Hd; injection Hd as <- _.
  all: cbn [nodes map] in Hnd; apply NoDup_cons in Hnd as [Hroot Hnd].
  all: cbn [nodes map]; intros [Heq | Hin].
  - apply Hroot.
    change (index_name (Node cls st (s0 :: subs0)))
      with (index_name (Node cls st subs')).
    rewrite Heq.
    apply list_elem_of_In, in_map, in_flat_map. exists x. auto.
  - apply in_map_iff in Hin as (n' & Hname & Hn').
    apply in_flat_map in Hn' as (s' & Hs' & Hn').
    destruct (decide_each_survivors _ _ _ _ _ Heach Hs') as (s & Hs & Hds).
    destruct (decide_shrinks _ _ _ _ _ Hds _ Hn') as (ns & Hns & E).
    assert (Exs : x = s).
    { apply (NoDup_flat_map_inj index_name nodes (s0 :: subs0) x s n ns
               Hnd Hx Hs Hn Hns).
      rewrite <- Hname. unfold index_name. rewrite E. reflexivity. }
    subst s. rewrite Hdx in Hds. discriminate.
  - apply Hroot.
    change (index_name (Node cls st (s0 :: subs0)))
      with (index_name (Node cls st subs')).
    rewrite Heq.
    destruct (rejected_in_nodes _ _ _ _ Hrej) as (y & Hy & Hn).
    apply list_elem_of_In, in_map, in_flat_map. exists x.
    split; [exact Hx |]. destruct x as [xc xs xsubs].
    apply (nodes_child _ _ _ y); assumption.
  - apply in_map_iff in Hin as (n' & Hname & Hn').
    apply in_flat_map in Hn' as (s' & Hs' & Hn').
    destruct (decide_each_survivors _ _ _ _ _ Heach Hs') as (s & Hs & Hds).
    destruct (decide_shrinks _ _ _ _ _ Hds _ Hn') as (ns & Hns & E).
    assert (Hnx : In n (nodes x)).
    { destruct (rejected_in_nodes _ _ _ _ Hrej) as (y & Hy & Hn).
      destruct x as [xc xs xsubs]. apply (nodes_child _ _ _ y); assumption. }
    assert (Exs : x = s).
    { apply (NoDup_flat_map_inj index_name nodes (s0 :: subs0) x s n ns
               Hnd Hx Hs Hnx Hns).
      rewrite <- Hname. unfold index_name. rewrite E. reflexivity. }
    subst s. rewrite Hdx in Hds. injection Hds as <-.
    apply (IH x' true).
    + apply (NoDup_flat_map_part index_name nodes (s0 :: subs0) x Hnd Hx).
    + exact Hdx.
    + rewrite <- Hname. apply in_map. exact Hn'.
Qed.

(** C8. Gating irreversibility: with the names of the tree pairwise
    different, an index that the decision before the download removes
    (a child for which the decision is false, or an index below it) is
    in the tree neither right afterwards nor after any later sequence
    of decisions and computations, and every name that [requirements]
    returns then is an argument of [compute] of an index that was
    left, under another name than the removed one. *)
Theorem gating_irreversible c t t1 b ops t2 n :
  NoDup (map index_name (nodes t)) ->
  decide before_download c t = Ok (t1, b) ->
  rejected before_download c t n ->
  run_ops ops t1 = Ok t2 ->
  ~ In (index_name n) (map index_name (nodes t1)) /\
  ~ In (index_name n) (map index_name (nodes t2)) /\
  forall r, In r (requirements t2) ->
    exists m, In m (nodes t1) /\ index_name m <> index_name n
              /\ In r (_compute_arguments (cls_of m)).
Proof.
  intros Hnd Hd Hrej Hrun.
  pose proof (rejected_gone _ _ _ _ Hrej _ _ Hnd Hd) as Hgone.
  pose proof (run_ops_shrinks _ _ _ Hrun) as Hsh.
  assert (Hother : forall n2, In n2 (nodes t2) ->
                     exists m, In m (nodes t1) /\ cls_of n2 = cls_of m
                               /\ index_name m <> index_name n).
  { intros n2 Hn2. destruct (Hsh _ Hn2) as (m & Hm & E).
    exists m. split; [exact Hm |]. split; [exact E |].
    intros Heq. apply Hgone. rewrite <- Heq.
    apply in_map. exact Hm. }
  split; [exact Hgone |]. split.
  - intros Hin. apply in_map_iff in Hin as (n2 & Hname & Hn2).
    destruct (Hother _ Hn2) as (m & _ & E & Hne).
    apply Hne. rewrite <- Hname. unfold index_name. rewrite E. reflexivity.
  - intros r Hr. apply requirements_nodes in Hr as (n2 & Hn2 & Hr).
    destruct (Hother _ Hn2) as (m & Hm & E & Hne).
    exists m. split; [exact Hm |]. split; [exact Hne |].
    rewrite <- E. exact Hr.
Qed.

(** A decision that keeps an index returns the index it kept. *)
Lemma decide_kept_exists when c x :
  match decide when c x with
  | Ok (_, keep) => keep
  | Raise _ => false
  end = true ->
  exists x', decide when c x = Ok (x', true).
Proof.
  destruct (decide when c x) as [[x' keep] | e]; [| discriminate].
  intros ->. exists x'. reflexivity.
Qed.

Lemma gating_irreversible_witness :
  NoDup (map index_name (nodes Sample.index)) /\
  rejected before_download Sample.local_run Sample.index
    (Node Schema.IndexUrlDownload fresh []) /\
  match decide before_download Sample.local_run Sample.index with
  | Ok (t1, _) =>
      match run_ops Sample.rest_of_run t1 with
      | Ok t2 =>
          ~ In "IndexUrlDownload" (map index_name (nodes t1)) /\
          ~ In "IndexUrlDownload" (map index_name (nodes t2)) /\
          forall r, In r (requirements t2) ->
            exists m, In m (nodes t1) /\ index_name m <> "IndexUrlDownload"
                      /\ In r (_compute_arguments (cls_of m))
      | Raise _ => False
      end
  | Raise _ => False
  end.
Proof.
  assert (Hnd : NoDup (map index_name (nodes Sample.index))).
  { apply (bool_decide_unpack _). vm_compute. reflexivity. }
  assert (Hrej : rejected before_download Sample.local_run Sample.index
                   (Node Schema.IndexUrlDownload fresh [])).
  { destruct (decide_kept_exists before_download Sample.local_run
                (Schema.IndexInstallability Sample.fs Sample.nothing_found
                   Sample.nothing_found)) as [x' Hx'];
      [vm_compute; reflexivity |].
    unfold Sample.index, Schema.CheesecakeIndex.
    apply (rejected_below _ _ _ _ _
             (Schema.IndexInstallability Sample.fs Sample.nothing_found
                Sample.nothing_found) x');
      [reflexivity | left; reflexivity | exact Hx' |].
    unfold Schema.IndexInstallability.
    apply (rejected_here _ _ _ _ _
             (Node Schema.IndexUrlDownload fresh [])
             (Node Schema.IndexUrlDownload fresh []));
      [reflexivity | right; left; reflexivity | reflexivity
      | left; reflexivity]. }
  split; [exact Hnd |]. split; [exact Hrej |].
  destruct (decide before_download Sample.local_run Sample.index)
    as [[t1 b] | e] eqn:Hd.
  - destruct (run_ops Sample.rest_of_run t1) as [t2 | e] eqn:Hrun.
    + apply (gating_irreversible Sample.local_run Sample.index t1 b
               Sample.rest_of_run t2 (Node Schema.IndexUrlDownload fresh [])
               Hnd Hd Hrej Hrun).
    + assert (Hok : is_ok (run_ops Sample.whole_run Sample.index) = true)
        by (vm_compute; reflexivity).
      unfold Sample.whole_run in Hok. cbn [run_ops apply_op] in Hok.
      rewrite Hd in Hok. cbn [mbind result_bind] in Hok.
      rewrite Hrun in Hok. discriminate Hok.
  - assert (Hok : is_ok (decide before_download Sample.local_run Sample.index)
                  = true) by (vm_compute; reflexivity).
    rewrite Hd in Hok. discriminate Hok.
Defined.

(** What is required before and after the decision before the
    download, on the sample run: the inputs of the download indices
    are no longer asked for. *)
Example sample_requirements_shrink :
  (PyStr.str_in "download_url" (requirements Sample.index),
   match decide before_download Sample.local_run Sample.index with
   | Ok (t1, _) => PyStr.str_in "download_url" (requirements t1)
   | Raise _ => true
   end)
  = (true, false).
Proof. vm_compute. reflexivity. Qed.

(** ** The percentage of the report *)

(** An index whose [max_value] is 0 prints nothing. *)
Lemma print_info_many_omitted self :
  max_value self = 0 -> _print_info_many self = Ok [].
Proof. intros H. unfold _print_info_many. rewrite H. reflexivity. Qed.

(** The percentage against the exact ceiling, checked for every value
    from 0 to [max_value], for every [max_value] from 1 to 100. *)
Lemma percentage_near_small :
  forallb (fun m => forallb (fun v => percentage_near v m) (seq 0 (S m)))
    (seq 1 100) = true.
Proof. vm_compute. reflexivity. Qed.

(** On small indices the printed percentage is the exact ceiling or one
    more, never less. *)
Lemma percentage_within_one v m :
  1 <= m <= 100 -> 0 <= v <= m ->
  exists p, percentage v m = Ok p /\
            spec_percentage v m <= p <= spec_percentage v m + 1.
Proof.
  intros Hm Hv.
  pose proof percentage_near_small as Hall.
  rewrite forallb_forall in Hall.
  specialize (Hall (Z.to_nat m)).
  rewrite forallb_forall in Hall.
  assert (Hnear : percentage_near (Z.to_nat v) (Z.to_nat m) = true).
  { apply Hall; apply in_seq; lia. }
  unfold percentage_near in Hnear. rewrite !Z2Nat.id in Hnear by lia.
  destruct (percentage v m) as [p | e]; [| discriminate].
  apply andb_true_iff in Hnear as [H1 H2].
  exists p. split; [reflexivity |]. lia.
Qed.

(** C4. The percentage of the report: 1 of 2 is printed as 50, 1 of 3
    as 34, and nothing is printed when [max_value] is 0; but the
    quotient is rounded to a double before it is multiplied, so that
    49 of 350 (exactly 14 percent) is printed as 15. *)
Theorem report_percentage_rounding :
  percentage 1 2 = Ok 50 /\
  percentage 1 3 = Ok 34 /\
  (forall self, max_value self = 0 -> _print_info_many self = Ok []) /\
  spec_percentage 49 350 = 14 /\
  percentage 49 350 = Ok 15 /\
  (let '(index, r) := compute_with Sample.sparse_run Sample.documentation in
   (r, max_value index, _print_info_many index))
  = (Ok 49, 350,
     Ok [ "---------------------------------------------";
          "DOCUMENTATION INDEX (ABSOLUTE) .........  49";
          "DOCUMENTATION INDEX (RELATIVE) .........  15"
          +:+ "  (49 out of a maximum of 350 points is 15%)";
          "" ]).
Proof.
  split; [vm_compute; reflexivity |].
  split; [vm_compute; reflexivity |].
  split; [exact print_info_many_omitted |].
  split; [reflexivity |].
  split; vm_compute; reflexivity.
Qed.

Lemma str_in_In' x L : PyStr.str_in x L = true -> In x L.
Proof.
  unfold PyStr.str_in. intros H. apply existsb_exists in H as (y & Hy & E).
  apply String.eqb_eq in E. subst y. exact Hy.
Qed.

Lemma In_str_in x L : In x L -> PyStr.str_in x L = true.
Proof.
  intros H. unfold PyStr.str_in. apply existsb_exists. exists x.
  split; [exact H | apply String.eqb_refl].
Qed.

End TreeFacts.

(** * More properties of the rule matcher *)
Module RulesMore.
Import Rules RulesFacts.

Lemma sum_map_le {A : Type} (f g : A -> Z) (l : list A) :
  (forall x, In x l -> f x <= g x) ->
  Py.sum (map f l) <= Py.sum (map g l).
Proof.
  induction l as [| x l IH]; intros H; [reflexivity |].
  cbn [map]. rewrite !PyFacts.sum_cons.
  assert (f x <= g x) by (apply H; left; reflexivity).
  assert (Py.sum (map f l) <= Py.sum (map g l))
    by (apply IH; intros y Hy; apply H; right; exact Hy).
  lia.
Qed.

Lemma sum_map_nonneg {A : Type} (f : A -> Z) (l : list A) :
  (forall x, In x l -> 0 <= f x) -> 0 <= Py.sum (map f l).
Proof.
  induction l as [| x l IH]; intros H; [reflexivity |].
  cbn [map]. rewrite PyFacts.sum_cons.
  assert (0 <= f x) by (apply H; left; reflexivity).
  assert (0 <= Py.sum (map f l))
    by (apply IH; intros y Hy; apply H; right; exact Hy).
  lia.
Qed.

Lemma sum_map_const {A : Type} (l : list A) :
  Py.sum (map (fun _ => 1) l) = Z.of_nat (length l).
Proof.
  induction l as [| x l IH]; [reflexivity |].
  cbn [map length]. rewrite PyFacts.sum_cons, IH. lia.
Qed.

(** Is the candidate counted in [files_count]? *)
Lemma run_step_count fs pkg rules st f :
  files_count (run_step fs pkg rules st f) =
  files_count st
  + (if hit_weight
          (mkAttr f (run_used st)
             (if negb (is_empty fs (PyStr.join pkg f))
              then find_entry (PyStr.basename f) rules (run_used st)
              else None)) =? 0
     then 0 else 1).
Proof.
  unfold run_step, hit_weight. cbn [hit].
  destruct (negb (is_empty fs (PyStr.join pkg f))); [| cbn; lia].
  pose proof (get_score_spec (PyStr.basename f) rules (run_used st)) as H.
  destruct (get_score (PyStr.basename f) rules (run_used st)) as [score u].
  destruct (find_entry (PyStr.basename f) rules (run_used st)) as [[e v] |].
  - destruct H as (Hv & _). cbn [fst] in Hv. subst v.
    destruct (Z.eqb_spec score 0); cbn; lia.
  - injection H as -> ->. cbn. lia.
Qed.

Lemma files_count_trace fs pkg rules files :
  forall st,
    files_count (fold_left (run_step fs pkg rules) files st) =
    files_count st
    + Py.sum (map (fun a => if hit_weight a =? 0 then 0 else 1)
                (attributions fs pkg rules files st)).
Proof.
  induction files as [| f files IH]; intros st;
    cbn [fold_left attributions map]; [rewrite PyFacts.sum_nil; lia |].
  rewrite IH, run_step_count, PyFacts.sum_cons. lia.
Qed.

(** A quantity carried by the attributions, regrouped by entry of the
    table. *)
Lemma by_rule (phi : Attribution -> Z) specs tr :
  keys_distinct specs = true ->
  (forall a, hit a = None -> phi a = 0) ->
  (forall a entry v, In a tr -> hit a = Some (entry, v) -> In (entry, v) specs) ->
  Py.sum (map phi tr) =
  Py.sum (map (fun kv : Rule * Z =>
                 Py.sum (map (fun a => if attributed_to (fst kv) a
                                       then phi a else 0) tr)) specs).
Proof.
  intros Hd Hnone.
  induction tr as [| a tr IH]; intros Hhits.
  - cbn [map]. rewrite PyFacts.sum_map_zero; reflexivity.
  - cbn [map]. rewrite PyFacts.sum_cons.
    rewrite (List.map_ext
               (fun kv : Rule * Z =>
                  Py.sum ((if attributed_to (fst kv) a then phi a else 0)
                          :: map (fun a0 => if attributed_to (fst kv) a0
                                            then phi a0 else 0) tr))
               (fun kv : Rule * Z =>
                  (if attributed_to (fst kv) a then phi a else 0)
                  + Py.sum (map (fun a0 => if attributed_to (fst kv) a0
                                           then phi a0 else 0) tr)));
      [| intros kv; apply PyFacts.sum_cons].
    rewrite (PyFacts.sum_map_add
               (fun kv : Rule * Z =>
                  if attributed_to (fst kv) a then phi a else 0)
               (fun kv : Rule * Z =>
                  Py.sum (map (fun a0 => if attributed_to (fst kv) a0
                                         then phi a0 else 0) tr))).
    rewrite <- IH; [| intros b e v Hb; apply Hhits; right; exact Hb].
    f_equal. unfold attributed_to.
    destruct (hit a) as [[entry v] |] eqn:Hhit.
    + assert (Hin : In (entry, v) specs)
        by (apply (Hhits a); [left; reflexivity | exact Hhit]).
      clear - Hd Hin. revert Hd Hin. generalize (phi a) as x. intros x.
      induction specs as [| [e w] specs IHs]; intros Hd; [intros [] |].
      cbn [keys_distinct] in Hd. apply andb_true_iff in Hd as [Hfresh Hd].
      apply negb_true_iff in Hfresh. apply not_true_iff_false in Hfresh.
      cbn [map fst]. rewrite PyFacts.sum_cons.
      intros [[= -> ->] | Hin].
      * rewrite rule_eqb_refl, PyFacts.sum_map_zero; [lia |].
        intros [e' w'] Hin'. cbn [fst].
        destruct (rule_eqb entry e') eqn:Heq; [exfalso | reflexivity].
        apply Hfresh, existsb_exists. exists (e', w').
        split; [exact Hin' |]. cbn [fst]. rewrite rule_eqb_sym. exact Heq.
      * rewrite <- (IHs Hd Hin).
        destruct (rule_eqb entry e) eqn:Heq; [exfalso | lia].
        apply Hfresh, existsb_exists. exists (entry, v).
        split; [exact Hin | exact Heq].
    + rewrite (Hnone a Hhit). symmetry. apply PyFacts.sum_map_zero.
      reflexivity.
Qed.

(** The candidates attributed to one rule, counted. *)
Lemma counted_per_rule R tr :
  Py.sum (map (fun a => if attributed_to R a
                        then (if hit_weight a =? 0 then 0 else 1) else 0) tr)
  <= Z.of_nat (times_matched R tr).
Proof.
  induction tr as [| a tr IH]; [reflexivity |].
  cbn [map]. rewrite PyFacts.sum_cons, times_matched_cons.
  destruct (attributed_to R a); [destruct (hit_weight a =? 0) |]; lia.
Qed.

(** The value of a run lies between 0 and the sum of the weights. *)
Lemma run_value_bounds fs files pkg rules :
  keys_distinct rules = true ->
  (forall R w, In (R, w) rules -> 0 <= w) ->
  0 <= run_value (_compute_from_rules fs files pkg rules)
    <= Py.sum (map snd rules).
Proof.
  intros Hd Hpos. unfold _compute_from_rules.
  set (tr := attributions fs pkg rules files (mkRun [] 0 0)).
  assert (Hhits : forall a entry v, In a tr -> hit a = Some (entry, v) ->
                                    In (entry, v) rules).
  { intros a entry v Hin Hhit. apply (hit_spec _ _ _ _ _ _ _ _ Hin Hhit). }
  rewrite run_value_trace. cbn [run_value]. fold tr.
  rewrite (weights_by_rule rules tr Hd Hhits), Z.add_0_l.
  split.
  - apply sum_map_nonneg. intros [R w] HR. cbn [fst].
    destruct (once_from_any_state fs pkg rules R w files Hd HR (mkRun [] 0 0))
      as [_ HcR].
    fold tr in HcR. rewrite HcR.
    specialize (Hpos R w HR). destruct (Nat.eqb _ 1); lia.
  - apply sum_map_le. intros [R w] HR. cbn [fst snd].
    destruct (once_from_any_state fs pkg rules R w files Hd HR (mkRun [] 0 0))
      as [_ HcR].
    fold tr in HcR. rewrite HcR.
    specialize (Hpos R w HR). destruct (Nat.eqb _ 1); lia.
Qed.

(** X1. The score of a run is bounded by the table: with the keys of
    the dictionary pairwise different and no negative weight, the value
    [_compute_from_rules] returns lies between 0 and the sum of the
    weights, and the count it returns between 0 and the number of
    rules. *)
Theorem score_bounded_by_table fs files pkg rules :
  keys_distinct rules = true ->
  (forall R w, In (R, w) rules -> 0 <= w) ->
  let st := _compute_from_rules fs files pkg rules in
  0 <= run_value st <= Py.sum (map snd rules) /\
  0 <= files_count st <= Z.of_nat (length rules).
Proof.
  intros Hd Hpos st. subst st. unfold _compute_from_rules.
  set (tr := attributions fs pkg rules files (mkRun [] 0 0)).
  assert (Hhits : forall a entry v, In a tr -> hit a = Some (entry, v) ->
                                    In (entry, v) rules).
  { intros a entry v Hin Hhit. apply (hit_spec _ _ _ _ _ _ _ _ Hin Hhit). }
  assert (Honce : forall R w, In (R, w) rules ->
                    (times_matched R tr <= 1)%nat /\
                    contribution R tr
                    = (if Nat.eqb (times_matched R tr) 1 then w else 0)).
  { intros R w HR.
    apply (once_from_any_state fs pkg rules R w files Hd HR). }
  split.
  - apply (run_value_bounds fs files pkg rules Hd Hpos).
  - rewrite files_count_trace. cbn [files_count]. fold tr.
    rewrite Z.add_0_l. split.
    + apply sum_map_nonneg. intros a _. destruct (hit_weight a =? 0); lia.
    + rewrite (by_rule (fun a => if hit_weight a =? 0 then 0 else 1)
                 rules tr Hd); [| | exact Hhits].
      * rewrite <- sum_map_const. apply sum_map_le. intros [R w] HR.
        cbn [fst]. pose proof (counted_per_rule R tr).
        destruct (Honce R w HR) as [Hle _]. lia.
      * intros a Hnone. unfold hit_weight. rewrite Hnone. reflexivity.
Qed.

Lemma score_bounded_by_table_witness :
  keys_distinct Schema.cheese_dirs = true /\
  (forall R w, In (R, w) Schema.cheese_dirs -> 0 <= w) /\
  let st :=
    _compute_from_rules Sample.fs ["doc"; "docs"; "tests"; "demo"] "pkg"
      Schema.cheese_dirs in
  0 <= run_value st <= Py.sum (map snd Schema.cheese_dirs) /\
  0 <= files_count st <= Z.of_nat (length Schema.cheese_dirs).
Proof.
  assert (Hpos : forall R w, In (R, w) Schema.cheese_dirs -> 0 <= w).
  { intros R w H. cbv [Schema.cheese_dirs] in H.
    repeat (destruct H as [[= _ <-] | H]; [lia |]). destruct H. }
  split; [reflexivity |]. split; [exact Hpos |].
  apply (score_bounded_by_table Sample.fs ["doc"; "docs"; "tests"; "demo"]
           "pkg" Schema.cheese_dirs); [reflexivity | exact Hpos].
Defined.

(** X2. Empty files and directories do not count: a candidate for which
    [is_empty] holds can be added to or taken out of the list at any
    place without changing the score, the count or the rules used. *)
Theorem empty_candidate_ignored fs pkg rules before f after :
  is_empty fs (PyStr.join pkg f) = true ->
  _compute_from_rules fs (before ++ f :: after) pkg rules
  = _compute_from_rules fs (before ++ after) pkg rules.
Proof.
  intros Hempty. unfold _compute_from_rules.
  rewrite !fold_left_app. cbn [fold_left].
  f_equal. unfold run_step. rewrite Hempty. reflexivity.
Qed.

Lemma empty_candidate_ignored_witness :
  is_empty Sample.fs (PyStr.join "pkg" "demo") = true /\
  _compute_from_rules Sample.fs (["doc"] ++ "demo" :: ["tests"]) "pkg"
    Schema.cheese_dirs
  = _compute_from_rules Sample.fs (["doc"] ++ ["tests"]) "pkg"
      Schema.cheese_dirs.
Proof.
  split; [reflexivity |].
  apply (empty_candidate_ignored Sample.fs "pkg" Schema.cheese_dirs
           ["doc"] "demo" ["tests"]).
  reflexivity.
Defined.

Lemma fold_run_extends fs pkg rules files :
  forall st,
    exists ext,
      run_used (fold_left (run_step fs pkg rules) files st)
      = run_used st ++ ext.
Proof.
  induction files as [| f files IH]; intros st; cbn [fold_left].
  - exists []. rewrite app_nil_r. reflexivity.
  - destruct (IH (run_step fs pkg rules st f)) as [ext Hext].
    destruct (run_step_extends fs pkg rules st f) as [ext0 Hext0].
    exists (ext0 ++ ext). rewrite Hext, Hext0, app_assoc. reflexivity.
Qed.

(** A rule that a candidate was attributed to is in [_used_rules] when
    the run ends. *)
Lemma attributed_in_final fs pkg rules R files :
  forall st a,
    In a (attributions fs pkg rules files st) ->
    attributed_to R a = true ->
    rule_in R (run_used (fold_left (run_step fs pkg rules) files st)) = true.
Proof.
  induction files as [| f files IH]; intros st a; cbn [attributions fold_left];
    [intros [] |].
  intros [<- | Hin] Hatt; [| apply (IH _ _ Hin Hatt)].
  unfold attributed_to in Hatt. cbn [hit] in Hatt.
  match type of Hatt with
  | match ?h with _ => _ end = true =>
      destruct h as [[entry v] |] eqn:Hhit; [| discriminate]
  end.
  destruct (attributed_then_used fs pkg rules st f entry v Hhit) as [Hused _].
  rewrite (rule_in_eqb _ _ _ Hatt) in Hused.
  destruct (fold_run_extends fs pkg rules files (run_step fs pkg rules st f))
    as [ext ->].
  apply rule_in_mono, Hused.
Qed.

(** X3. What [get_not_used] reports after a run: a rule it returns was
    matched by no candidate and added nothing to the score, and a rule
    that some candidate was attributed to is not returned. *)
Theorem not_used_rules_never_matched fs files pkg rules R :
  let st := _compute_from_rules fs files pkg rules in
  let tr := run_trace fs files pkg rules in
  (In R (get_not_used (run_used st) (map fst rules)) ->
   times_matched R tr = 0%nat /\ contribution R tr = 0) /\
  (forall a, In a tr -> attributed_to R a = true ->
             ~ In R (get_not_used (run_used st) (map fst rules))).
Proof.
  intros st tr. subst st tr. unfold run_trace, _compute_from_rules.
  assert (Hconv : forall a,
             In a (attributions fs pkg rules files (mkRun [] 0 0)) ->
             attributed_to R a = true ->
             ~ In R (get_not_used
                       (run_used (fold_left (run_step fs pkg rules) files
                                    (mkRun [] 0 0)))
                       (map fst rules))).
  { intros a Hin Hatt Hnot. unfold get_not_used in Hnot.
    apply filter_In in Hnot as [_ Hnot].
    rewrite (attributed_in_final _ _ _ _ _ _ _ Hin Hatt) in Hnot.
    discriminate. }
  split; [| exact Hconv].
  intros Hnot. apply not_attributed_zero. intros a Hin.
  destruct (attributed_to R a) eqn:Hatt; [| reflexivity].
  exfalso. apply (Hconv a Hin Hatt Hnot).
Qed.

(** The three unused directories of the doctest of [get_not_used], on
    a run that found only a documentation directory. *)
Example not_used_after_doc :
  get_not_used
    (run_used (_compute_from_rules Sample.fs ["doc"] "pkg" Schema.cheese_dirs))
    (map fst Schema.cheese_dirs)
  = [ OneOf 16 [RStr "test"; RStr "tests"];
      OneOf 17 [RStr "demo"; RStr "example"; RStr "examples"] ].
Proof. vm_compute. reflexivity. Qed.

Lemma not_used_rules_never_matched_witness :
  In (OneOf 16 [RStr "test"; RStr "tests"])
    (get_not_used
       (run_used
          (_compute_from_rules Sample.fs ["doc"] "pkg" Schema.cheese_dirs))
       (map fst Schema.cheese_dirs)) /\
  times_matched (OneOf 16 [RStr "test"; RStr "tests"])
    (run_trace Sample.fs ["doc"] "pkg" Schema.cheese_dirs) = 0%nat /\
  contribution (OneOf 16 [RStr "test"; RStr "tests"])
    (run_trace Sample.fs ["doc"] "pkg" Schema.cheese_dirs) = 0.
Proof.
  assert (Hin : In (OneOf 16 [RStr "test"; RStr "tests"])
                  (get_not_used
                     (run_used
                        (_compute_from_rules Sample.fs ["doc"] "pkg"
                           Schema.cheese_dirs))
                     (map fst Schema.cheese_dirs)))
    by (left; reflexivity).
  split; [exact Hin |].
  apply (not_used_rules_never_matched Sample.fs ["doc"] "pkg"
           Schema.cheese_dirs (OneOf 16 [RStr "test"; RStr "tests"])).
  exact Hin.
Defined.

(** ** Letter case *)

Lemma lower_char_idem c : PyStr.lower_char (PyStr.lower_char c) = PyStr.lower_char c.
Proof. destruct c as [[] [] [] [] [] [] [] []]; reflexivity. Qed.

Lemma upper_char_idem c : PyStr.upper_char (PyStr.upper_char c) = PyStr.upper_char c.
Proof. destruct c as [[] [] [] [] [] [] [] []]; reflexivity. Qed.

Lemma lower_upper_char c : PyStr.lower_char (PyStr.upper_char c) = PyStr.lower_char c.
Proof. destruct c as [[] [] [] [] [] [] [] []]; reflexivity. Qed.

Lemma upper_lower_char c : PyStr.upper_char (PyStr.lower_char c) = PyStr.upper_char c.
Proof. destruct c as [[] [] [] [] [] [] [] []]; reflexivity. Qed.

Lemma lower_idem s : PyStr.lower (PyStr.lower s) = PyStr.lower s.
Proof.
  induction s as [| c s IH]; [reflexivity |].
  cbn [PyStr.lower]. rewrite lower_char_idem, IH. reflexivity.
Qed.

Lemma upper_idem s : PyStr.upper (PyStr.upper s) = PyStr.upper s.
Proof.
  induction s as [| c s IH]; [reflexivity |].
  cbn [PyStr.upper]. rewrite upper_char_idem, IH. reflexivity.
Qed.

Lemma lower_upper s : PyStr.lower (PyStr.upper s) = PyStr.lower s.
Proof.
  induction s as [| c s IH]; [reflexivity |].
  cbn [PyStr.lower PyStr.upper]. rewrite lower_upper_char, IH. reflexivity.
Qed.

Lemma lower_capitalize s : PyStr.lower (PyStr.capitalize s) = PyStr.lower s.
Proof.
  destruct s as [| c s]; [reflexivity |].
  cbn [PyStr.capitalize PyStr.lower].
  rewrite lower_upper_char, lower_idem. reflexivity.
Qed.

Lemma capitalize_idem s :
  PyStr.capitalize (PyStr.capitalize s) = PyStr.capitalize s.
Proof.
  destruct s as [| c s]; [reflexivity |].
  cbn [PyStr.capitalize]. rewrite upper_char_idem, lower_idem. reflexivity.
Qed.

Lemma str_in_In x L : PyStr.str_in x L = true -> In x L.
Proof.
  unfold PyStr.str_in. intros H. apply existsb_exists in H as (y & Hy & E).
  apply String.eqb_eq in E. subst y. exact Hy.
Qed.

Lemma equal_ignores_rule_case x y :
  equal x (PyStr.upper y) = equal x y /\
  equal x (PyStr.lower y) = equal x y /\
  equal x (PyStr.capitalize y) = equal x y.
Proof.
  unfold equal.
  rewrite lower_upper, lower_idem, lower_capitalize. auto.
Qed.

Lemma match_unused_recased name f :
  (forall x y, equal x (f y) = equal x y) ->
  forall rule used,
    RulesAux.untouched used rule = true ->
    RulesAux.untouched used (RulesAux.recase f rule) = true ->
    fst (match_filename name (RulesAux.recase f rule) used)
    = fst (match_filename name rule used).
Proof.
  intros Hf.
  induction rule as [s | oid ps IH] using Rule_nested_ind;
    intros used Hu Hu'; cbn [RulesAux.recase RulesAux.untouched] in *;
    apply andb_true_iff in Hu as [Hin Hps];
    apply andb_true_iff in Hu' as [Hin' Hps'];
    apply negb_true_iff in Hin, Hin';
    rewrite !match_filename_eq, Hin, Hin'.
  - rewrite Hf. destruct (equal name s); reflexivity.
  - generalize (ROneOf oid (map (RulesAux.recase f) ps)) as R'.
    generalize (ROneOf oid ps) as R. intros R R'.
    induction ps as [| p ps IHps]; [reflexivity |].
    cbn [map try_each forallb] in *.
    apply andb_true_iff in Hps as [Hp Hps].
    apply andb_true_iff in Hps' as [Hp' Hps'].
    apply Forall_cons_1 in IH as [IHp IH].
    specialize (IHp used Hp Hp').
    destruct (match_filename name p used) as [b u] eqn:E.
    destruct (match_filename name (RulesAux.recase f p) used)
      as [b' u'] eqn:E'.
    cbn [fst] in IHp. subst b'.
    destruct b; [reflexivity |].
    destruct (match_filename_spec _ _ _ _ _ E) as [Hu _].
    destruct (match_filename_spec _ _ _ _ _ E') as [Hu' _].
    rewrite (Hu eq_refl), (Hu' eq_refl).
    apply IHps; assumption.
Qed.

(** X4. The letter case of a rule does not matter while it is unused:
    when neither the rule nor a possibility inside it is in
    [_used_rules], as written and as rewritten in upper case, in lower
    case or capitalized, the rewritten rule matches exactly the names
    the rule as written matches.  In particular for the first file of a
    run.  (The list of used rules is compared letter by letter: see
    [used_rules_keep_case].) *)
Theorem unused_rule_case_is_irrelevant name f rule used :
  f = PyStr.upper \/ f = PyStr.lower \/ f = PyStr.capitalize ->
  RulesAux.untouched used rule = true ->
  RulesAux.untouched used (RulesAux.recase f rule) = true ->
  fst (match_filename name (RulesAux.recase f rule) used)
  = fst (match_filename name rule used).
Proof.
  intros Hf. apply match_unused_recased.
  intros x y. destruct (equal_ignores_rule_case x y) as (Hu & Hl & Hc).
  destruct Hf as [-> | [-> | ->]]; assumption.
Qed.

Lemma unused_rule_case_is_irrelevant_witness :
  (PyStr.upper = PyStr.upper \/ PyStr.upper = PyStr.lower
   \/ PyStr.upper = PyStr.capitalize) /\
  RulesAux.untouched [RStr "readme"] Sample.doc_or_docs = true /\
  RulesAux.untouched [RStr "readme"]
    (RulesAux.recase PyStr.upper Sample.doc_or_docs) = true /\
  fst (match_filename "Docs"
         (RulesAux.recase PyStr.upper Sample.doc_or_docs) [RStr "readme"])
  = fst (match_filename "Docs" Sample.doc_or_docs [RStr "readme"]).
Proof.
  split; [left; reflexivity |]. split; [reflexivity |].
  split; [reflexivity |].
  apply (unused_rule_case_is_irrelevant "Docs" PyStr.upper
           Sample.doc_or_docs [RStr "readme"]);
    [left; reflexivity | reflexivity | reflexivity].
Defined.

(** Once a rule is used its letter case matters: after the file [doc]
    has used the rule ["doc"], the same file does not match it again
    but matches the rule ["DOC"]. *)
Example used_rules_keep_case :
  fst (match_filename "doc" (RStr "doc") [RStr "doc"]) = false /\
  fst (match_filename "doc" (RStr "DOC") [RStr "doc"]) = true.
Proof. split; reflexivity. Qed.

(** X5. The casings [equal] accepts: a name that matches a rule has its
    base name all in lower case, all in upper case or capitalized, and
    its extension all in lower case or all in upper case; a name in
    mixed case such as [ReAdMe] matches no rule. *)
Theorem matching_name_casing x y :
  equal x y = true ->
  let '(x_root, x_ext) := PyStr.splitext x in
  (x_root = PyStr.lower x_root \/ x_root = PyStr.upper x_root
   \/ x_root = PyStr.capitalize x_root) /\
  (x_ext = PyStr.lower x_ext \/ x_ext = PyStr.upper x_ext).
Proof.
  unfold equal.
  destruct (PyStr.splitext x) as [x_root x_ext].
  destruct (PyStr.splitext (PyStr.lower y)) as [y_root y_ext].
  intros H. apply andb_true_iff in H as [Hr He].
  apply str_in_In in Hr. apply str_in_In in He.
  split.
  - destruct Hr as [<- | [<- | [<- | []]]].
    + left. rewrite lower_idem. reflexivity.
    + right. left. rewrite upper_idem. reflexivity.
    + right. right. rewrite capitalize_idem. reflexivity.
  - destruct He as [<- | [<- | []]].
    + left. rewrite lower_idem. reflexivity.
    + right. rewrite upper_idem. reflexivity.
Qed.

Lemma matching_name_casing_witness :
  equal "README.txt" "readme.txt" = true /\
  ("README" = PyStr.lower "README" \/ "README" = PyStr.upper "README"
   \/ "README" = PyStr.capitalize "README") /\
  (".txt" = PyStr.lower ".txt" \/ ".txt" = PyStr.upper ".txt").
Proof.
  split; [reflexivity |].
  apply (matching_name_casing "README.txt" "readme.txt").
  reflexivity.
Defined.

End RulesMore.

(** * More properties of the index tree *)
Module TreeMore.
Import Py Tree TreeFacts.

Lemma decide_each_kept when c l :
  (forall x, In x l -> decide when c x = Ok (x, true)) ->
  decide_each when c l = Ok l.
Proof.
  induction l as [| a l IH]; intros H; [reflexivity |].
  cbn [decide_each]. rewrite (H a) by (left; reflexivity).
  rewrite IH by (intros x Hx; apply H; right; exact Hx).
  reflexivity.
Qed.

(** [decide] keeps the names of the tree in their order and leaves some
    out. *)
Lemma decide_names_sublist when c t :
  forall t1 b,
    decide when c t = Ok (t1, b) ->
    map index_name (nodes t1) `sublist_of` map index_name (nodes t).
Proof.
  induction t as [cls st subs IH] using Index_nested_ind.
  rewrite List.Forall_forall in IH.
  intros t1 b. rewrite decide_eq.
  destruct (cls_decide when cls) as [decision |].
  - destruct (decision c) as [b0 | e]; [| discriminate].
    cbn [mbind result_bind]. intros [= <- _]. reflexivity.
  - destruct subs as [| s0 subs0]; [intros [= <- _]; reflexivity |].
    destruct (decide_each when c (s0 :: subs0)) as [subs' | e] eqn:Heach;
      [| discriminate].
    cbn [mbind result_bind]. intros [= <- _].
    cbn [nodes map]. apply sublist_skip.
    revert subs' Heach IH. generalize (s0 :: subs0) as l. clear.
    induction l as [| a l IHl]; intros subs' Heach IH.
    + cbn in Heach. injection Heach as <-. reflexivity.
    + cbn [decide_each] in Heach.
      destruct (decide when c a) as [[a' keep] | e] eqn:Ha; [| discriminate].
      destruct (decide_each when c l) as [rest | e] eqn:Hl; [| discriminate].
      cbn [mbind result_bind] in Heach. injection Heach as <-.
      assert (Hrest : map index_name (flat_map nodes rest)
                      `sublist_of` map index_name (flat_map nodes l)).
      { apply IHl; [reflexivity |].
        intros x Hx. apply IH. right. exact Hx. }
      cbn [flat_map]. rewrite map_app.
      destruct keep.
      * cbn [flat_map]. rewrite map_app. apply sublist_app; [| exact Hrest].
        apply (IH a (or_introl eq_refl) _ _ Ha).
      * apply sublist_inserts_l. exact Hrest.
Qed.

(** X7. Deciding is idempotent on the tree: with the names of the tree
    pairwise different, an index that has been through [decide] still
    has pairwise different names, loses nothing when the same decision
    is asked again, and is accepted again if it was accepted.  (An
    index that was rejected because it lost all its subindices is
    accepted the second time: [Index.decide] returns [True] for an
    index without subindices.) *)
Theorem decide_again_removes_nothing when c t :
  NoDup (map index_name (nodes t)) ->
  forall t1 b,
    decide when c t = Ok (t1, b) ->
    NoDup (map index_name (nodes t1)) /\
    exists b', decide when c t1 = Ok (t1, b') /\ (b = true -> b' = true).
Proof.
  intros Hnd t1 b Hd. split.
  - eapply sublist_NoDup; [exact Hnd | apply (decide_names_sublist _ _ _ _ _ Hd)].
  - clear Hnd. revert t1 b Hd.
    induction t as [cls st subs IH] using Index_nested_ind.
    rewrite List.Forall_forall in IH.
    intros t1 b. rewrite decide_eq.
    destruct (cls_decide when cls) as [decision |] eqn:Hcls.
    + destruct (decision c) as [b0 | e] eqn:Hdec; [| discriminate].
      cbn [mbind result_bind]. intros [= <- <-].
      exists b0. rewrite decide_eq, Hcls, Hdec. split; [reflexivity | auto].
    + destruct subs as [| s0 subs0].
      * intros [= <- <-]. exists true. rewrite decide_eq, Hcls.
        split; [reflexivity | auto].
      * destruct (decide_each when c (s0 :: subs0)) as [subs' | e] eqn:Heach;
          [| discriminate].
        cbn [mbind result_bind]. intros [= <- <-].
        exists true. split; [| auto].
        rewrite decide_eq, Hcls.
        destruct subs' as [| s1 subs1]; [reflexivity |].
        rewrite decide_each_kept; [reflexivity |].
        intros x' Hx'.
        destruct (decide_each_survivors _ _ _ _ _ Heach Hx') as (x & Hx & Hd).
        destruct (IH x Hx _ _ Hd) as (b' & Hb' & Htrue).
        rewrite Hb', (Htrue eq_refl). reflexivity.
Qed.

Lemma decide_again_removes_nothing_witness :
  NoDup (map index_name (nodes Sample.index)) /\
  match decide before_download Sample.local_run Sample.index with
  | Ok (t1, b) =>
      NoDup (map index_name (nodes t1)) /\
      exists b', decide before_download Sample.local_run t1 = Ok (t1, b')
                 /\ (b = true -> b' = true)
  | Raise _ => False
  end.
Proof.
  assert (Hnd : NoDup (map index_name (nodes Sample.index))).
  { apply (bool_decide_unpack _). vm_compute. reflexivity. }
  split; [exact Hnd |].
  destruct (decide before_download Sample.local_run Sample.index)
    as [[t1 b] | e] eqn:Hd.
  - apply (decide_again_removes_nothing before_download Sample.local_run
             Sample.index Hnd t1 b Hd).
  - assert (Hok : is_ok (decide before_download Sample.local_run Sample.index)
                  = true) by (vm_compute; reflexivity).
    rewrite Hd in Hok. discriminate Hok.
Defined.

(** In quiet mode the values yielded are the values of the subindices
    that are left, and those are the subindices that did not raise. *)
Lemma _iter_indices_quiet c l :
  quiet c = true ->
  snd (_iter_indices c l) = map index_value (fst (_iter_indices c l)) /\
  forall x x' v, In x l -> compute_with c x = (x', Ok v) ->
                 In x' (fst (_iter_indices c l)).
Proof.
  intros Hq. induction l as [| a l [IH1 IH2]]; [split; [reflexivity | intros ? ? ? []] |].
  cbn [_iter_indices].
  destruct (compute_with c a) as [a' [v | e]] eqn:Ha.
  - unfold printed. rewrite Hq. cbn [orb].
    destruct (_iter_indices c l) as [s ys]. cbn [fst snd] in *.
    split.
    + cbn [map]. rewrite (compute_with_value _ _ _ _ Ha), IH1. reflexivity.
    + intros x x' w [<- | Hx] Hc.
      * rewrite Ha in Hc. injection Hc as <- _. left. reflexivity.
      * right. apply (IH2 x x' w Hx Hc).
  - split; [exact IH1 |].
    intros x x' w [<- | Hx] Hc.
    + rewrite Ha in Hc. discriminate.
    + apply (IH2 x x' w Hx Hc).
Qed.

(** X8. The default [compute], for any number of subindices and a
    quiet [Cheesecake]: the call returns, the value it returns and
    stores is the sum of the values of the subindices that are left,
    and those are exactly the subindices whose [compute_with]
    returned. *)
Theorem container_value_is_sum c cls st subs :
  quiet c = true ->
  cls_compute cls = None ->
  exists t',
    compute_with c (Node cls st subs) = (t', Ok (index_value t')) /\
    index_value t' = sum (map index_value (subindices t')) /\
    (forall x', In x' (subindices t') ->
                exists x v, In x subs /\ compute_with c x = (x', Ok v)) /\
    (forall x x' v, In x subs -> compute_with c x = (x', Ok v) ->
                    In x' (subindices t')).
Proof.
  intros Hq Hcls.
  rewrite (default_compute_returns _ _ _ _ Hcls).
  destruct (_iter_indices_quiet c subs Hq) as [Hys Hall].
  match goal with
  | |- exists t', (?X, _) = _ /\ _ => exists X
  end.
  split; [reflexivity |].
  cbn [subindices]. split; [| split].
  - unfold index_value at 1. cbn [st_of set_value value]. rewrite Hys.
    reflexivity.
  - intros x' Hx'. apply (_iter_indices_survivors _ _ _ Hx').
  - exact Hall.
Qed.

Lemma container_value_is_sum_witness :
  quiet Sample.cheesecake = true /\
  cls_compute Sample.PlainIndex = None /\
  exists t',
    compute_with Sample.cheesecake
      (Node Sample.PlainIndex fresh
         [ Node Schema.IndexUnpack fresh [];
           Node Sample.BadIndex fresh [];
           Node Schema.IndexInstall fresh [];
           Node Schema.IndexUnpackDir fresh [] ])
    = (t', Ok (index_value t')) /\
    index_value t' = sum (map index_value (subindices t')) /\
    (forall x', In x' (subindices t') ->
       exists x v,
         In x [ Node Schema.IndexUnpack fresh [];
                Node Sample.BadIndex fresh [];
                Node Schema.IndexInstall fresh [];
                Node Schema.IndexUnpackDir fresh [] ]
         /\ compute_with Sample.cheesecake x = (x', Ok v)) /\
    (forall x x' v,
       In x [ Node Schema.IndexUnpack fresh [];
              Node Sample.BadIndex fresh [];
              Node Schema.IndexInstall fresh [];
              Node Schema.IndexUnpackDir fresh [] ] ->
       compute_with Sample.cheesecake x = (x', Ok v) ->
       In x' (subindices t')).
Proof.
  split; [reflexivity |]. split; [reflexivity |].
  apply (container_value_is_sum Sample.cheesecake Sample.PlainIndex fresh);
    reflexivity.
Defined.

(** X9. The dictionary of [get_attributes]: its keys are the names
    asked for, each with the attribute of the object or with [None]
    when the object has no such attribute; no other key is in it. *)
Theorem get_attributes_keys c names name :
  get_attributes c names !! name =
  if PyStr.str_in name names
  then Some (if hasattr c name then getattr_default c name else PyNone)
  else None.
Proof.
  destruct (PyStr.str_in name names) eqn:Hin.
  - apply TreeFacts.str_in_In' in Hin.
    rewrite (get_attributes_lookup _ _ _ Hin).
    destruct (hasattr c name) eqn:Hh; [reflexivity |].
    rewrite (getattr_default_missing _ _ Hh). reflexivity.
  - unfold get_attributes.
    assert (Hgen : forall acc : gmap string PyVal,
               acc !! name = None ->
               fold_left
                 (fun attrs n => <[n := getattr_default c n]> attrs) names acc
               !! name = None).
    { unfold PyStr.str_in in Hin. induction names as [| n names IH];
        intros acc Hacc; cbn [fold_left]; [exact Hacc |].
      cbn [existsb] in Hin. apply orb_false_iff in Hin as [Hn Hin].
      apply IH; [exact Hin |].
      rewrite lookup_insert_ne; [exact Hacc |].
      intros ->. rewrite String.eqb_refl in Hn. discriminate. }
    apply Hgen. apply lookup_empty.
Qed.

(** X10. Requirements never grow: after any sequence of decisions and
    computations every name [requirements] returns was returned
    before. *)
Theorem requirements_never_grow ops t t' :
  run_ops ops t = Ok t' ->
  forall r, In r (requirements t') -> In r (requirements t).
Proof.
  intros Hrun r Hr.
  apply requirements_nodes in Hr as (n' & Hn' & Hr).
  destruct (run_ops_shrinks _ _ _ Hrun _ Hn') as (n & Hn & E).
  apply requirements_nodes. exists n. split; [exact Hn |].
  rewrite <- E. exact Hr.
Qed.

Lemma requirements_never_grow_witness :
  match run_ops Sample.whole_run Sample.index with
  | Ok t' =>
      forall r, In r (requirements t') -> In r (requirements Sample.index)
  | Raise _ => False
  end.
Proof.
  destruct (run_ops Sample.whole_run Sample.index) as [t' | e] eqn:Hrun.
  - apply (requirements_never_grow Sample.whole_run Sample.index t' Hrun).
  - assert (Hok : is_ok (run_ops Sample.whole_run Sample.index) = true)
      by (vm_compute; reflexivity).
    rewrite Hrun in Hok. discriminate Hok.
Defined.

Lemma Step_decide_iff provides index :
  Steps.Step_decide provides index = true <->
  exists n p, In n (nodes index) /\ In p provides
              /\ In p (_compute_arguments (cls_of n)).
Proof.
  unfold Steps.Step_decide. rewrite existsb_exists. split.
  - intros (p & Hp & Hin). apply str_in_In' in Hin.
    apply requirements_nodes in Hin as (n & Hn & Hpn).
    exists n, p. auto.
  - intros (n & p & Hn & Hp & Hpn). exists p. split; [exact Hp |].
    apply In_str_in, requirements_nodes. exists n. auto.
Qed.

(** X11. When a step is run: a [StepByVariable] whose variable is true
    on the [Cheesecake] is run; any other step is run exactly when some
    index that is in the tree takes one of the variables the step
    provides as an argument of its [compute]. *)
Theorem step_runs_iff_needed step c index :
  Steps.step_decide step c index = true <->
  (exists name, Steps.variable_name step = Some name
                /\ truthy (getattr_default c name) = true)
  \/ exists n p, In n (nodes index) /\ In p (Steps.provides step)
                 /\ In p (_compute_arguments (cls_of n)).
Proof.
  unfold Steps.step_decide.
  destruct (Steps.variable_name step) as [name |].
  - destruct (truthy (getattr_default c name)) eqn:Ht.
    + split; [| reflexivity]. intros _. left. exists name. auto.
    + rewrite Step_decide_iff. split; [intros H; right; exact H |].
      intros [(name' & [= <-] & Ht') | H]; [congruence | exact H].
  - rewrite Step_decide_iff. split; [intros H; right; exact H |].
    intros [(name' & Hname & _) | H]; [discriminate | exact H].
Qed.

(** X12. A step that is skipped stays skipped: when no index of the
    tree needs what a plain [Step] provides, no index needs it after
    any sequence of decisions and computations. *)
Theorem skipped_step_stays_skipped provides ops t t' :
  run_ops ops t = Ok t' ->
  Steps.Step_decide provides t = false ->
  Steps.Step_decide provides t' = false.
Proof.
  intros Hrun Hskip. apply not_true_iff_false. intros Hrun'.
  apply not_true_iff_false in Hskip. apply Hskip.
  apply Step_decide_iff in Hrun' as (n' & p & Hn' & Hp & Hpn).
  destruct (run_ops_shrinks _ _ _ Hrun _ Hn') as (n & Hn & E).
  apply Step_decide_iff. exists n, p. split; [exact Hn |].
  split; [exact Hp |]. rewrite <- E. exact Hpn.
Qed.

Lemma skipped_step_stays_skipped_witness :
  Steps.Step_decide ["sandbox_pkg_dir"] Sample.index = false /\
  match run_ops Sample.whole_run Sample.index with
  | Ok t' => Steps.Step_decide ["sandbox_pkg_dir"] t' = false
  | Raise _ => False
  end.
Proof.
  assert (Hskip : Steps.Step_decide ["sandbox_pkg_dir"] Sample.index = false)
    by (vm_compute; reflexivity).
  split; [exact Hskip |].
  destruct (run_ops Sample.whole_run Sample.index) as [t' | e] eqn:Hrun.
  - apply (skipped_step_stays_skipped ["sandbox_pkg_dir"] Sample.whole_run
             Sample.index t' Hrun Hskip).
  - assert (Hok : is_ok (run_ops Sample.whole_run Sample.index) = true)
      by (vm_compute; reflexivity).
    rewrite Hrun in Hok. discriminate Hok.
Defined.

(** On the sample run (no name, no URL) the decision before the
    download leaves no index that needs what [get_pkg_from_pypi]
    provides: the step is skipped. *)
Example pypi_step_skipped :
  (Steps.run_step "get_pkg_from_pypi" Sample.local_run Sample.index,
   match decide before_download Sample.local_run Sample.index with
   | Ok (t1, _) => Steps.run_step "get_pkg_from_pypi" Sample.local_run t1
   | Raise e => Raise e
   end,
   Steps.run_step "no_such_step" Sample.local_run Sample.index)
  = (Ok true, Ok false, Raise KeyError).
Proof. vm_compute. reflexivity. Qed.

End TreeMore.

(** * Properties of file names and of the leaf indices *)
Module LeavesFacts.
Import Py Tree TreeFacts Files Leaves.

(** The doctests of [discover_file_type] and [has_extension]. *)
Example discover_file_type_doctests :
  map discover_file_type
    [ "module.py"; "./setup.py"; "some/directory/junk.pyc";
      "examples/readme.txt"; "examples/runthis.py"; "optimized.pyo";
      "ut/test_this_and_that.py"; "another_test.py"; "TEST_MY_MODULE.PY";
      "this_is_not_a_test_really.py" ]
  = [ Some module; Some special; Some pyc; None; Some demo; Some pyo;
      Some test; Some test; Some test; Some module ].
Proof. vm_compute. reflexivity. Qed.

Example has_extension_doctests :
  map (fun f => has_extension f ".py")
    ["foobar.py"; "foo.bar.py"; "foobar.pyc"; "FOOBAR.PY"]
  = [true; true; false; true].
Proof. vm_compute. reflexivity. Qed.

Example get_files_of_type_doctest :
  get_files_of_type
    ["test/test_foo.py"; "setup.py"; "README"; "test/test_bar.py"] test
  = ["test/test_foo.py"; "test/test_bar.py"].
Proof. vm_compute. reflexivity. Qed.

(** X13. [has_extension] is case insensitive, as its docstring says:
    neither the case of the file name nor that of the extension asked
    for changes the answer. *)
Theorem has_extension_case_insensitive filename ext :
  has_extension (PyStr.upper filename) ext = has_extension filename ext /\
  has_extension (PyStr.lower filename) ext = has_extension filename ext /\
  has_extension filename (PyStr.upper ext) = has_extension filename ext.
Proof.
  unfold has_extension.
  rewrite !RulesMore.lower_upper, RulesMore.lower_idem. auto.
Qed.

Lemma special_not_compiled name ext :
  PyStr.str_in name ["setup.py"; "ez_setup.py"; "__pkginfo__.py"] = true ->
  ext = ".pyc" \/ ext = ".pyo" ->
  has_extension name ext = false.
Proof.
  intros H Hext. apply str_in_In' in H.
  destruct H as [<- | [<- | [<- | []]]]; destruct Hext as [-> | ->];
    reflexivity.
Qed.

(** A file is of type [pyc] or [pyo] exactly when the last component of
    its name has that extension. *)
Lemma compiled_iff_extension f :
  let name := List.last (split_on "/" f) EmptyString in
  (match discover_file_type f with
   | Some t => FileType_eqb t pyc
   | None => false
   end = has_extension name ".pyc") /\
  (match discover_file_type f with
   | Some t => FileType_eqb t pyo
   | None => false
   end = has_extension name ".pyo").
Proof.
  intros name. unfold discover_file_type. fold name.
  destruct (PyStr.str_in name ["setup.py"; "ez_setup.py"; "__pkginfo__.py"])
    eqn:Hs.
  - rewrite (special_not_compiled name ".pyc" Hs) by auto.
    rewrite (special_not_compiled name ".pyo" Hs) by auto.
    split; reflexivity.
  - destruct (has_extension name ".pyc") eqn:Hc.
    + split; [reflexivity |].
      unfold has_extension in Hc |- *. apply String.eqb_eq in Hc.
      rewrite Hc. reflexivity.
    + destruct (has_extension name ".pyo") eqn:Ho; [split; reflexivity |].
      destruct (has_extension name ".py"); [| split; reflexivity].
      destruct (type_of_dirs (removelast (split_on "/" f))) as [t |] eqn:Ht.
      * assert (t = test \/ t = demo) as [-> | ->]; [| split; reflexivity ..].
        clear - Ht. induction (removelast (split_on "/" f)) as [| d ds IH];
          [discriminate |].
        cbn [type_of_dirs] in Ht.
        destruct (PyStr.str_in d ["test"; "tests"]);
          [injection Ht as <-; auto |].
        destruct (PyStr.str_in d ["doc"; "docs"; "demo"; "example"; "examples"]);
          [injection Ht as <-; auto | exact (IH Ht)].
      * destruct (startswith (PyStr.lower name) "test_"
                  || endswith (PyStr.lower (fst (PyStr.splitext name))) "_test");
          split; reflexivity.
Qed.

Lemma filter_nonempty_iff {A : Type} (p : A -> bool) (l : list A) :
  (0 <? Z.of_nat (length (List.filter p l))) = existsb p l.
Proof.
  induction l as [| x l IH]; [reflexivity |].
  cbn [List.filter existsb]. destruct (p x); [| exact IH].
  cbn [length orb]. apply Z.ltb_lt. lia.
Qed.

Lemma existsb_either {A : Type} (p q : A -> bool) (l : list A) :
  existsb p l || existsb q l = existsb (fun x => p x || q x) l.
Proof.
  induction l as [| x l IH]; [reflexivity |].
  cbn [existsb]. rewrite <- IH.
  destruct (p x), (q x), (existsb p l), (existsb q l); reflexivity.
Qed.

(** X14. The penalty of [IndexGeneratedFiles]: over the files it is
    given, the value is [-20] when the last component of some name has
    the extension [.pyc] or [.pyo], in any letter case and in any
    directory, and 0 otherwise; it is one penalty however many such
    files there are, and the value is never above [max_value], which
    is 0. *)
Theorem generated_files_penalty kw st files :
  iterate (Schema.arg kw "files_list") = Ok files ->
  exists st',
    compute_IndexGeneratedFiles kw st = Ok st' /\
    value st' =
      (if existsb
            (fun f =>
               has_extension (List.last (split_on "/" f) EmptyString) ".pyc"
               || has_extension (List.last (split_on "/" f) EmptyString) ".pyo")
            files
       then -20 else 0) /\
    value st' <= 0.
Proof.
  intros Hit. unfold compute_IndexGeneratedFiles. rewrite Hit.
  cbn [mbind result_bind]. eexists. split; [reflexivity |].
  cbn [value]. unfold get_files_of_type. rewrite !filter_nonempty_iff.
  rewrite existsb_either.
  assert (Hext : forall l,
             existsb
               (fun f =>
                  match discover_file_type f with
                  | Some t => FileType_eqb t pyc
                  | None => false
                  end
                  || match discover_file_type f with
                     | Some t => FileType_eqb t pyo
                     | None => false
                     end) l
             = existsb
                 (fun f =>
                    has_extension (List.last (split_on "/" f) EmptyString) ".pyc"
                    || has_extension (List.last (split_on "/" f) EmptyString)
                         ".pyo") l).
  { induction l as [| f l IH]; [reflexivity |].
    cbn [existsb]. rewrite IH.
    destruct (compiled_iff_extension f) as [-> ->]. reflexivity. }
  rewrite Hext.
  destruct (existsb _ files); split; cbn; lia || reflexivity.
Qed.

Lemma generated_files_penalty_witness :
  iterate
    (Schema.arg
       {[ "files_list" := PyList ["pkg/a.py"; "pkg/sub/a.PYC"; "pkg/b.pyo"] ]}
       "files_list")
  = Ok ["pkg/a.py"; "pkg/sub/a.PYC"; "pkg/b.pyo"] /\
  exists st',
    compute_IndexGeneratedFiles
      {[ "files_list" := PyList ["pkg/a.py"; "pkg/sub/a.PYC"; "pkg/b.pyo"] ]}
      fresh = Ok st' /\
    value st' =
      (if existsb
            (fun f =>
               has_extension (List.last (split_on "/" f) EmptyString) ".pyc"
               || has_extension (List.last (split_on "/" f) EmptyString) ".pyo")
            ["pkg/a.py"; "pkg/sub/a.PYC"; "pkg/b.pyo"]
       then -20 else 0) /\
    value st' <= 0.
Proof.
  split; [reflexivity |].
  apply (generated_files_penalty
           {[ "files_list" := PyList ["pkg/a.py"; "pkg/sub/a.PYC"; "pkg/b.pyo"] ]}
           fresh).
  reflexivity.
Defined.

Example generated_files_details :
  compute_IndexGeneratedFiles
    {[ "files_list" := PyList ["pkg/a.py"; "pkg/sub/a.PYC"; "pkg/b.pyo"] ]}
    fresh
  = Ok (mkAttrs (-20) "1 .pyc and 1 .pyo files found").
Proof. vm_compute. reflexivity. Qed.

(** ** No value above [max_value] *)

Lemma weights_nonneg (rules : list (Rules.Rule * Z)) :
  forallb (fun p => 0 <=? snd p) rules = true ->
  forall R w, In (R, w) rules -> 0 <= w.
Proof.
  intros H R w Hin. rewrite forallb_forall in H.
  apply Z.leb_le. apply (H (R, w) Hin).
Qed.

Lemma compute_from_rules_bounds fs files_list package_dir rules cnt v :
  Rules.keys_distinct rules = true ->
  forallb (fun p => 0 <=? snd p) rules = true ->
  Schema.compute_from_rules fs files_list package_dir rules = Ok (cnt, v) ->
  0 <= v <= sum (map snd rules).
Proof.
  intros Hd Hpos. pose proof (weights_nonneg rules Hpos) as Hw.
  unfold Schema.compute_from_rules.
  destruct (iterate files_list) as [files | e]; [| discriminate].
  cbn [mbind result_bind].
  destruct package_dir as [| | | dir |];
    try (destruct (forallb PyStr.startswith_sep files); [| discriminate]);
    intros [= _ <-]; apply RulesMore.run_value_bounds; assumption.
Qed.

Lemma greater_than_0_number v n :
  greater_than v 0 = true -> as_number v = Ok n -> 1 <= n.
Proof.
  destruct v as [| b | z | s | l]; cbn; try discriminate.
  - destruct b; [intros _ [= <-]; lia | discriminate].
  - intros H [= <-]. apply Z.ltb_lt in H. lia.
Qed.

Lemma IndexUrlDownload_bounds kw st st' :
  Schema.compute_IndexUrlDownload kw st = Ok st' -> 0 <= value st' <= 25.
Proof.
  unfold Schema.compute_IndexUrlDownload.
  destruct (truthy _); intros [= <-]; cbn [value]; lia.
Qed.

Lemma IndexUnpack_bounds kw st st' :
  Schema.compute_IndexUnpack kw st = Ok st' -> 0 <= value st' <= 25.
Proof.
  unfold Schema.compute_IndexUnpack.
  destruct (truthy _); intros [= <-]; cbn [value]; lia.
Qed.

Lemma IndexUnpackDir_bounds kw st st' :
  Schema.compute_IndexUnpackDir kw st = Ok st' -> 0 <= value st' <= 15.
Proof.
  unfold Schema.compute_IndexUnpackDir.
  destruct (Schema.concat_str _ _) as [d | e]; [| discriminate].
  cbn [mbind result_bind].
  destruct (truthy _).
  - destruct (Schema.concat_str _ _) as [d' | e]; [| discriminate].
    cbn [mbind result_bind]. intros [= <-]; cbn [value]; lia.
  - intros [= <-]; cbn [value]; lia.
Qed.

Lemma IndexInstall_bounds kw st st' :
  Schema.compute_IndexInstall kw st = Ok st' -> 0 <= value st' <= 50.
Proof.
  unfold Schema.compute_IndexInstall.
  destruct (truthy _); intros [= <-]; cbn [value]; lia.
Qed.

Lemma IndexSetupPy_bounds fs kw st st' :
  Schema.compute_IndexSetupPy fs kw st = Ok st' -> 0 <= value st' <= 25.
Proof.
  unfold Schema.compute_IndexSetupPy.
  destruct (Schema.compute_from_rules _ _ _ _) as [[cnt v] | e] eqn:H;
    [| discriminate].
  cbn [mbind result_bind]. intros [= <-]. cbn [value].
  pose proof (compute_from_rules_bounds fs _ _ Schema.files_rules cnt v
                eq_refl eq_refl H) as B.
  assert (E : sum (map snd Schema.files_rules) = 25) by reflexivity.
  rewrite E in B. exact B.
Qed.

Lemma IndexRequiredFiles_bounds fs kw st st' :
  Schema.compute_IndexRequiredFiles fs kw st = Ok st' ->
  0 <= value st'
    <= sum (map snd Schema.cheese_files ++ map snd Schema.cheese_dirs).
Proof.
  unfold Schema.compute_IndexRequiredFiles.
  destruct (Schema.compute_from_rules _ _ _ Schema.cheese_files)
    as [[fc fv] | e] eqn:Hf; [| discriminate].
  cbn [mbind result_bind].
  destruct (Schema.compute_from_rules _ _ _ Schema.cheese_dirs)
    as [[dc dv] | e] eqn:Hd; [| discriminate].
  cbn [mbind result_bind]. intros [= <-]. cbn [value].
  pose proof (compute_from_rules_bounds fs _ _ Schema.cheese_files fc fv
                eq_refl eq_refl Hf) as Bf.
  pose proof (compute_from_rules_bounds fs _ _ Schema.cheese_dirs dc dv
                eq_refl eq_refl Hd) as Bd.
  assert (Ef : sum (map snd Schema.cheese_files) = 150) by reflexivity.
  assert (Eb : sum (map snd Schema.cheese_files ++ map snd Schema.cheese_dirs)
               = 220) by reflexivity.
  assert (Ed : sum (map snd Schema.cheese_dirs) = 70) by reflexivity.
  rewrite Eb. rewrite Ef in Bf. rewrite Ed in Bd. lia.
Qed.

Lemma IndexPyPIDownload_bound kw st st' :
  compute_IndexPyPIDownload kw st = Ok st' -> value st' <= 50.
Proof.
  unfold compute_IndexPyPIDownload.
  destruct (truthy (Schema.arg kw "download_url"));
    [| intros [= <-]; cbn [value]; lia].
  destruct (Schema.concat_str _ _) as [d | e]; [| discriminate].
  cbn [mbind result_bind].
  destruct (negb _); [| intros [= <-]; cbn [value]; lia].
  destruct (greater_than _ 0) eqn:Hg; [| intros [= <-]; cbn [value]; lia].
  destruct (as_number _) as [n | e] eqn:Hn; [| discriminate].
  cbn [mbind result_bind].
  pose proof (greater_than_0_number _ _ Hg Hn).
  destruct (greater_than _ 1).
  - intros [= <-]; cbn [value]; lia.
  - destruct (Schema.concat_str _ _) as [d' | e]; [| discriminate].
    cbn [mbind result_bind]. intros [= <-]; cbn [value]; lia.
Qed.

Lemma IndexGeneratedFiles_bound kw st st' :
  compute_IndexGeneratedFiles kw st = Ok st' -> value st' <= 0.
Proof.
  unfold compute_IndexGeneratedFiles.
  destruct (iterate _) as [files | e]; [| discriminate].
  cbn [mbind result_bind]. intros [= <-]. cbn [value].
  destruct (_ || _); lia.
Qed.

Lemma IndexUnitTested_bounds kw st st' :
  compute_IndexUnitTested kw st = Ok st' -> 0 <= value st' <= 30.
Proof.
  unfold compute_IndexUnitTested.
  destruct (iterate (Schema.arg kw "files_list")) as [files | e];
    [| discriminate].
  cbn [mbind result_bind].
  destruct (iterate (Schema.arg kw "methods")) as [methods | e];
    [| discriminate].
  cbn [mbind result_bind].
  match goal with
  | |- (if ?b then _ else _) = _ -> _ => destruct b
  end; intros [= <-]; cbn [value]; lia.
Qed.

(** A string as [files_list] is gone through character by character:
    no character is [setup.py]. *)
Example files_list_as_string :
  Schema.compute_IndexSetupPy Sample.fs
    {[ "files_list" := PyStr "setup.py"; "package_dir" := PyStr "pkg" ]}
    fresh
  = Ok (mkAttrs 0 "setup.py not found").
Proof. vm_compute. reflexivity. Qed.

(** X15. The leaf classes whose [compute] is modelled keep to their
    [max_value]: whatever the attributes of the run, a value that
    [compute] returns is not above the class's [max_value]; for the
    classes other than [IndexPyPIDownload] and [IndexGeneratedFiles]
    it is not below 0 either. *)
Theorem leaf_classes_keep_to_max fs :
  Forall bounded_class
    [ Schema.IndexPyPIDownload compute_IndexPyPIDownload;
      Schema.IndexUrlDownload; Schema.IndexUnpack; Schema.IndexUnpackDir;
      Schema.IndexSetupPy fs; Schema.IndexInstall;
      Schema.IndexGeneratedFiles compute_IndexGeneratedFiles;
      Schema.IndexRequiredFiles fs;
      Schema.IndexUnitTested compute_IndexUnitTested ] /\
  Forall
    (fun cls =>
       forall compute kw st st',
         cls_compute cls = Some compute -> compute kw st = Ok st' ->
         0 <= value st')
    [ Schema.IndexUrlDownload; Schema.IndexUnpack; Schema.IndexUnpackDir;
      Schema.IndexSetupPy fs; Schema.IndexInstall;
      Schema.IndexRequiredFiles fs;
      Schema.IndexUnitTested compute_IndexUnitTested ].
Proof.
  split.
  - repeat constructor; unfold bounded_class; cbn [cls_compute cls_max_value
      Schema.IndexPyPIDownload Schema.IndexUrlDownload Schema.IndexUnpack
      Schema.IndexUnpackDir Schema.IndexSetupPy Schema.IndexInstall
      Schema.IndexGeneratedFiles Schema.IndexRequiredFiles
      Schema.IndexUnitTested];
      intros kw st st' H.
    + apply (IndexPyPIDownload_bound _ _ _ H).
    + apply (IndexUrlDownload_bounds _ _ _ H).
    + apply (IndexUnpack_bounds _ _ _ H).
    + apply (IndexUnpackDir_bounds _ _ _ H).
    + apply (IndexSetupPy_bounds _ _ _ _ H).
    + apply (IndexInstall_bounds _ _ _ H).
    + apply (IndexGeneratedFiles_bound _ _ _ H).
    + apply (IndexRequiredFiles_bounds _ _ _ _ H).
    + apply (IndexUnitTested_bounds _ _ _ H).
  - repeat constructor; cbn [cls_compute
      Schema.IndexUrlDownload Schema.IndexUnpack
      Schema.IndexUnpackDir Schema.IndexSetupPy Schema.IndexInstall
      Schema.IndexRequiredFiles Schema.IndexUnitTested];
      intros compute kw st st' [= <-] H.
    + apply (IndexUrlDownload_bounds _ _ _ H).
    + apply (IndexUnpack_bounds _ _ _ H).
    + apply (IndexUnpackDir_bounds _ _ _ H).
    + apply (IndexSetupPy_bounds _ _ _ _ H).
    + apply (IndexInstall_bounds _ _ _ H).
    + apply (IndexRequiredFiles_bounds _ _ _ _ H).
    + apply (IndexUnitTested_bounds _ _ _ H).
Qed.

(** [IndexPyPIDownload] has no lower bound: twelve links away from
    PyPI the value is negative. *)
Example pypi_download_far_away :
  match
    compute_IndexPyPIDownload
      {[ "download_url" := PyStr "http://example.org/p.tar.gz";
         "package" := PyStr "p";
         "found_on_cheeseshop" := PyBool false;
         "distance_from_pypi" := PyInt 12 ]} fresh
  with
  | Ok st' => value st' = -5
  | Raise _ => False
  end.
Proof. vm_compute. reflexivity. Qed.

(** X16. No score above the maximum: in quiet mode, in a tree whose
    classes keep to their [max_value], the value [compute_with] returns
    for an index is not above the [max_value] of the index as it is
    after the call, so that the percentage [print_info] shows is at
    most 100. *)
Theorem value_within_max_value c t :
  quiet c = true ->
  (forall n, In n (nodes t) -> bounded_class (cls_of n)) ->
  forall t' v,
    compute_with c t = (t', Ok v) ->
    v <= max_value t' /\
    (0 < max_value t' -> v * 100 / max_value t' <= 100).
Proof.
  intros Hq Hb t' v Hc.
  assert (Hle : v <= max_value t').
  { revert Hb t' v Hc.
    induction t as [cls st subs IH] using Index_nested_ind.
    intros Hb t' v. rewrite compute_with_eq.
    pose proof (Hb _ (nodes_self _)) as Hcls.
    unfold bounded_class in Hcls. cbn [cls_of] in Hcls.
    destruct (cls_compute cls) as [compute |] eqn:Hcomp.
    - destruct (cls_max_value cls) as [m |] eqn:Hm; [| destruct Hcls].
      destruct (compute _ st) as [st' | e] eqn:Hrun; [| discriminate].
      intros [= <- <-]. cbn [max_value]. rewrite Hm.
      apply (Hcls _ _ _ Hrun).
    - destruct (cls_max_value cls) as [m |] eqn:Hm; [destruct Hcls |].
      destruct (TreeMore._iter_indices_quiet c subs Hq) as [Hys _].
      pose proof (_iter_indices_survivors c subs) as Hsurv.
      destruct (_iter_indices c subs) as [subs' ys]. cbn [fst snd] in *.
      intros [= <- <-]. cbn [max_value]. rewrite Hm, Hys.
      assert (Hsum : sum (map index_value subs') <= sum (map max_value subs')).
      { apply RulesMore.sum_map_le. intros x' Hx'.
        destruct (Hsurv x' Hx') as (x & w & Hx & Hcx).
        rewrite List.Forall_forall in IH.
        rewrite (compute_with_value _ _ _ _ Hcx).
        apply (IH x Hx); [| exact Hcx].
        intros n Hn. apply Hb. apply (nodes_child _ _ _ x); assumption. }
      destruct subs'; [reflexivity | exact Hsum]. }
  split; [exact Hle |].
  intros Hpos. apply Z.div_le_upper_bound; lia.
Qed.

Lemma installability_bounded fs n :
  In n (nodes (Schema.IndexInstallability fs compute_IndexPyPIDownload
                 compute_IndexGeneratedFiles)) ->
  bounded_class (cls_of n).
Proof.
  unfold Schema.IndexInstallability. cbn [nodes flat_map app].
  intros H.
  repeat (destruct H as [<- | H];
          [unfold bounded_class;
           cbn [cls_of cls_compute cls_max_value
                Schema.IndexPyPIDownload Schema.IndexUrlDownload
                Schema.IndexUnpack Schema.IndexUnpackDir Schema.IndexSetupPy
                Schema.IndexInstall Schema.IndexGeneratedFiles];
           try exact I; intros kw st st' Hc |]).
  - apply (IndexPyPIDownload_bound _ _ _ Hc).
  - apply (IndexUrlDownload_bounds _ _ _ Hc).
  - apply (IndexUnpack_bounds _ _ _ Hc).
  - apply (IndexUnpackDir_bounds _ _ _ Hc).
  - apply (IndexSetupPy_bounds _ _ _ _ Hc).
  - apply (IndexInstall_bounds _ _ _ Hc).
  - apply (IndexGeneratedFiles_bound _ _ _ Hc).
  - destruct H.
Qed.

Lemma value_within_max_value_witness :
  quiet Sample.cheesecake = true /\
  (forall n,
     In n (nodes (Schema.IndexInstallability Sample.fs
                    compute_IndexPyPIDownload compute_IndexGeneratedFiles)) ->
     bounded_class (cls_of n)) /\
  forall t' v,
    compute_with Sample.cheesecake
      (Schema.IndexInstallability Sample.fs compute_IndexPyPIDownload
         compute_IndexGeneratedFiles) = (t', Ok v) ->
    v <= max_value t' /\
    (0 < max_value t' -> v * 100 / max_value t' <= 100).
Proof.
  split; [reflexivity |]. split; [apply installability_bounded |].
  apply (value_within_max_value Sample.cheesecake
           (Schema.IndexInstallability Sample.fs compute_IndexPyPIDownload
              compute_IndexGeneratedFiles));
    [reflexivity | apply installability_bounded].
Defined.

End LeavesFacts.

(** * Properties of the helper functions *)
Module HelpersFacts.
Import Py Helpers.

Lemma len_nonneg s : 0 <= len s.
Proof. unfold len. lia. Qed.

Lemma length_nil : length [] = 0.
Proof. reflexivity. Qed.

Lemma length_snoc L a : length (L ++ [a]) = length L + len a.
Proof.
  unfold length. induction L as [| x L IH]; cbn [app map].
  - rewrite PyFacts.sum_cons, !PyFacts.sum_nil. lia.
  - rewrite !PyFacts.sum_cons, IH. lia.
Qed.

Lemma length_nonneg L : 0 <= length L.
Proof.
  unfold length. apply RulesMore.sum_map_nonneg. intros x _. apply len_nonneg.
Qed.

(** What the loop of [generate_arguments] keeps: the chunk under
    construction is empty, or the next argument fits into it. *)
Definition fits (max_length : Z) (L rest : list string) : Prop :=
  L = [] \/
  exists next rest', rest = next :: rest' /\ length L + len next <= max_length.

Lemma generate_arguments_from_spec max_length rest :
  forall L, fits max_length L rest ->
  let '(chunks, err) := generate_arguments_from max_length L rest in
  Forall (fun c => c <> [] /\ length c <= max_length) chunks /\
  match err with
  | None =>
      concat chunks = L ++ rest /\
      Forall (fun a => len a <= max_length) rest
  | Some e =>
      e = ValueError /\
      exists a after, L ++ rest = concat chunks ++ a :: after
                      /\ max_length < len a
  end.
Proof.
  induction rest as [| a rest' IH]; intros L HL.
  - destruct HL as [-> | (b & r & E & _)]; [| discriminate].
    cbn. split; [constructor |]. split; [reflexivity | constructor].
  - cbn [generate_arguments_from].
    assert (Hfit : match L with [] => true | _ => false end
                   && (max_length <? len a) = false ->
                   length (L ++ [a]) <= max_length /\ len a <= max_length).
    { intros Hc. rewrite length_snoc.
      destruct HL as [-> | (b & r & [= <- <-] & Hle)].
      - cbn [andb] in Hc. apply Z.ltb_ge in Hc. rewrite length_nil. lia.
      - pose proof (length_nonneg L). lia. }
    destruct (match L with [] => true | _ => false end
              && (max_length <? len a)) eqn:Hc.
    + apply andb_true_iff in Hc as [HLe Hlt]. apply Z.ltb_lt in Hlt.
      destruct L; [| discriminate].
      split; [constructor |]. split; [reflexivity |].
      exists a, rest'. split; [reflexivity | exact Hlt].
    + destruct (Hfit eq_refl) as [HL' Ha].
      assert (Hne : L ++ [a] <> []) by (destruct L; discriminate).
      destruct rest' as [| next r].
      * split; [repeat constructor; assumption |].
        split; [cbn [concat]; rewrite app_nil_r; reflexivity |].
        repeat constructor. exact Ha.
      * destruct (max_length <? length (L ++ [a]) + len next) eqn:Hnext.
        -- specialize (IH [] (or_introl eq_refl)).
           destruct (generate_arguments_from max_length [] (next :: r))
             as [chunks e].
           destruct IH as [Hok Herr].
           split; [constructor; [split; assumption | exact Hok] |].
           destruct e as [e |].
           ++ destruct Herr as [-> (b & after & E & Hb)].
              split; [reflexivity |]. exists b, after.
              split; [| exact Hb].
              cbn [concat]. cbn [app] in E. rewrite <- !app_assoc, <- E.
              reflexivity.
           ++ destruct Herr as [E Hsmall].
              split; [| constructor; assumption].
              cbn [concat]. rewrite E, <- app_assoc. reflexivity.
        -- apply Z.ltb_ge in Hnext.
           assert (HP : fits max_length (L ++ [a]) (next :: r)).
           { right. exists next, r. split; [reflexivity | exact Hnext]. }
           specialize (IH _ HP).
           destruct (generate_arguments_from max_length (L ++ [a]) (next :: r))
             as [chunks e].
           destruct IH as [Hok Herr]. split; [exact Hok |].
           destruct e as [e |].
           ++ destruct Herr as [-> (b & after & E & Hb)].
              split; [reflexivity |]. exists b, after.
              split; [| exact Hb].
              rewrite <- E, <- app_assoc. reflexivity.
           ++ destruct Herr as [E Hsmall].
              split; [| constructor; assumption].
              rewrite E, <- app_assoc. reflexivity.
Qed.

(** X17. The chunks of [generate_arguments]: every chunk yielded is
    non-empty and its overall length is at most [max_length].  When no
    argument is longer than [max_length] the generator ends without an
    exception and the chunks, one after the other, are the arguments;
    otherwise it raises [ValueError] at the first such argument, after
    yielding in chunks the arguments before it. *)
Theorem generate_arguments_chunks arguments max_length :
  let '(chunks, err) := generate_arguments arguments max_length in
  Forall (fun c => c <> [] /\ length c <= max_length) chunks /\
  match err with
  | None =>
      concat chunks = arguments /\
      Forall (fun a => len a <= max_length) arguments
  | Some e =>
      e = ValueError /\
      exists a after, arguments = concat chunks ++ a :: after
                      /\ max_length < len a
                      /\ Forall (fun b => len b <= max_length) (concat chunks)
  end.
Proof.
  unfold generate_arguments.
  pose proof (generate_arguments_from_spec max_length arguments []
                (or_introl eq_refl)) as H.
  destruct (generate_arguments_from max_length [] arguments) as [chunks e].
  destruct H as [Hok Herr]. split; [exact Hok |].
  destruct e as [e |]; [| exact Herr].
  destruct Herr as [-> (a & after & E & Ha)].
  split; [reflexivity |]. exists a, after.
  split; [exact E |]. split; [exact Ha |].
  clear E. induction Hok as [| c chunks [_ Hc] _ IH]; [constructor |].
  cbn [concat]. apply Forall_app. split; [| exact IH].
  clear IH. revert Hc. induction c as [| b c IHc]; intros Hc; [constructor |].
  assert (E : length (b :: c) = len b + length c)
    by (unfold length; cbn [map]; apply PyFacts.sum_cons).
  pose proof (length_nonneg c). pose proof (len_nonneg b).
  constructor; [lia | apply IHc; lia].
Qed.

(** The chunks are closed as late as possible. *)
Fixpoint greedy (max_length : Z) (chunks : list (list string)) : Prop :=
  match chunks with
  | c1 :: (c2 :: _) as later =>
      (exists b c2', c2 = b :: c2' /\ max_length < length c1 + len b)
      /\ greedy max_length later
  | _ => True
  end.

Lemma generate_arguments_from_cons max_length L a rest' :
  generate_arguments_from max_length L (a :: rest') =
  if match L with [] => true | _ => false end && (max_length <? len a)
  then ([], Some ValueError)
  else
    match rest' with
    | [] => ([L ++ [a]], None)
    | next :: _ =>
        if max_length <? length (L ++ [a]) + len next
        then
          let '(chunks, e) := generate_arguments_from max_length [] rest' in
          ((L ++ [a]) :: chunks, e)
        else generate_arguments_from max_length (L ++ [a]) rest'
    end.
Proof. reflexivity. Qed.

Lemma first_chunk max_length rest :
  forall L a c chunks e,
    generate_arguments_from max_length L (a :: rest) = (c :: chunks, e) ->
    exists c', c = L ++ a :: c'.
Proof.
  induction rest as [| next r IH]; intros L a c chunks e;
    rewrite generate_arguments_from_cons.
  - destruct (_ && _); [discriminate |].
    intros [= <- _ _]. exists []. reflexivity.
  - destruct (match L with [] => true | _ => false end
              && (max_length <? len a)); [discriminate |].
    destruct (max_length <? length (L ++ [a]) + len next).
    + destruct (generate_arguments_from max_length [] (next :: r))
        as [ys e'].
      cbv beta iota. intros [= <- _ _]. exists []. reflexivity.
    + intros H. destruct (IH _ _ _ _ _ H) as [c' ->].
      exists (next :: c'). rewrite <- app_assoc. reflexivity.
Qed.

Lemma generate_arguments_from_greedy max_length rest :
  forall L, greedy max_length (fst (generate_arguments_from max_length L rest)).
Proof.
  induction rest as [| a rest' IH]; intros L; [exact I |].
  cbn [generate_arguments_from].
  destruct (match L with [] => true | _ => false end
            && (max_length <? len a)); [exact I |].
  destruct rest' as [| next r]; [exact I |].
  destruct (max_length <? length (L ++ [a]) + len next) eqn:Hnext;
    [| apply IH].
  specialize (IH []).
  destruct (generate_arguments_from max_length [] (next :: r))
    as [chunks e] eqn:Hrec.
  cbn [fst] in *. destruct chunks as [| c2 later]; [exact I |].
  split; [| exact IH].
  destruct (first_chunk _ _ _ _ _ _ _ Hrec) as [c' ->].
  exists next, c'. split; [reflexivity |]. apply Z.ltb_lt. exact Hnext.
Qed.

(** X18. [generate_arguments] fills the chunks: the first argument of
    a chunk did not fit into the chunk yielded before it. *)
Theorem generate_arguments_fills_chunks arguments max_length
    before c1 c2 after :
  fst (generate_arguments arguments max_length)
  = before ++ c1 :: c2 :: after ->
  exists b c2', c2 = b :: c2' /\ max_length < length c1 + len b.
Proof.
  unfold generate_arguments.
  pose proof (generate_arguments_from_greedy max_length arguments []) as G.
  intros E. rewrite E in G. clear E.
  induction before as [| c0 before IH].
  - destruct G as [H _]. exact H.
  - apply IH. cbn [app] in G.
    destruct (before ++ c1 :: c2 :: after) eqn:E;
      [destruct before; discriminate |].
    destruct G as [_ G]. exact G.
Qed.

Lemma generate_arguments_fills_chunks_witness :
  fst (generate_arguments ["a"; "bc"; "d"; "e"; "f"] 2)
  = [["a"]] ++ ["bc"] :: ["d"; "e"] :: [["f"]] /\
  exists b c2', ["d"; "e"] = b :: c2' /\ 2 < length ["bc"] + len b.
Proof.
  split; [reflexivity |].
  apply (generate_arguments_fills_chunks ["a"; "bc"; "d"; "e"; "f"] 2
           [["a"]] ["bc"] ["d"; "e"] [["f"]]).
  reflexivity.
Defined.

(** The doctests of [generate_arguments]. *)
Example generate_arguments_doctests :
  generate_arguments ["abc"; "def"] 4 = ([["abc"]; ["def"]], None) /\
  generate_arguments ["a"; "bc"; "d"; "e"; "f"] 2
  = ([["a"]; ["bc"]; ["d"; "e"]; ["f"]], None) /\
  generate_arguments ["abc"; "de"; "fghijk"; "l"] 4
  = ([["abc"]; ["de"]], Some ValueError).
Proof. repeat split; reflexivity. Qed.

(** ** Strings *)

Lemma append_nil (b : string) : EmptyString +:+ b = b.
Proof. reflexivity. Qed.

Lemma append_cons (c : ascii) (a b : string) :
  String c a +:+ b = String c (a +:+ b).
Proof. reflexivity. Qed.

Lemma strlen_app (a b : string) :
  String.length (a +:+ b) = (String.length a + String.length b)%nat.
Proof.
  induction a as [| c a IH]; [reflexivity |].
  rewrite append_cons. cbn [String.length Nat.add]. f_equal. exact IH.
Qed.

Lemma len_app (a b : string) : len (a +:+ b) = len a + len b.
Proof. unfold len. rewrite strlen_app. lia. Qed.

Lemma len_repeat_char c n : len (repeat_char c n) = Z.max 0 n.
Proof.
  unfold len, repeat_char.
  assert (E : forall k, String.length (string_of_list_ascii (repeat c k)) = k).
  { induction k as [| k IH]; cbn; [reflexivity | rewrite IH; reflexivity]. }
  rewrite E. lia.
Qed.

Lemma repeat_char_nonpos c n : n <= 0 -> repeat_char c n = EmptyString.
Proof.
  intros H. unfold repeat_char.
  replace (Z.to_nat n) with O by lia. reflexivity.
Qed.

Lemma app_assoc_str (a b c : string) : (a +:+ b) +:+ c = a +:+ (b +:+ c).
Proof.
  induction a as [| x a IH]; [reflexivity |].
  rewrite !append_cons, IH. reflexivity.
Qed.

Lemma substring_full (p : string) :
  String.substring 0 (String.length p) p = p.
Proof. induction p as [| c p IH]; cbn; [reflexivity | rewrite IH; reflexivity]. Qed.

Lemma substring_skip (q p : string) (n : nat) :
  String.substring (String.length q) n (q +:+ p) = String.substring 0 n p.
Proof.
  induction q as [| c q IH]; [reflexivity |].
  rewrite append_cons. cbn [String.length String.substring]. exact IH.
Qed.

Lemma substring_take (q p : string) :
  String.substring 0 (String.length q) (q +:+ p) = q.
Proof.
  induction q as [| c q IH]; [destruct p; reflexivity |].
  rewrite append_cons. cbn [String.length String.substring].
  rewrite IH. reflexivity.
Qed.

Lemma substring_split (s : string) (n : nat) :
  (n <= String.length s)%nat ->
  String.substring 0 n s
  +:+ String.substring n (String.length s - n) s = s.
Proof.
  revert n. induction s as [| c s IH]; intros n Hn.
  - cbn in Hn. replace n with O by lia. reflexivity.
  - destruct n as [| n].
    + cbn [String.substring]. rewrite append_nil.
      cbn [String.length Nat.sub]. rewrite substring_full. reflexivity.
    + cbn [String.length] in *. cbn [String.substring Nat.sub].
      rewrite append_cons, IH by lia. reflexivity.
Qed.

Lemma endswith_iff (s p : string) :
  Files.endswith s p = true <-> exists q, s = q +:+ p.
Proof.
  unfold Files.endswith. split.
  - intros H. apply andb_true_iff in H as [Hle Heq].
    apply Nat.leb_le in Hle. apply String.eqb_eq in Heq.
    exists (String.substring 0 (String.length s - String.length p) s).
    assert (Hn : (String.length s - String.length p <= String.length s)%nat)
      by lia.
    pose proof (substring_split s _ Hn) as E.
    replace (String.length s - (String.length s - String.length p))%nat
      with (String.length p) in E by lia.
    rewrite Heq in E. symmetry. exact E.
  - intros [q ->]. rewrite strlen_app. apply andb_true_iff. split.
    + apply Nat.leb_le. lia.
    + replace (String.length q + String.length p - String.length p)%nat
        with (String.length q) by lia.
      rewrite substring_skip, substring_full. apply String.eqb_refl.
Qed.

Lemma rfind_suffix (q p : string) :
  rfind (q +:+ p) p = Z.of_nat (String.length q).
Proof.
  unfold rfind. rewrite strlen_app.
  replace (String.length p <=? String.length q + String.length p)%nat
    with true by (symmetry; apply Nat.leb_le; lia).
  replace (String.length q + String.length p - String.length p)%nat
    with (String.length q) by lia.
  destruct (String.length q) as [| n] eqn:E; cbn [rfind_down];
    rewrite <- E, substring_skip, substring_full, String.eqb_refl;
    reflexivity.
Qed.

(** X19. [get_package_name_and_type] splits the package at its
    extension: the name and the type it returns, joined by a dot, give
    the package back, and the type is the first known extension, in
    the order of the list, that the package ends with after a dot;
    [None] is returned exactly when the package ends with none. *)
Theorem package_name_and_type_split package known_extensions :
  match get_package_name_and_type package known_extensions with
  | Some (name, package_type) =>
      package = name +:+ "." +:+ package_type /\
      exists before after,
        known_extensions = before ++ package_type :: after /\
        Forall (fun t => forall n, package <> n +:+ "." +:+ t) before
  | None =>
      Forall (fun t => forall n, package <> n +:+ "." +:+ t) known_extensions
  end.
Proof.
  induction known_extensions as [| t rest IH];
    cbn [get_package_name_and_type]; [constructor |].
  destruct (Files.endswith package ("." +:+ t)) eqn:He.
  - apply endswith_iff in He as [q ->]. split.
    + rewrite rfind_suffix. unfold PyStr.slice_to.
      rewrite Nat2Z.id, substring_take. reflexivity.
    + exists [], rest. split; [reflexivity | constructor].
  - assert (Hno : forall n, package <> n +:+ "." +:+ t).
    { intros n ->.
      assert (Files.endswith (n +:+ "." +:+ t) ("." +:+ t) = true)
        by (apply endswith_iff; exists n; reflexivity).
      congruence. }
    destruct (get_package_name_and_type package rest) as [[name ty] |].
    + destruct IH as [E (before & after & -> & Hb)].
      split; [exact E |].
      exists (t :: before), after. split; [reflexivity |].
      constructor; assumption.
    + constructor; assumption.
Qed.

(** The doctests of [get_package_name_and_type]; with the extensions
    in another order the shorter one wins. *)
Example get_package_name_and_type_doctests :
  get_package_name_and_type "underscored_name.zip" ["tar.gz"; "zip"]
  = Some ("underscored_name", "zip") /\
  get_package_name_and_type "unknown.extension.txt" ["tar.gz"; "zip"] = None /\
  get_package_name_and_type "twill-0.9.tar.gz" ["gz"; "tar.gz"]
  = Some ("twill-0.9.tar", "gz").
Proof. repeat split; reflexivity. Qed.

Lemma remove_first_eq (old s : string) :
  remove_first old s =
  if String.prefix old s
  then String.substring (String.length old)
         (String.length s - String.length old) s
  else
    match s with
    | EmptyString => EmptyString
    | String c s' => String c (remove_first old s')
    end.
Proof. destruct s; reflexivity. Qed.

Lemma prefix_app (p x : string) : String.prefix p (p +:+ x) = true.
Proof.
  induction p as [| c p IH]; [destruct x; reflexivity |].
  rewrite append_cons. cbn [String.prefix].
  destruct (ascii_dec c c) as [_ | n]; [exact IH | destruct n; reflexivity].
Qed.

Lemma remove_first_prefix (root x : string) :
  remove_first root (root +:+ x) = x.
Proof.
  rewrite remove_first_eq, prefix_app, strlen_app.
  replace (String.length root + String.length x - String.length root)%nat
    with (String.length x) by lia.
  rewrite substring_skip. apply substring_full.
Qed.

Lemma startswith_sep_prefix (s : string) :
  Files.startswith s "/" = PyStr.startswith_sep s.
Proof.
  unfold Files.startswith. destruct s as [| c s]; [reflexivity |].
  cbn [String.prefix PyStr.startswith_sep].
  destruct (ascii_dec "/" c) as [<- | n].
  - destruct s; reflexivity.
  - symmetry. apply Ascii.eqb_neq. intros ->. apply n. reflexivity.
Qed.

(** X20. [strip_dir_part] undoes [os.path.join]: for a relative path
    [rel], stripping [root] from [os.path.join(root, rel)] gives [rel]
    back, whether or not [root] ends with a separator. *)
Theorem strip_dir_part_of_join root rel :
  PyStr.startswith_sep rel = false ->
  strip_dir_part (PyStr.join root rel) root = rel.
Proof.
  intros Hrel. unfold PyStr.join, strip_dir_part. rewrite Hrel.
  destruct (String.eqb root "" || PyStr.endswith_sep root).
  - rewrite remove_first_prefix, startswith_sep_prefix, Hrel. reflexivity.
  - rewrite remove_first_prefix, startswith_sep_prefix.
    rewrite append_cons, append_nil.
    cbn [PyStr.startswith_sep]. rewrite Ascii.eqb_refl.
    unfold PyStr.slice_from. cbn [String.length].
    change (Z.to_nat 1) with 1%nat. cbn [String.substring Nat.sub].
    rewrite Nat.sub_0_r. apply substring_full.
Qed.

Lemma strip_dir_part_of_join_witness :
  PyStr.startswith_sep "ruby/file" = false /\
  strip_dir_part (PyStr.join "/home" "ruby/file") "/home" = "ruby/file".
Proof.
  split; [reflexivity |].
  apply (strip_dir_part_of_join "/home" "ruby/file"). reflexivity.
Defined.

(** The doctests of [strip_dir_part]. *)
Example strip_dir_part_doctests :
  map (fun p => strip_dir_part (fst p) (snd p))
    [ ("/home/ruby/file", "/home"); ("/home/ruby/file", "/home/");
      ("/home/ruby/", "/home"); ("/home/ruby/", "/home/") ]
  = ["ruby/file"; "ruby/file"; "ruby/"; "ruby/"].
Proof. reflexivity. Qed.

(** X21. The layout of a report line: [pad_msg] is as wide as the
    text column ([PAD_TEXT], or the message and a space when that is
    longer) and the value column ([PAD_VALUE], or the digits of the
    value when they are more); up to the value it is [pad_with_dots]
    of the message when the message is shorter than [PAD_TEXT]. *)
Theorem pad_msg_layout msg value :
  len (Util.pad_msg msg value)
  = Z.max Util.PAD_TEXT (len msg + 1)
    + Z.max Util.PAD_VALUE (len (fmt_d value)) /\
  Util.pad_msg msg value
  = (if len msg <? Util.PAD_TEXT then pad_with_dots msg Util.PAD_TEXT
     else msg +:+ " ")
    +:+ Util.pad_left_spaces value Util.PAD_VALUE.
Proof.
  unfold Util.pad_msg, Util.pad_left_spaces, pad_with_dots. split.
  - rewrite !len_app, !len_repeat_char.
    change (len " ") with 1. lia.
  - destruct (len msg <? Util.PAD_TEXT) eqn:Hlt.
    + apply Z.ltb_lt in Hlt.
      replace (Util.PAD_TEXT <=? len msg) with false
        by (symmetry; apply Z.leb_gt; exact Hlt).
      replace (Util.PAD_TEXT - (len msg + 1))
        with (Util.PAD_TEXT - len msg - 1) by lia.
      rewrite !app_assoc_str. reflexivity.
    + apply Z.ltb_ge in Hlt.
      rewrite (repeat_char_nonpos "." (Util.PAD_TEXT - len msg - 1)) by lia.
      rewrite !app_assoc_str. reflexivity.
Qed.

(** The doctests of [pad_with_dots] and [pad_right_spaces], and a line
    of the report. *)
Example pad_doctests :
  pad_with_dots "Hello world" 20 = "Hello world ........" /\
  pad_with_dots "Exceeding length" 10 = "Exceeding length" /\
  pad_right_spaces "123" 5 = "123  " /\
  Util.pad_left_spaces 15 4 = "  15" /\
  Util.pad_left_spaces 123456 2 = "123456" /\
  Util.pad_msg "unpack" 25 = "unpack .................................  25".
Proof. repeat split; vm_compute; reflexivity. Qed.

(** ** Names of indices *)

Lemma is_upper_lower_char c : PyStr.is_upper (PyStr.lower_char c) = false.
Proof. destruct c as [[] [] [] [] [] [] [] []]; reflexivity. Qed.

Lemma lower_char_not_upper c :
  PyStr.is_upper c = false -> PyStr.lower_char c = c.
Proof. unfold PyStr.lower_char. intros ->. reflexivity. Qed.

Lemma sub_capitals_no_capital name :
  no_capital
    (sub_capitals
       (fun c => String "_" (String (PyStr.lower_char c) EmptyString)) name)
  = true.
Proof.
  induction name as [| c rest IH]; [reflexivity |].
  cbn [sub_capitals]. destruct (PyStr.is_upper c) eqn:Hc.
  - rewrite !append_cons, append_nil. cbn [no_capital].
    rewrite is_upper_lower_char, IH. reflexivity.
  - cbn [no_capital]. rewrite Hc, IH. reflexivity.
Qed.

Lemma sub_capitals_unchanged repl name :
  no_capital name = true -> sub_capitals repl name = name.
Proof.
  induction name as [| c rest IH]; [reflexivity |].
  cbn [no_capital sub_capitals]. intros H.
  apply andb_true_iff in H as [Hc Hrest]. apply negb_true_iff in Hc.
  rewrite Hc, (IH Hrest). reflexivity.
Qed.

Lemma sub_capital_runs_unchanged repl name :
  no_capital name = true -> sub_capital_runs repl name EmptyString = name.
Proof.
  induction name as [| c rest IH]; [reflexivity |].
  cbn [no_capital sub_capital_runs]. intros H.
  apply andb_true_iff in H as [Hc Hrest]. apply negb_true_iff in Hc.
  rewrite Hc, append_nil, (IH Hrest). reflexivity.
Qed.

Lemma camel2underscore_unchanged name :
  no_capital name = true -> camel2underscore name = name.
Proof.
  intros H. unfold camel2underscore.
  assert (E : match name with
              | EmptyString => name
              | String c rest => String (PyStr.lower_char c) rest
              end = name).
  { destruct name as [| c rest]; [reflexivity |].
    cbn [no_capital] in H. apply andb_true_iff in H as [Hc _].
    apply negb_true_iff in Hc. rewrite (lower_char_not_upper _ Hc).
    reflexivity. }
  rewrite E, (sub_capital_runs_unchanged _ _ H).
  apply sub_capitals_unchanged, H.
Qed.

(** X22. [camel2underscore] gives names without capital letters, and a
    name without capital letters is left as it is; so converting a
    converted name changes nothing. *)
Theorem camel2underscore_normal_form name :
  no_capital (camel2underscore name) = true /\
  camel2underscore (camel2underscore name) = camel2underscore name /\
  (if no_capital name then camel2underscore name = name else True).
Proof.
  assert (H : no_capital (camel2underscore name) = true)
    by apply sub_capitals_no_capital.
  split; [exact H |]. split.
  - apply camel2underscore_unchanged, H.
  - destruct (no_capital name) eqn:Hn; [| exact I].
    apply camel2underscore_unchanged, Hn.
Qed.

(** The doctests of [camel2underscore] and [index_class_to_name]. *)
Example camel2underscore_doctests :
  map camel2underscore
    ["CamelCase"; "already_underscore_name"; "BigHTMLClass"; ""]
  = ["camel_case"; "already_underscore_name"; "big_html_class"; ""] /\
  map index_class_to_name
    ["IndexDownload"; "IndexUnitTests"; "IndexPyPIDownload"]
  = ["download"; "unit_tests"; "py_pi_download"].
Proof. split; vm_compute; reflexivity. Qed.

End HelpersFacts.

(** * The subindices and their dictionary *)
Module RegistryFacts.
Import Py Tree Registry.

Lemma init_snoc (l : list Obj) (x : Obj) : init (l ++ [x]) = add_subindex x (init l).
Proof. unfold init. rewrite fold_left_app. reflexivity. Qed.

Lemma init_subindices (l : list Obj) : subindices (init l) = l.
Proof.
  induction l as [| x l IH] using rev_ind; [reflexivity |].
  rewrite init_snoc. cbn [add_subindex subindices]. rewrite IH. reflexivity.
Qed.

(** With pairwise different names, the dictionary of [Index(a, b, ...)]
    holds under a name the subindex of that name. *)
Lemma init_dict (l : list Obj) :
  NoDup (map obj_name l) ->
  forall (k : string) (o : Obj),
    _indices_dict (init l) !! k = Some o <-> In o l /\ obj_name o = k.
Proof.
  induction l as [| x l IH] using rev_ind; intros Hnd k o.
  - cbn. rewrite lookup_empty. split; [discriminate | intros [[] _]].
  - rewrite init_snoc. cbn [add_subindex _indices_dict].
    rewrite map_app in Hnd. cbn [map] in Hnd.
    apply NoDup_app in Hnd as (Hl & Hx & _).
    rewrite lookup_insert_Some, (IH Hl), in_app_iff. cbn [In].
    split.
    + intros [[<- <-] | (Hne & Hin & Hname)]; [tauto |].
      split; [left; exact Hin | exact Hname].
    + intros [[Hin | [<- | []]] Hname].
      * right. split; [| split; assumption].
        intros E. apply (Hx (obj_name x)); [| left; reflexivity].
        apply list_elem_of_In. rewrite E, <- Hname. apply in_map. exact Hin.
      * left. split; [exact Hname | reflexivity].
Qed.

Lemma list_remove_present (before : list Obj) (x : Obj) (after : list Obj) :
  ~ In (fst x) (map fst before) ->
  list_remove x (before ++ x :: after) = Some (before ++ after).
Proof.
  induction before as [| y before IH]; intros Hnot; cbn [app list_remove].
  - unfold same. rewrite Nat.eqb_refl. reflexivity.
  - cbn [map In] in Hnot. unfold same at 1.
    destruct (Nat.eqb_spec (fst y) (fst x)) as [E | _]; [tauto |].
    rewrite IH by tauto. reflexivity.
Qed.

Lemma list_remove_absent (x : Obj) (l : list Obj) :
  ~ In (fst x) (map fst l) -> list_remove x l = None.
Proof.
  induction l as [| y l IH]; intros Hnot; [reflexivity |].
  cbn [list_remove]. cbn [map In] in Hnot. unfold same at 1.
  destruct (Nat.eqb_spec (fst y) (fst x)) as [E | _]; [tauto |].
  rewrite IH by tauto. reflexivity.
Qed.

Lemma NoDup_middle {A : Type} (before : list A) x after :
  NoDup (before ++ x :: after) ->
  ~ In x before /\ ~ In x after /\ NoDup (before ++ after).
Proof.
  intros H. apply NoDup_ListNoDup in H.
  pose proof (List.NoDup_remove_1 _ _ _ H) as H1.
  pose proof (List.NoDup_remove_2 _ _ _ H) as H2.
  rewrite in_app_iff in H2.
  split; [tauto |]. split; [tauto |]. apply NoDup_ListNoDup. exact H1.
Qed.

(** Taking the subindex [x] out of [Index(a, b, ...)] by its name gives
    the index without it, list and dictionary. *)
Lemma remove_subindex_init (before : list Obj) (x : Obj)
    (after : list Obj) :
  NoDup (map fst (before ++ x :: after)) ->
  NoDup (map obj_name (before ++ x :: after)) ->
  remove_subindex (obj_name x) (init (before ++ x :: after))
  = Ok (init (before ++ after)).
Proof.
  intros Hid Hnames.
  pose proof (init_dict _ Hnames) as Hdict.
  rewrite map_app in Hid, Hnames. cbn [map] in Hid, Hnames.
  apply NoDup_middle in Hid as (Hid & _ & _).
  apply NoDup_middle in Hnames as (Hn1 & Hn2 & Hrest).
  rewrite <- map_app in Hrest.
  unfold remove_subindex.
  assert (Hx : _indices_dict (init (before ++ x :: after)) !! obj_name x
               = Some x).
  { apply Hdict. split; [| reflexivity].
    apply in_app_iff. right. left. reflexivity. }
  rewrite Hx, init_subindices, (list_remove_present _ _ _ Hid).
  f_equal.
  assert (E : forall c d : Container,
             subindices c = subindices d ->
             _indices_dict c = _indices_dict d -> c = d).
  { intros [s1 d1] [s2 d2]. cbn. intros -> ->. reflexivity. }
  apply E; cbn [subindices _indices_dict];
    [rewrite init_subindices; reflexivity |].
  apply map_eq. intros k. apply option_eq. intros o.
  rewrite lookup_delete_Some, Hdict, (init_dict _ Hrest), !in_app_iff.
  cbn [In]. split.
  - intros (Hne & [Hin | [<- | Hin]] & Hname); try tauto.
  - intros [Hin Hname]. split; [| tauto].
    intros E'. rewrite <- Hname in E'.
    destruct Hin as [Hin | Hin];
      [apply Hn1 | apply Hn2]; rewrite E'; apply in_map; exact Hin.
Qed.

(** X6. [remove_subindex] by name on an index built from subindices
    with pairwise different names: the subindex of that name is taken
    out of the list and of the dictionary and the others stay in order;
    a name that no subindex has raises [KeyError]; and it undoes
    [add_subindex]. *)
Theorem remove_subindex_by_name (before : list Obj) (x : Obj)
    (after : list Obj) :
  NoDup (map fst (before ++ x :: after)) ->
  NoDup (map obj_name (before ++ x :: after)) ->
  remove_subindex (obj_name x) (init (before ++ x :: after))
  = Ok (init (before ++ after)) /\
  remove_subindex (obj_name x) (init (before ++ after)) = Raise KeyError /\
  remove_subindex (obj_name x) (add_subindex x (init (before ++ after)))
  = Ok (init (before ++ after)).
Proof.
  intros Hid Hnames. split; [apply remove_subindex_init; assumption |].
  assert (Hid' : NoDup (map fst ((before ++ after) ++ x :: []))).
  { rewrite !map_app in *. cbn [map] in *.
    apply NoDup_middle in Hid as (H1 & H2 & H3).
    apply NoDup_app. split; [exact H3 |]. split; [| apply NoDup_singleton].
    intros y Hy Hy'. apply list_elem_of_In in Hy, Hy'.
    destruct Hy' as [<- | []]. apply in_app_iff in Hy. tauto. }
  assert (Hnames' : NoDup (map obj_name ((before ++ after) ++ x :: []))).
  { rewrite !map_app in *. cbn [map] in *.
    apply NoDup_middle in Hnames as (H1 & H2 & H3).
    apply NoDup_app. split; [exact H3 |]. split; [| apply NoDup_singleton].
    intros y Hy Hy'. apply list_elem_of_In in Hy, Hy'.
    destruct Hy' as [<- | []]. apply in_app_iff in Hy. tauto. }
  split.
  - rewrite map_app in Hnames. cbn [map] in Hnames.
    apply NoDup_middle in Hnames as (Hn1 & Hn2 & Hrest).
    rewrite <- map_app in Hrest.
    unfold remove_subindex.
    destruct (_indices_dict (init (before ++ after)) !! obj_name x)
      as [o |] eqn:Ho; [| reflexivity].
    apply (init_dict _ Hrest) in Ho as [Hin Hname].
    exfalso. apply in_app_iff in Hin.
    destruct Hin as [Hin | Hin];
      [apply Hn1 | apply Hn2]; rewrite <- Hname; apply in_map; exact Hin.
  - rewrite <- init_snoc.
    rewrite (remove_subindex_init (before ++ after) x [] Hid' Hnames').
    rewrite app_nil_r. reflexivity.
Qed.

Lemma remove_subindex_by_name_witness :
  let one : Obj := (1%nat, Node (mkClass "one" None [] None None None) fresh []) in
  let two : Obj := (2%nat, Node (mkClass "two" None [] None None None) fresh []) in
  let three : Obj :=
    (3%nat, Node (mkClass "three" None [] None None None) fresh []) in
  NoDup (map fst ([one] ++ two :: [three])) /\
  NoDup (map obj_name ([one] ++ two :: [three])) /\
  remove_subindex (obj_name two) (init ([one] ++ two :: [three]))
  = Ok (init ([one] ++ [three])) /\
  remove_subindex (obj_name two) (init ([one] ++ [three])) = Raise KeyError /\
  remove_subindex (obj_name two) (add_subindex two (init ([one] ++ [three])))
  = Ok (init ([one] ++ [three])).
Proof.
  intros one two three.
  assert (H1 : NoDup (map fst ([one] ++ two :: [three]))).
  { cbn. repeat constructor; rewrite ?list_elem_of_In; cbn; intuition lia. }
  assert (H2 : NoDup (map obj_name ([one] ++ two :: [three]))).
  { cbn. repeat constructor; rewrite ?list_elem_of_In; cbn;
      intuition discriminate. }
  split; [exact H1 |]. split; [exact H2 |].
  apply (remove_subindex_by_name [one] two [three] H1 H2).
Defined.

(** X23. The dictionary outlives a subindex that raised: after
    [_iter_indices] has taken the subindex [x] out of the list, the
    dictionary still holds it, so [__getitem__] returns it and
    [remove_subindex] raises [ValueError], not the [KeyError] of a name
    that was never there. *)
Theorem dropped_subindex_stays_in_dict (before : list Obj) (x : Obj)
    (after : list Obj) :
  NoDup (map fst (before ++ x :: after)) ->
  NoDup (map obj_name (before ++ x :: after)) ->
  exists self,
    drop x (init (before ++ x :: after)) = Ok self /\
    subindices self = before ++ after /\
    getitem (obj_name x) self = Ok x /\
    remove_subindex (obj_name x) self = Raise ValueError.
Proof.
  intros Hid Hnames.
  pose proof (init_dict _ Hnames) as Hdict.
  rewrite map_app in Hid. cbn [map] in Hid.
  apply NoDup_middle in Hid as (Hid1 & Hid2 & _).
  assert (Hx : _indices_dict (init (before ++ x :: after)) !! obj_name x
               = Some x).
  { apply Hdict. split; [| reflexivity].
    apply in_app_iff. right. left. reflexivity. }
  unfold drop. rewrite init_subindices, (list_remove_present _ _ _ Hid1).
  eexists. split; [reflexivity |]. cbn [subindices].
  split; [reflexivity |].
  unfold getitem, remove_subindex. cbn [_indices_dict subindices].
  rewrite Hx. split; [reflexivity |].
  rewrite list_remove_absent; [reflexivity |].
  rewrite map_app, in_app_iff. tauto.
Qed.

Lemma dropped_subindex_stays_in_dict_witness :
  let good : Obj := (1%nat, Node Schema.IndexUnpack fresh []) in
  let bad : Obj := (2%nat, Node Sample.BadIndex fresh []) in
  NoDup (map fst ([good] ++ bad :: [])) /\
  NoDup (map obj_name ([good] ++ bad :: [])) /\
  exists self,
    drop bad (init ([good] ++ bad :: [])) = Ok self /\
    subindices self = [good] ++ [] /\
    getitem (obj_name bad) self = Ok bad /\
    remove_subindex (obj_name bad) self = Raise ValueError.
Proof.
  intros good bad.
  assert (H1 : NoDup (map fst ([good] ++ bad :: []))).
  { cbn. repeat constructor; rewrite ?list_elem_of_In; cbn; intuition lia. }
  assert (H2 : NoDup (map obj_name ([good] ++ bad :: []))).
  { cbn. repeat constructor; rewrite ?list_elem_of_In; cbn;
      intuition discriminate. }
  split; [exact H1 |]. split; [exact H2 |].
  apply (dropped_subindex_stays_in_dict [good] bad [] H1 H2).
Defined.

(** Two subindices of one name: the dictionary holds the one added
    last, and that one is removed; the name is unknown afterwards
    although a subindex still has it. *)
Example same_named_subindices :
  let a : Obj := (1%nat, Node (mkClass "x" None [] None None None) fresh []) in
  let b : Obj := (2%nat, Node (mkClass "x" None [] None None None) fresh []) in
  match remove_subindex "x" (init [a; b]) with
  | Ok self =>
      subindices self = [a] /\ remove_subindex "x" self = Raise KeyError
  | Raise _ => False
  end.
Proof. vm_compute. split; reflexivity. Qed.

End RegistryFacts.
